(** * Non-profit QR code generator: model of the form, persistence and export logic

    The development embeds the logic of [src/lib/supabase.ts],
    [src/components/LogoUpload.tsx], [src/components/UserForm.tsx] and
    [src/components/QRCodeGenerator.tsx].

    - JavaScript strings are [string]s.  Every character class used by the
      source ([\d], [\D], [[a-zA-Z0-9._%+-]], ...) only accepts ASCII
      characters, so a character outside ASCII behaves like any other
      rejected character.
    - Calls to the hosted store are nodes of a small program tree
      ([Supabase.Prog]); the store itself is an interface
      ([Supabase.Backend]) with one reference instance.
    - React component state is a record; a handler maps the state (and the
      event) to the next state and to the callbacks it fired.  A handler is
      a closure of the render that created it: where this matters
      ([QRCodeGenerator.System]) the state of the last render is kept next
      to the state the setters have written.
    - The numbers of the PDF placement are IEEE 754 doubles, [float] with
      its primitive operations, specified by [SpecFloat]. *)

From Stdlib Require Import String Ascii List Bool Arith Lia ZArith QArith Floats.
Import ListNotations.

Close Scope Q_scope.
Set Implicit Arguments.

(** ** JavaScript string helpers *)

Module JsString.

Open Scope string_scope.

(** [\d]: the ASCII digits [0-9]. *)
Definition is_digit (c : ascii) : bool :=
  (48 <=? nat_of_ascii c)%nat && (nat_of_ascii c <=? 57)%nat.

Definition is_lower (c : ascii) : bool :=
  (97 <=? nat_of_ascii c)%nat && (nat_of_ascii c <=? 122)%nat.

Definition is_upper (c : ascii) : bool :=
  (65 <=? nat_of_ascii c)%nat && (nat_of_ascii c <=? 90)%nat.

(** [[a-zA-Z]] *)
Definition is_alpha (c : ascii) : bool := is_lower c || is_upper c.

(** [one_of "._%+-" c]: [c] is one of the listed characters. *)
Fixpoint one_of (cs : string) (c : ascii) : bool :=
  match cs with
  | EmptyString => false
  | String d cs' => Ascii.eqb c d || one_of cs' c
  end.

(** [value.replace(/\D/g, '')]: every non-digit is removed. *)
Fixpoint replace_non_digits (s : string) : string :=
  match s with
  | EmptyString => EmptyString
  | String c s' =>
      if is_digit c then String c (replace_non_digits s')
      else replace_non_digits s'
  end.

(** [s.slice(from, to)] for non-negative indices: the characters at
    positions [from .. to-1], clamped to the string. *)
Definition slice (from to : nat) (s : string) : string :=
  substring from (to - from) s.

(** JavaScript truthiness of a string: only [''] is falsy. *)
Definition truthy (s : string) : bool :=
  match s with EmptyString => false | String _ _ => true end.

(** [s || undefined] for an optional string. *)
Definition or_undefined (s : option string) : option string :=
  match s with
  | Some v => if truthy v then Some v else None
  | None => None
  end.

(** Truthiness of an optional string ([undefined] and [''] are falsy). *)
Definition truthy_opt (s : option string) : bool :=
  match s with Some v => truthy v | None => false end.

(** The string made of [n] copies of [c]. *)
Fixpoint replicate (c : ascii) (n : nat) : string :=
  match n with
  | O => EmptyString
  | S n' => String c (replicate c n')
  end.

Fixpoint all_chars (p : ascii -> bool) (s : string) : bool :=
  match s with
  | EmptyString => true
  | String c s' => p c && all_chars p s'
  end.

End JsString.

(** ** Regular expressions over character classes *)

Module Regex.

Inductive regex : Type :=
| Void : regex                          (* matches nothing *)
| Eps : regex                           (* matches the empty string *)
| Class : (ascii -> bool) -> regex      (* one character of a class *)
| Cat : regex -> regex -> regex
| Alt : regex -> regex -> regex
| Star : regex -> regex.

(** A literal character. *)
Definition Chr (c : ascii) : regex := Class (Ascii.eqb c).

(** [r+] *)
Definition Plus (r : regex) : regex := Cat r (Star r).

(** [r{n}] *)
Fixpoint Repeat (n : nat) (r : regex) : regex :=
  match n with
  | O => Eps
  | S n' => Cat r (Repeat n' r)
  end.

(** [r{n,}] *)
Definition AtLeast (n : nat) (r : regex) : regex := Cat (Repeat n r) (Star r).

Fixpoint nullable (r : regex) : bool :=
  match r with
  | Void => false
  | Eps => true
  | Class _ => false
  | Cat r1 r2 => nullable r1 && nullable r2
  | Alt r1 r2 => nullable r1 || nullable r2
  | Star _ => true
  end.

(** Derivative of [r] by the character [c]. *)
Fixpoint deriv (c : ascii) (r : regex) : regex :=
  match r with
  | Void => Void
  | Eps => Void
  | Class p => if p c then Eps else Void
  | Cat r1 r2 =>
      if nullable r1
      then Alt (Cat (deriv c r1) r2) (deriv c r2)
      else Cat (deriv c r1) r2
  | Alt r1 r2 => Alt (deriv c r1) (deriv c r2)
  | Star r1 => Cat (deriv c r1) (Star r1)
  end.

Fixpoint matchb (r : regex) (s : list ascii) : bool :=
  match s with
  | [] => nullable r
  | c :: s' => matchb (deriv c r) s'
  end.

(** [/^r$/.test(s)]: the pattern is anchored at both ends, so the whole
    string has to match. *)
Definition test (r : regex) (s : string) : bool :=
  matchb r (list_ascii_of_string s).

(** The language of a regular expression. *)
Inductive matches : regex -> list ascii -> Prop :=
| MEps : matches Eps []
| MClass : forall p c, p c = true -> matches (Class p) [c]
| MCat : forall r1 r2 s1 s2,
    matches r1 s1 -> matches r2 s2 -> matches (Cat r1 r2) (s1 ++ s2)
| MAltL : forall r1 r2 s, matches r1 s -> matches (Alt r1 r2) s
| MAltR : forall r1 r2 s, matches r2 s -> matches (Alt r1 r2) s
| MStar0 : forall r, matches (Star r) []
| MStarS : forall r s1 s2,
    matches r s1 -> matches (Star r) s2 -> matches (Star r) (s1 ++ s2).

End Regex.

(** ** [src/components/UserForm.tsx] *)

Module UserForm.

Import JsString Regex.
Open Scope string_scope.

(** [[a-zA-Z0-9._%+-]] *)
Definition local_char (c : ascii) : bool :=
  is_lower c || is_upper c || is_digit c || one_of "._%+-" c.

(** [[a-zA-Z0-9.-]] *)
Definition domain_char (c : ascii) : bool :=
  is_lower c || is_upper c || is_digit c || one_of ".-" c.

(** [/^[a-zA-Z0-9._%+-]+@[a-zA-Z0-9.-]+\.[a-zA-Z]{2,}$/] *)
Definition emailRegex : regex :=
  Cat (Plus (Class local_char))
 (Cat (Chr "@")
 (Cat (Plus (Class domain_char))
 (Cat (Chr ".")
      (AtLeast 2 (Class is_alpha))))).

(** [/^\d{2}-\d{7}$/] *)
Definition einRegex : regex :=
  Cat (Repeat 2 (Class is_digit))
 (Cat (Chr "-")
      (Repeat 7 (Class is_digit))).

Record FormData : Type := mkFormData {
  name : string;
  email : string;
  organization : string;
  ein : string
}.

(** The component state: [formData], [emailError], [einError]. *)
Record State : Type := mkState {
  formData : FormData;
  emailError : string;
  einError : string
}.

Definition initial : State :=
  mkState (mkFormData "" "" "" "") "" "".

Definition setEmailError (msg : string) (st : State) : State :=
  mkState (formData st) msg (einError st).

Definition setEinError (msg : string) (st : State) : State :=
  mkState (formData st) (emailError st) msg.

Definition validateEmail (email : string) (st : State) : bool * State :=
  if negb (truthy email) then
    (false, setEmailError "Email is required" st)
  else if negb (test emailRegex email) then
    (false, setEmailError "Please enter a valid email address" st)
  else
    (true, setEmailError "" st).

Definition validateEIN (ein : string) (st : State) : bool * State :=
  if negb (truthy ein) then
    (true, setEinError "" st)
  else if negb (test einRegex ein) then
    (false, setEinError "EIN must be in format: XX-XXXXXXX" st)
  else
    (true, setEinError "" st).

(** The payload handed to the parent's [onSubmit]: the form data with an
    empty EIN replaced by [undefined]. *)
Record SubmitData : Type := mkSubmitData {
  sd_name : string;
  sd_email : string;
  sd_organization : string;
  sd_ein : option string
}.

(** [handleSubmit]: the next state and the [onSubmit] call, if one is made.
    [||] is short-circuit: [validateEIN] only runs after [validateEmail]
    succeeded. *)
Definition handleSubmit (st : State) : State * option SubmitData :=
  let '(okEmail, st1) := validateEmail (email (formData st)) st in
  if negb okEmail then (st1, None)
  else
    let '(okEin, st2) := validateEIN (ein (formData st)) st1 in
    if negb okEin then (st2, None)
    else
      let fd := formData st in
      (st2, Some (mkSubmitData (name fd) (email fd) (organization fd)
                               (or_undefined (Some (ein fd))))).

Definition formatEIN (value : string) : string :=
  let digits := replace_non_digits value in
  if (String.length digits <=? 2)%nat then digits
  else slice 0 2 digits ++ "-" ++ slice 2 9 digits.

(** [{ ...prev, [name]: value }] for the four inputs of the form; another
    key would not be read by anything in the component. *)
Definition set_field (field value : string) (fd : FormData) : FormData :=
  if field =? "name" then mkFormData value (email fd) (organization fd) (ein fd)
  else if field =? "email" then mkFormData (name fd) value (organization fd) (ein fd)
  else if field =? "organization" then mkFormData (name fd) (email fd) value (ein fd)
  else if field =? "ein" then mkFormData (name fd) (email fd) (organization fd) value
  else fd.

Definition setFormData (f : FormData -> FormData) (st : State) : State :=
  mkState (f (formData st)) (emailError st) (einError st).

(** [handleChange] on the event [{ target: { name: field, value } }]. *)
Definition handleChange (field value : string) (st : State) : State :=
  if field =? "ein" then
    let formattedEIN := formatEIN value in
    let st1 := setFormData (set_field field formattedEIN) st in
    snd (validateEIN formattedEIN st1)
  else
    let st1 := setFormData (set_field field value) st in
    if field =? "email" then snd (validateEmail value st1)
    else st1.

(** The submit button is [disabled] while a submission is in flight or a
    field error is shown. *)
Definition submit_disabled (isSubmitting : bool) (st : State) : bool :=
  isSubmitting || truthy (emailError st) || truthy (einError st).

End UserForm.

(** ** [src/lib/supabase.ts] *)

Module Supabase.

Import JsString.
Open Scope string_scope.

(** [APP_IDS.QR_CODE_GENERATOR] *)
Definition QR_CODE_GENERATOR : string := "qr-gen-v1".

(** [interface User] *)
Record User : Type := mkUser {
  id : option string;
  email : string;
  name : string;
  organization : option string;
  ein : option string;
  app_ids : option (list string);
  created_at : option string
}.

(** [interface Visit] *)
Record Visit : Type := mkVisit {
  visit_id : option string;
  user_id : string;
  app_id : string;
  visit_count : Z;
  last_visit : string;
  visit_created_at : option string
}.

(** [Omit<User, 'id' | 'created_at' | 'app_ids'>] *)
Record UserData : Type := mkUserData {
  ud_email : string;
  ud_name : string;
  ud_organization : option string;
  ud_ein : option string
}.

(** The object given to [.update(...)]: [app_ids] is always present, the
    other keys only when the spread [...(v && { key: v })] adds them. *)
Record UserPatch : Type := mkUserPatch {
  p_app_ids : list string;
  p_name : option string;
  p_organization : option string;
  p_ein : option string
}.

(** The object given to [.insert([...])]. *)
Record NewUser : Type := mkNewUser {
  n_email : string;
  n_name : string;
  n_organization : option string;
  n_ein : option string;
  n_app_ids : list string
}.

(** The calls made on [supabase.from('users')]. *)
Inductive UsersQuery : Type :=
| SelectByEmail (email : string)
    (* .select('*').eq('email', email).maybeSingle() *)
| UpdateById (id : option string) (patch : UserPatch)
    (* .update(patch).eq('id', id).select().single() *)
| Insert (row : NewUser).
    (* .insert([row]).select().single() *)

(** The call made on [supabase.from('visits')]:
    [.upsert(row, { onConflict: 'user_id,app_id' }).select(...).single()]. *)
Inductive VisitsQuery : Type :=
| Upsert (userId appId : string) (visitCount : Z) (lastVisit : string).

Inductive Error : Type := StoreError (message : string).

(** What a query resolves to: [{ data, error }]. *)
Record Reply (T : Type) : Type := mkReply {
  data : option T;
  error : option Error
}.

(** What awaiting a query produces: the promise is fulfilled with a reply,
    or it is rejected and [await] throws. *)
Inductive Settled (T : Type) : Type :=
| Fulfilled (r : Reply T)
| Rejected (e : Error).

Arguments Rejected {T} e.

Inductive Level : Type := warn | err.

(** Programs over the store: the tree of calls an [async] function makes,
    with the continuation applied to what each call produced. *)
Inductive Prog (A : Type) : Type :=
| Ret (a : A)
| Throw (e : Error)
| Console (l : Level) (msg : string) (k : Prog A)
| Now (k : string -> Prog A)
| Users (q : UsersQuery) (k : Settled User -> Prog A)
| Visits (q : VisitsQuery) (k : Settled Visit -> Prog A).

Arguments Throw {A} e.
Arguments Now {A} k.
Arguments Users {A} q k.
Arguments Visits {A} q k.

Fixpoint bind {A B : Type} (p : Prog A) (f : A -> Prog B) : Prog B :=
  match p with
  | Ret a => f a
  | Throw e => Throw e
  | Console l m k => Console l m (bind k f)
  | Now k => Now (fun t => bind (k t) f)
  | Users q k => Users q (fun o => bind (k o) f)
  | Visits q k => Visits q (fun o => bind (k o) f)
  end.

(** [try { p } catch (e) { h e }] *)
Fixpoint try_catch {A : Type} (p : Prog A) (h : Error -> Prog A) : Prog A :=
  match p with
  | Ret a => Ret a
  | Throw e => h e
  | Console l m k => Console l m (try_catch k h)
  | Now k => Now (fun t => try_catch (k t) h)
  | Users q k => Users q (fun o => try_catch (k o) h)
  | Visits q k => Visits q (fun o => try_catch (k o) h)
  end.

Declare Scope prog_scope.
Delimit Scope prog_scope with prog.
Notation "x <- p ;; q" := (bind p (fun x => q))
  (at level 61, p at next level, right associativity) : prog_scope.
Notation "p ;; q" := (bind p (fun _ => q))
  (at level 61, right associativity) : prog_scope.
Open Scope prog_scope.

(** [await q]: a rejected promise throws at the [await]. *)
Definition settle {T : Type} (o : Settled T) : Prog (Reply T) :=
  match o with
  | Fulfilled r => Ret r
  | Rejected e => Throw e
  end.

Definition await_users (q : UsersQuery) : Prog (Reply User) := Users q settle.
Definition await_visits (q : VisitsQuery) : Prog (Reply Visit) := Visits q settle.
Definition now : Prog string := Now (fun t => Ret t).

(** [if (error) throw error] *)
Definition throw_if {T : Type} (r : Reply T) : Prog unit :=
  match error r with
  | Some e => Throw e
  | None => Ret tt
  end.

Definition updateVisit (userId appId : string) : Prog (option Visit) :=
  if negb (truthy userId) || negb (truthy appId) then
    Console warn "Skipping visit update - missing required parameters"
      (Ret None)
  else
    try_catch
      (t <- now ;;
       r <- await_visits (Upsert userId appId 1 t) ;;
       throw_if r ;;
       Ret (data r))
      (fun _ => Console warn "Visit tracking failed:" (Ret None)).

(** [array.includes(s)] *)
Definition includes (l : list string) (s : string) : bool :=
  existsb (String.eqb s) l.

(** [existingUser.app_ids || []] *)
Definition app_ids_or_empty (u : User) : list string :=
  match app_ids u with
  | Some l => l
  | None => []
  end.

(** [cleanUserData] *)
Definition clean (userData : UserData) : UserData :=
  mkUserData (ud_email userData) (ud_name userData)
             (or_undefined (ud_organization userData))
             (or_undefined (ud_ein userData)).

(** [...(v && { key: v })]: the key is added only for a truthy [v]. *)
Definition spread_if (v : option string) : option string := or_undefined v.

Definition update_patch (updatedAppIds : list string) (cleanUserData : UserData)
  : UserPatch :=
  mkUserPatch updatedAppIds
              (spread_if (Some (ud_name cleanUserData)))
              (spread_if (ud_organization cleanUserData))
              (spread_if (ud_ein cleanUserData)).

Definition insert_row (cleanUserData : UserData) : NewUser :=
  mkNewUser (ud_email cleanUserData) (ud_name cleanUserData)
            (ud_organization cleanUserData) (ud_ein cleanUserData)
            [QR_CODE_GENERATOR].

(** [newUser?.id] *)
Definition id_of (u : option User) : option string :=
  match u with
  | Some r => id r
  | None => None
  end.

Definition saveUser (userData : UserData) : Prog (option User) :=
  try_catch
    (let cleanUserData := clean userData in
     fetched <- await_users (SelectByEmail (ud_email cleanUserData)) ;;
     throw_if fetched ;;
     match data fetched with
     | Some existingUser =>
         let updatedAppIds := app_ids_or_empty existingUser in
         if negb (includes updatedAppIds QR_CODE_GENERATOR) then
           let updatedAppIds := (updatedAppIds ++ [QR_CODE_GENERATOR])%list in
           updated <- await_users
                        (UpdateById (id existingUser)
                                    (update_patch updatedAppIds cleanUserData)) ;;
           throw_if updated ;;
           Ret (data updated)
         else
           Ret (Some existingUser)
     | None =>
         inserted <- await_users (Insert (insert_row cleanUserData)) ;;
         throw_if inserted ;;
         let newUser := data inserted in
         (match id_of newUser with
          | Some newUserId =>
              if truthy newUserId then
                try_catch
                  (updateVisit newUserId QR_CODE_GENERATOR ;; Ret tt)
                  (fun _ =>
                     Console err "Visit tracking failed but user was saved:"
                       (Ret tt))
              else Ret tt
          | None => Ret tt
          end) ;;
         Ret newUser
     end)
    (fun e => Console err "Error in saveUser:" (Throw e)).

(** *** Running a program against a store *)

(** A store: how it answers each call, and the clock read by [new Date()]. *)
Class Backend (W : Type) : Type := mkBackend {
  users_call : UsersQuery -> W -> Settled User * W;
  visits_call : VisitsQuery -> W -> Settled Visit * W;
  clock : W -> string * W
}.

Inductive Completion (A : Type) : Type :=
| Returned (a : A)
| Thrown (e : Error).

Arguments Thrown {A} e.

Inductive Event : Type :=
| Logged (l : Level) (msg : string)
| UsersCall (q : UsersQuery)
| VisitsCall (q : VisitsQuery).

Record Run (W A : Type) : Type := mkRun {
  outcome : Completion A;
  final : W;
  events : list Event
}.

Definition cons_event {W A : Type} (e : Event) (r : Run W A) : Run W A :=
  mkRun (outcome r) (final r) (e :: events r).

Fixpoint run {W : Type} {B : Backend W} {A : Type} (p : Prog A) (w : W)
  : Run W A :=
  match p with
  | Ret a => mkRun (Returned a) w []
  | Throw e => mkRun (Thrown e) w []
  | Console l m k => cons_event (Logged l m) (run k w)
  | Now k => let (t, w1) := clock w in run (k t) w1
  | Users q k =>
      let (o, w1) := users_call q w in cons_event (UsersCall q) (run (k o) w1)
  | Visits q k =>
      let (o, w1) := visits_call q w in cons_event (VisitsCall q) (run (k o) w1)
  end.

(** [p] ends by returning, whatever the store and the clock answer. *)
Fixpoint never_throws {A : Type} (p : Prog A) : Prop :=
  match p with
  | Ret _ => True
  | Throw _ => False
  | Console _ _ k => never_throws k
  | Now k => forall t, never_throws (k t)
  | Users _ k => forall o, never_throws (k o)
  | Visits _ k => forall o, never_throws (k o)
  end.

(** The awaited call did not deliver a row: the promise was rejected, or
    the reply carries an error. *)
Definition call_failed {T : Type} (o : Settled T) : Prop :=
  match o with
  | Rejected _ => True
  | Fulfilled r => error r <> None
  end.

Definition is_insert (e : Event) : bool :=
  match e with UsersCall (Insert _) => true | _ => false end.

Definition is_update (e : Event) : bool :=
  match e with UsersCall (UpdateById _ _) => true | _ => false end.

Definition is_upsert (e : Event) : bool :=
  match e with VisitsCall _ => true | _ => false end.

(** The lookup and the update [saveUser] sends for [userData], and the
    line it logs before throwing again. *)
Definition select_of (userData : UserData) : UsersQuery :=
  SelectByEmail (ud_email userData).

Definition update_of (userData : UserData) (u : User) : UsersQuery :=
  UpdateById (id u)
    (update_patch (app_ids_or_empty u ++ [QR_CODE_GENERATOR])
                  (clean userData)).

Definition saveUser_log : Event := Logged err "Error in saveUser:".

End Supabase.

(** ** A reference store

    The hosted database is not part of the repository.  [Store] is an
    in-memory instance of [Supabase.Backend] with the behaviour of the three
    query shapes the helpers use, and a plan of failures to inject: it is used
    to state what a call does to the rows of the [users] table.  Statements
    that do not mention rows are made for every [Backend]. *)

Module Store.

Import JsString Supabase.
Open Scope string_scope.

(** A failure of one call: answered with [{ data: null, error }], or the
    promise is rejected. *)
Inductive Fault : Type :=
| InBand (e : Error)
| Reject (e : Error).

Record Db : Type := mkDb {
  users : list User;
  visits : list Visit;
  today : string;
  faults : list (option Fault)
}.

Definition opt_eqb (a b : option string) : bool :=
  match a, b with
  | Some x, Some y => x =? y
  | _, _ => false
  end.

Definition same_email (e : string) (u : User) : bool := email u =? e.
Definition same_id (i : option string) (u : User) : bool := opt_eqb (id u) i.

Definition set_users (us : list User) (db : Db) : Db :=
  mkDb us (visits db) (today db) (faults db).

Definition set_visits (vs : list Visit) (db : Db) : Db :=
  mkDb (users db) vs (today db) (faults db).

Definition set_faults (fs : list (option Fault)) (db : Db) : Db :=
  mkDb (users db) (visits db) (today db) fs.

Definition ok {T : Type} (row : option T) : Settled T :=
  Fulfilled (mkReply row None).

Definition failed {T : Type} (msg : string) : Settled T :=
  Fulfilled (mkReply None (Some (StoreError msg))).

(** An identifier longer than every identifier in use. *)
Fixpoint longest (taken : list (option string)) : nat :=
  match taken with
  | [] => 0
  | Some s :: rest => Nat.max (String.length s) (longest rest)
  | None :: rest => longest rest
  end.

Definition fresh_id (taken : list (option string)) : string :=
  String "u" (replicate "0" (longest taken)).

(** [.update(patch)] on one row: the keys of the patch replace the columns. *)
Definition apply_patch (patch : UserPatch) (u : User) : User :=
  mkUser (id u) (email u)
         (match p_name patch with Some v => v | None => name u end)
         (match p_organization patch with Some v => Some v | None => organization u end)
         (match p_ein patch with Some v => Some v | None => ein u end)
         (Some (p_app_ids patch))
         (created_at u).

Definition patch_where (i : option string) (patch : UserPatch) (u : User)
  : User :=
  if same_id i u then apply_patch patch u else u.

Definition users_query (q : UsersQuery) (db : Db) : Settled User * Db :=
  match q with
  | SelectByEmail e =>
      match filter (same_email e) (users db) with
      | [] => (ok None, db)
      | [u] => (ok (Some u), db)
      | _ => (failed "multiple rows returned", db)
      end
  | UpdateById i patch =>
      match filter (same_id i) (users db) with
      | [u] =>
          (ok (Some (apply_patch patch u)),
           set_users (map (patch_where i patch) (users db)) db)
      | _ => (failed "no single row to return", db)
      end
  | Insert row =>
      let u := mkUser (Some (fresh_id (map id (users db))))
                      (n_email row) (n_name row) (n_organization row)
                      (n_ein row) (Some (n_app_ids row)) (Some (today db)) in
      (ok (Some u), set_users (users db ++ [u]) db)
  end.

Definition same_visit (userId appId : string) (v : Visit) : bool :=
  (user_id v =? userId) && (app_id v =? appId).

Definition visits_query (q : VisitsQuery) (db : Db) : Settled Visit * Db :=
  match q with
  | Upsert userId appId n t =>
      match filter (same_visit userId appId) (visits db) with
      | [] =>
          let v := mkVisit (Some (fresh_id (map visit_id (visits db))))
                           userId appId n t (Some (today db)) in
          (ok (Some v), set_visits (visits db ++ [v]) db)
      | old :: _ =>
          let v := mkVisit (visit_id old) userId appId n t
                           (visit_created_at old) in
          (ok (Some v),
           set_visits
             (map (fun r => if same_visit userId appId r then v else r)
                  (visits db)) db)
      end
  end.

(** One call consumes one entry of the plan; an exhausted plan means no
    further failure. *)
Definition with_faults {T : Type} (call : Db -> Settled T * Db) (db : Db)
  : Settled T * Db :=
  match faults db with
  | [] => call db
  | None :: rest => call (set_faults rest db)
  | Some (InBand e) :: rest =>
      (Fulfilled (mkReply None (Some e)), set_faults rest db)
  | Some (Reject e) :: rest => (Rejected e, set_faults rest db)
  end.

#[export] Instance db_backend : Backend Db := {|
  users_call q := with_faults (users_query q);
  visits_call q := with_faults (visits_query q);
  clock db := (today db, db)
|}.

(** Identifiers are present and distinct. *)
Fixpoint distinct_ids (us : list User) : bool :=
  match us with
  | [] => true
  | u :: rest =>
      match id u with
      | Some _ => negb (existsb (same_id (id u)) rest) && distinct_ids rest
      | None => false
      end
  end.

End Store.

(** ** [src/components/LogoUpload.tsx] *)

Module LogoUpload.

Import JsString.
Open Scope string_scope.
Local Open Scope Z_scope.

(** A [File]: its MIME type, its size in bytes, and the natural width and
    height the browser finds when it decodes it ([None] when it does not
    decode as an image, which fires [img.onerror]). *)
Record File : Type := mkFile {
  type : string;
  size : Z;
  natural : option (Z * Z)
}.

Record State : Type := mkState {
  isDragging : bool;
  error : string;
  preview : option string
}.

Definition initial : State := mkState false "" None.

Definition setError (msg : string) (st : State) : State :=
  mkState (isDragging st) msg (preview st).

Definition setPreview (p : option string) (st : State) : State :=
  mkState (isDragging st) (error st) p.

Definition validateImage (file : File) (st : State) : bool * State :=
  match natural file with
  | Some (width, height) =>
      if (width <? 100) || (height <? 100) then
        (false, setError "Image must be at least 100x100 pixels" st)
      else if (width >? 2000) || (height >? 2000) then
        (false, setError "Image must be no larger than 2000x2000 pixels" st)
      else
        (true, setError "" st)
  | None => (false, setError "Invalid image file" st)
  end.

(** The options given to [imageCompression]. *)
Record Options : Type := mkOptions {
  maxSizeMB : Q;
  maxWidthOrHeight : Z;
  useWebWorker : bool
}.

Definition options : Options := mkOptions 0.5%Q 1000 true.

Section ProcessImage.

(** [browser-image-compression]: the compressed file, or [None] when the
    promise is rejected. *)
Variable imageCompression : File -> Options -> option File.

(** [FileReader.readAsDataURL]: [reader.result] when [onloadend] fires, a
    data URL or [null]. *)
Variable readAsDataURL : File -> option string.

(** [processImage]: the next state and the calls made to [onLogoChange]. *)
Definition processImage (file : File) (st : State)
  : State * list (option string) :=
  if negb (prefix "image/" (type file)) then
    (setError "Please upload an image file" st, [])
  else if size file >? 5 * 1024 * 1024 then
    (setError "File size must be less than 5MB" st, [])
  else
    let (isValid, st1) := validateImage file st in
    if negb isValid then (st1, [])
    else
      match imageCompression file options with
      | Some compressedFile =>
          let base64data := readAsDataURL compressedFile in
          (setPreview base64data st1, [base64data])
      | None => (setError "Error processing image" st1, [])
      end.

End ProcessImage.

(** [handleRemove] *)
Definition handleRemove (st : State) : State * list (option string) :=
  (setError "" (setPreview None st), [None]).

End LogoUpload.

(** ** [src/components/QRCodeGenerator.tsx] *)

Module QRCodeGenerator.

Import JsString.
Open Scope string_scope.

(** The part of the component state read or written by the handlers below
    (the colours, the size, the edit drafts, the logo and the bound user are
    not touched by them). *)
Record State : Type := mkState {
  url : string;
  orgDescription : string;
  urlPurpose : string;
  isGenerating : bool;
  error : string
}.

Definition initial : State := mkState "" "" "" false "".

Definition setUrl (v : string) (st : State) : State :=
  mkState v (orgDescription st) (urlPurpose st) (isGenerating st) (error st).

Definition setOrgDescription (v : string) (st : State) : State :=
  mkState (url st) v (urlPurpose st) (isGenerating st) (error st).

Definition setUrlPurpose (v : string) (st : State) : State :=
  mkState (url st) (orgDescription st) v (isGenerating st) (error st).

Definition setIsGenerating (b : bool) (st : State) : State :=
  mkState (url st) (orgDescription st) (urlPurpose st) b (error st).

Definition setError (v : string) (st : State) : State :=
  mkState (url st) (orgDescription st) (urlPurpose st) (isGenerating st) v.

Inductive AiType : Type := description | purpose.

(** The argument of [openai.chat.completions.create]. *)
Record Completion : Type := mkCompletion {
  model : string;
  system : string;
  user : string;
  temperature : Q;
  max_tokens : Z
}.

(** What the awaited completion produces: a response, of which
    [choices[0]?.message?.content] is read, or a rejection, of which
    [error?.error?.message] is read. *)
Inductive AiOutcome : Type :=
| Responded (content : option string)
| Failed (message : option string).

Definition prompt_of (type : AiType) (st : State) : string :=
  match type with
  | description =>
      "Write a concise, engaging description for a non-profit organization based on this context: "
      ++ orgDescription st
      ++ ". Make it professional and appealing to potential donors or supporters. Keep it under 100 words."
  | purpose =>
      "Write a clear, compelling explanation of this URL's purpose based on this context: "
      ++ urlPurpose st ++ ". The URL is: " ++ url st
      ++ ". Focus on the value it provides to visitors. Keep it under 75 words."
  end.

Definition or_else (v : option string) (fallback : string) : string :=
  match v with
  | Some s => if truthy s then s else fallback
  | None => fallback
  end.

Section GenerateAIText.

(** [openai] is [null] when no API key is configured. *)
Variable openai : bool.

(** [String.prototype.trim] *)
Variable trim : string -> string.

(** [generateAIText] up to its [await]: the next state and the request
    sent, if any. *)
Definition generateAIText (type : AiType) (st : State)
  : State * option Completion :=
  if isGenerating st then (st, None)
  else if negb openai then
    (setError "OpenAI API key is not configured. Please add your API key to the environment variables." st,
     None)
  else
    let st1 := setIsGenerating true (setError "" st) in
    (st1,
     Some (mkCompletion "gpt-4o-mini"
             "You are a professional copywriter specializing in non-profit communications."
             (prompt_of type st) 0.7%Q 150)).

(** [generateAIText] from its [await] on: [try] or [catch], then
    [finally]. *)
Definition generateAIText_resume (type : AiType) (o : AiOutcome) (st : State)
  : State :=
  let st1 :=
    match o with
    | Responded content =>
        let generatedText := or_else (option_map trim content) "" in
        match type with
        | description => setOrgDescription generatedText st
        | purpose => setUrlPurpose generatedText st
        end
    | Failed message =>
        setError (or_else message "Error generating AI text. Please try again.") st
    end in
  setIsGenerating false st1.

(** The component between two events. [view] is the state React holds:
    what the setters have written so far. [rendered] is the state of the
    last render: the handlers are closures created by that render, so
    [isGenerating], [orgDescription], [urlPurpose] and [url] read inside
    [generateAIText] are the values of [rendered], whatever was written
    since. [pending] lists the completion requests that were sent and have
    not settled yet. *)
Record System : Type := mkSystem {
  view : State;
  rendered : State;
  pending : list (AiType * Completion)
}.


(** What can happen to the component: React renders it again, a generate
    button's handler is invoked, a pending request settles, or another
    handler writes one of the other fields. *)
Inductive Action : Type :=
| Render
| Generate (type : AiType)
| Settle (n : nat) (o : AiOutcome)
| Url (v : string)
| OrgDescription (v : string)
| UrlPurpose (v : string)
| Banner (v : string).

Fixpoint remove_nth {T : Type} (n : nat) (l : list T) : list T :=
  match n, l with
  | _, [] => []
  | O, _ :: rest => rest
  | S n', a :: rest => a :: remove_nth n' rest
  end.

(** One event. For [Generate] the guard and the prompt read [rendered];
    the setters write [view]. The code after the [await] only calls
    setters. *)
Definition act (a : Action) (s : System) : System :=
  match a with
  | Render => mkSystem (view s) (view s) (pending s)
  | Generate type =>
      if isGenerating (rendered s) then s
      else if negb openai then
        mkSystem
          (setError "OpenAI API key is not configured. Please add your API key to the environment variables."
                    (view s))
          (rendered s) (pending s)
      else
        mkSystem (setIsGenerating true (setError "" (view s))) (rendered s)
                 (pending s ++
                  [(type,
                    mkCompletion "gpt-4o-mini"
                      "You are a professional copywriter specializing in non-profit communications."
                      (prompt_of type (rendered s)) 0.7%Q 150)])
  | Settle n o =>
      match nth_error (pending s) n with
      | Some (type, _) =>
          mkSystem (generateAIText_resume type o (view s)) (rendered s)
                   (remove_nth n (pending s))
      | None => s
      end
  | Url v => mkSystem (setUrl v (view s)) (rendered s) (pending s)
  | OrgDescription v =>
      mkSystem (setOrgDescription v (view s)) (rendered s) (pending s)
  | UrlPurpose v => mkSystem (setUrlPurpose v (view s)) (rendered s) (pending s)
  | Banner v => mkSystem (setError v (view s)) (rendered s) (pending s)
  end.


End GenerateAIText.



(** *** PDF placement in [downloadImage]

    JavaScript numbers are IEEE 754 doubles: [float] with its primitive
    operations. *)

Local Open Scope float_scope.

Definition pageWidth : float := 8.5.
Definition pageHeight : float := 11.
Definition margin : float := 0.5.
Definition maxWidth : float := pageWidth - 2 * margin.
Definition maxHeight : float := pageHeight - 2 * margin.

(** The arguments [x, y, width, height] of [pdf.addImage]. *)
Record Placement : Type := mkPlacement {
  x : float;
  y : float;
  width : float;
  height : float
}.

(** The placement computed from [imgProps.width] and [imgProps.height];
    [height > maxHeight] is [maxHeight <? height]. *)
Definition placement (imgWidth imgHeight : float) : Placement :=
  let aspectRatio := imgWidth / imgHeight in
  let width0 := maxWidth in
  let height0 := width0 / aspectRatio in
  let '(width1, height1) :=
    if maxHeight <? height0
    then (maxHeight * aspectRatio, maxHeight)
    else (width0, height0) in
  mkPlacement ((pageWidth - width1) / 2) ((pageHeight - height1) / 2)
              width1 height1.

End QRCodeGenerator.

(** ** Bounds on doubles

    A positive finite double is a mantissa [m] and an exponent [e]
    ([SpecFloat.S754_finite]) and stands for [m * 2^e]. The bounds below
    compare it with a power of two, or with another double, without
    leaving the integers. *)

Module Binary64.

Local Open Scope Z_scope.

(** [at_least k m e]: 2^k <= m * 2^e, for a positive mantissa. *)
Definition at_least (k m e : Z) : Prop := 0 < m /\ (e < k -> 2 ^ (k - e) <= m).

(** [at_most k m e]: m * 2^e <= 2^k. *)
Definition at_most (k m e : Z) : Prop := e <= k /\ m <= 2 ^ (k - e).

(** [under k m e]: (m + 1) * 2^e <= 2^k. *)
Definition under (k m e : Z) : Prop := e <= k /\ m < 2 ^ (k - e).

(** [le_double mc ec m e]: m * 2^e <= mc * 2^ec, on the grid of [e]. *)
Definition le_double (mc ec m e : Z) : Prop := e <= ec /\ m <= mc * 2 ^ (ec - e).

(** [lt_double mc ec m e]: m * 2^e < mc * 2^ec, on the grid of [e]. *)
Definition lt_double (mc ec m e : Z) : Prop := e <= ec /\ m < mc * 2 ^ (ec - e).

End Binary64.

(** ** [src/lib/supabase.ts]: saving a QR code *)

Module QrCodes.

Import JsString Supabase.
Open Scope string_scope.

(** [Omit<QRCode, 'id' | 'created_at'>] *)
Record QRData : Type := mkQRData {
  qr_user_id : string;
  qr_url : string;
  org_description : string;
  url_purpose : string;
  qr_color : string;
  bg_color : string;
  qr_size : Z;
  has_logo : bool
}.

(** [interface QRCode] *)
Record QRCode : Type := mkQRCode {
  qr_id : option string;
  qr_data : QRData;
  qr_created_at : option string
}.

(** What the helper does besides computing its result: lines written to
    the console and the insert sent to the [qr_codes] table. *)
Inductive Effect : Type :=
| ConsoleLog (msg : string)
| ConsoleError (msg : string)
| InsertQr (row : QRData).
    (* supabase.from('qr_codes').insert([row]).select().single() *)

Section SaveQRCode.

(** What awaiting the insert of a row produces. *)
Variable insert : QRData -> Settled QRCode.

Definition saveQRCode (qrData : QRData)
  : Completion (option QRCode) * list Effect :=
  match insert qrData with
  | Fulfilled r =>
      match error r with
      | Some e =>
          (Thrown e,
           [ConsoleLog "Attempting to save QR code with data:";
            InsertQr qrData;
            ConsoleError "Database error saving QR code:";
            ConsoleError "Error saving QR code:"])
      | None =>
          (Returned (data r),
           [ConsoleLog "Attempting to save QR code with data:";
            InsertQr qrData;
            ConsoleLog "Successfully saved QR code:"])
      end
  | Rejected e =>
      (Thrown e,
       [ConsoleLog "Attempting to save QR code with data:";
        InsertQr qrData;
        ConsoleError "Error saving QR code:"])
  end.

End SaveQRCode.

End QrCodes.

(** ** [src/components/LogoUpload.tsx]: the drop zone and the parent *)

Module LogoEvents.

Import JsString LogoUpload.
Open Scope string_scope.

Definition setIsDragging (b : bool) (st : State) : State :=
  mkState b (error st) (preview st).

(** The three checks of [processImage] and [validateImage] together. *)
Definition passes_checks (file : File) : bool :=
  prefix "image/" (type file) &&
  (size file <=? 5 * 1024 * 1024)%Z &&
  match natural file with
  | Some (w, h) =>
      ((100 <=? w) && (w <=? 2000) && (100 <=? h) && (h <=? 2000))%Z
  | None => false
  end.

(** [handleDrag] on an event of type [type]. *)
Definition handleDrag (type : string) (st : State) : State :=
  if (type =? "dragenter") || (type =? "dragover") then setIsDragging true st
  else if type =? "dragleave" then setIsDragging false st
  else st.

Section Intake.

Variable imageCompression : File -> Options -> option File.
Variable readAsDataURL : File -> option string.

(** [handleDrop] with [e.dataTransfer.files]. *)
Definition handleDrop (files : list File) (st : State)
  : State * list (option string) :=
  let st1 := setIsDragging false st in
  match files with
  | file :: _ => processImage imageCompression readAsDataURL file st1
  | [] => (st1, [])
  end.

(** [handleFileInput] with [e.target.files?.[0]]. *)
Definition handleFileInput (file : option File) (st : State)
  : State * list (option string) :=
  match file with
  | Some f => processImage imageCompression readAsDataURL f st
  | None => (st, [])
  end.

(** The widget with its parent: [onLogoChange] is the parent's [setLogo],
    so the parent's [logo] is the argument of the last call. *)
Record Mounted : Type := mkMounted {
  widget : State;
  logo : option string
}.

Definition mounted : Mounted := mkMounted initial None.

Inductive Event : Type :=
| Drag (type : string)
| Drop (files : list File)
| FileInput (file : option File)
| Remove.

Definition notify (calls : list (option string)) (logo : option string)
  : option string :=
  fold_left (fun _ v => v) calls logo.

Definition handle (e : Event) (m : Mounted) : Mounted :=
  match e with
  | Drag type => mkMounted (handleDrag type (widget m)) (logo m)
  | Drop files =>
      let (st, calls) := handleDrop files (widget m) in
      mkMounted st (notify calls (logo m))
  | FileInput file =>
      let (st, calls) := handleFileInput file (widget m) in
      mkMounted st (notify calls (logo m))
  | Remove =>
      let (st, calls) := handleRemove (widget m) in
      mkMounted st (notify calls (logo m))
  end.

Definition handle_all (l : list Event) (m : Mounted) : Mounted :=
  fold_left (fun m e => handle e m) l m.

End Intake.

End LogoEvents.

(** ** [src/components/UserForm.tsx]: the form over time *)

Module FormEvents.

Import JsString UserForm.
Open Scope string_scope.

(** The layout [formatEIN] gives to the digits it kept. *)
Definition layout (digits : string) : string :=
  if (String.length digits <=? 2)%nat then digits
  else slice 0 2 digits ++ "-" ++ slice 2 9 digits.

(** What the user does to the form: edits an input, or submits. *)
Inductive Event : Type :=
| Change (field value : string)
| Submit.

Definition handle (e : Event) (st : State) : State :=
  match e with
  | Change field value => handleChange field value st
  | Submit => fst (handleSubmit st)
  end.

Definition handle_all (l : list Event) (st : State) : State :=
  fold_left (fun st e => handle e st) l st.

(** What holds of the form after any edits and submissions. *)
Definition settled (st : State) : Prop :=
  let fd := formData st in
  formatEIN (ein fd) = ein fd /\
  (einError st = "" <-> ein fd = "" \/ Regex.test einRegex (ein fd) = true) /\
  (Regex.test emailRegex (email fd) = true -> emailError st = "") /\
  (emailError st = "" -> email fd = "" \/ Regex.test emailRegex (email fd) = true).

End FormEvents.

(** ** [src/components/QRCodeGenerator.tsx]: binding a user and downloading *)

Module Generator.

Import JsString Supabase QrCodes.
Open Scope string_scope.

(** The component state read or written by [handleUserSubmit] and
    [downloadImage]: the fields of [QRCodeGenerator.State] and the colours,
    the size, the logo, the bound user and the submission flag. *)
Record View : Type := mkView {
  fields : QRCodeGenerator.State;
  qrColor : string;
  bgColor : string;
  size : Z;
  logo : option string;
  user : option User;
  isSubmitting : bool
}.

Definition initial : View :=
  mkView QRCodeGenerator.initial "#000000" "#ffffff" 256 None None false.

Definition setError (msg : string) (v : View) : View :=
  mkView (QRCodeGenerator.setError msg (fields v)) (qrColor v) (bgColor v)
         (size v) (logo v) (user v) (isSubmitting v).

Definition setUser (u : option User) (v : View) : View :=
  mkView (fields v) (qrColor v) (bgColor v) (size v) (logo v) u
         (isSubmitting v).

Definition setIsSubmitting (b : bool) (v : View) : View :=
  mkView (fields v) (qrColor v) (bgColor v) (size v) (logo v) (user v) b.

Definition message (e : Error) : string :=
  match e with StoreError m => m end.

(** The payload of the form as [saveUser] receives it: the organization is
    the string typed, the EIN is absent when blank. *)
Definition to_userData (d : UserForm.SubmitData) : UserData :=
  mkUserData (UserForm.sd_email d) (UserForm.sd_name d)
             (Some (UserForm.sd_organization d)) (UserForm.sd_ein d).

(** [handleUserSubmit], run against a store. *)
Definition handleUserSubmit {W : Type} {B : Backend W}
    (userData : UserData) (v : View) (w : W) : View * W * list Event :=
  let v1 := setError "" (setIsSubmitting true v) in
  let r := run (saveUser userData) w in
  let v2 :=
    match outcome r with
    | Returned savedUser => setUser savedUser v1
    | Thrown e => setError (QRCodeGenerator.or_else (Some (message e))
                              "Error saving user data") v1
    end in
  (setIsSubmitting false v2, final r, events r).

Inductive Format : Type := png | jpg | pdf.

Definition extension (format : Format) : string :=
  match format with png => "png" | jpg => "jpg" | pdf => "pdf" end.

(** The options given to [toPng] and [toJpeg]. *)
Record RasterOptions : Type := mkRasterOptions {
  quality : Q;
  backgroundColor : option string;
  style : option (string * string)     (* transform, background *)
}.

Definition pdf_options : RasterOptions := mkRasterOptions 1.0%Q None None.

Definition image_options : RasterOptions :=
  mkRasterOptions 1.0%Q (Some "#ffffff") (Some ("none", "#ffffff")).

(** What [downloadImage] does to the outside, in order. *)
Inductive Output : Type :=
| Console (msg : string)
| Store (e : QrCodes.Effect)
| ToPng (options : RasterOptions)
| ToJpeg (options : RasterOptions)
| AddImage (dataUrl format : string) (p : QRCodeGenerator.Placement)
| SavePdf (name : string)
| LinkClick (download href : string).

(** [user?.id] as a condition and as a value. *)
Definition user_id_of (u : option User) : option string :=
  match id_of u with
  | Some i => if truthy i then Some i else None
  | None => None
  end.

(** The row [downloadImage] hands to [saveQRCode]. *)
Definition snapshot (userId : string) (v : View) : QRData :=
  mkQRData userId
           (QRCodeGenerator.url (fields v))
           (QRCodeGenerator.orgDescription (fields v))
           (QRCodeGenerator.urlPurpose (fields v))
           (qrColor v) (bgColor v) (size v) (truthy_opt (logo v)).

(** The banner shown when a download fails. *)
Definition download_banner : string :=
  "Error downloading image. Please try again.".

Section DownloadImage.

(** The store's answer to the insert. *)
Variable insert : QRData -> Settled QRCode.

(** [html-to-image]: the data URL, or [None] when the promise rejects. *)
Variable toPng : RasterOptions -> option string.
Variable toJpeg : RasterOptions -> option string.

(** [jsPDF]: the width and height found in the image, and whether
    [addImage] and [save] return ([false]: they throw). *)
Variable getImageProperties : string -> option (float * float).
Variable addImage : string -> QRCodeGenerator.Placement -> bool.
Variable save : string -> bool.

Definition failed_download (v : View) (out : list Output)
  : View * list Output :=
  (setError "Error downloading image. Please try again." v,
   (out ++ [Console "Error downloading image:"])%list).

(** [downloadImage]; [mountedRef] tells whether [downloadRef.current] is
    set. *)
Definition downloadImage (mountedRef : bool) (format : Format) (v : View)
  : View * list Output :=
  match mountedRef, user_id_of (user v) with
  | true, Some userId =>
      let (saved, effects) := saveQRCode insert (snapshot userId v) in
      let out0 := Console "Starting QR code save..." :: map Store effects in
      match saved with
      | Thrown _ => failed_download v out0
      | Returned _ =>
          let out1 := (out0 ++ [Console "QR code saved successfully:"])%list in
          match format with
          | pdf =>
              let out2 := (out1 ++ [ToPng pdf_options])%list in
              match toPng pdf_options with
              | None => failed_download v out2
              | Some dataUrl =>
                  match getImageProperties dataUrl with
                  | None => failed_download v out2
                  | Some (imgWidth, imgHeight) =>
                      let p := QRCodeGenerator.placement imgWidth imgHeight in
                      let out3 := (out2 ++ [AddImage dataUrl "PNG" p])%list in
                      if addImage dataUrl p then
                        let out4 := (out3 ++ [SavePdf "qr-code.pdf"])%list in
                        if save "qr-code.pdf" then (v, out4)
                        else failed_download v out4
                      else failed_download v out3
                  end
              end
          | _ =>
              let call := match format with png => ToPng | _ => ToJpeg end in
              let convertFn := match format with png => toPng | _ => toJpeg end in
              let out2 := (out1 ++ [call image_options])%list in
              match convertFn image_options with
              | None => failed_download v out2
              | Some dataUrl =>
                  (v, (out2 ++ [LinkClick ("qr-code." ++ extension format)
                                          dataUrl])%list)
              end
          end
      end
  | _, _ => (v, [])
  end.

(** The part of [downloadImage] that follows a successful save, after the
    outputs [out1] made so far. *)
Definition rendering (format : Format) (v : View) (out1 : list Output)
  : View * list Output :=
  match format with
  | pdf =>
      let out2 := (out1 ++ [ToPng pdf_options])%list in
      match toPng pdf_options with
      | None => failed_download v out2
      | Some dataUrl =>
          match getImageProperties dataUrl with
          | None => failed_download v out2
          | Some (imgWidth, imgHeight) =>
              let p := QRCodeGenerator.placement imgWidth imgHeight in
              let out3 := (out2 ++ [AddImage dataUrl "PNG" p])%list in
              if addImage dataUrl p then
                let out4 := (out3 ++ [SavePdf "qr-code.pdf"])%list in
                if save "qr-code.pdf" then (v, out4)
                else failed_download v out4
              else failed_download v out3
          end
      end
  | _ =>
      let call := match format with png => ToPng | _ => ToJpeg end in
      let convertFn := match format with png => toPng | _ => toJpeg end in
      let out2 := (out1 ++ [call image_options])%list in
      match convertFn image_options with
      | None => failed_download v out2
      | Some dataUrl =>
          (v, (out2 ++ [LinkClick ("qr-code." ++ extension format)
                                  dataUrl])%list)
      end
  end.

End DownloadImage.

Definition is_file (o : Output) : bool :=
  match o with
  | SavePdf _ | LinkClick _ _ => true
  | _ => false
  end.

Definition is_raster (o : Output) : bool :=
  match o with
  | ToPng _ | ToJpeg _ => true
  | _ => false
  end.

Definition is_store (o : Output) : bool :=
  match o with
  | Store (InsertQr _) => true
  | _ => false
  end.

End Generator.

(** ** Reading a run *)

Module Traces.

Import Supabase.

(** The calls sent to the store, without the console lines. *)
Definition store_calls (events : list Event) : list Event :=
  filter (fun e => match e with Logged _ _ => false | _ => true end) events.

(** The error an awaited call ends with, if it does. *)
Definition failure_of {T : Type} (o : Settled T) : option Error :=
  match o with
  | Rejected e => Some e
  | Fulfilled r => error r
  end.

(** The row [saveUser] inserts for [userData]. *)
Definition insert_of (userData : UserData) : UsersQuery :=
  Insert (insert_row (clean userData)).

(** The upsert [updateVisit] sends at time [t]. *)
Definition upsert_of (userId appId t : string) : Event :=
  VisitsCall (Upsert userId appId 1 t).

(** The row the reference store creates for a first submission. *)
Definition new_row (userData : UserData) (db : Store.Db) : User :=
  mkUser (Some (Store.fresh_id (map id (Store.users db))))
         (ud_email userData) (ud_name userData)
         (JsString.or_undefined (ud_organization userData))
         (JsString.or_undefined (ud_ein userData))
         (Some [QR_CODE_GENERATOR]) (Some (Store.today db)).

End Traces.

(** ** The address shape of the specification *)

Module Shapes.

Import JsString.
Open Scope string_scope.

(** The shape [local@domain.tld], written out: a non-empty local part of
    letters, digits and [._%+-], an [@], a non-empty domain of letters,
    digits, dots and hyphens, a dot, and a top-level domain of two or more
    letters. *)
Definition email_shape (s : string) : Prop :=
  exists local domain tld : string,
    s = local ++ "@" ++ domain ++ "." ++ tld /\
    local <> "" /\ all_chars UserForm.local_char local = true /\
    domain <> "" /\ all_chars UserForm.domain_char domain = true /\
    2 <= String.length tld /\ all_chars is_alpha tld = true.

End Shapes.

(** ** Sample rows and submissions *)

Module Samples.

Import Supabase Store.
Open Scope string_scope.

Definition ben : User :=
  mkUser (Some "u1") "ben@shelter.org" "Ben" None None
         (Some [QR_CODE_GENERATOR]) (Some "2024-03-02T09:30:00.000Z").

(** A user known from another application. *)
Definition ana : User :=
  mkUser (Some "u2") "ana@helping.org" "Ana" (Some "Helping Hands") None
         (Some ["donor-portal-v1"]) (Some "2024-05-01T10:00:00.000Z").

(** The same user once the generator is listed. *)
Definition ana_listed : User :=
  mkUser (Some "u2") "ana@helping.org" "Ana" (Some "Helping Hands") None
         (Some ["donor-portal-v1"; QR_CODE_GENERATOR])
         (Some "2024-05-01T10:00:00.000Z").

Definition db_unlisted : Db :=
  mkDb [ben; ana] [] "2025-01-15T12:00:00.000Z" [].

Definition db_listed : Db :=
  mkDb [ben; ana_listed] [] "2025-01-15T12:00:00.000Z" [].

(** Ana submits the form again: a new name, the organization left blank,
    an EIN. *)
Definition resubmission : UserData :=
  mkUserData "ana@helping.org" "Ana Maria" (Some "") (Some "12-3456789").

Definition newcomer : UserData :=
  mkUserData "cy@foodbank.org" "Cy" (Some "Food Bank") None.

(** The store while the database times out on the next call. *)
Definition db_timeout : Db :=
  mkDb [ben; ana] [] "2025-01-15T12:00:00.000Z"
       [Some (InBand (StoreError "timeout"))].

(** The view once Ana is bound, with a URL entered. *)
Definition view_bound : Generator.View :=
  Generator.setUser (Some ana_listed)
    (Generator.mkView
       (QRCodeGenerator.setUrl "https://helping.org/donate"
                               QRCodeGenerator.initial)
       "#000000" "#ffffff" 256 None None false).

(** A store and libraries that answer, and a store that refuses. *)
Definition insert_ok (row : QrCodes.QRData) : Settled QrCodes.QRCode :=
  Fulfilled (mkReply (Some (QrCodes.mkQRCode (Some "q1") row None)) None).

Definition insert_refused (row : QrCodes.QRData) : Settled QrCodes.QRCode :=
  Fulfilled (mkReply None (Some (StoreError "row-level security"))).

Definition raster_ok (o : Generator.RasterOptions) : option string :=
  Some "data:image/png;base64,AAAA".

Definition props_ok (dataUrl : string) : option (float * float) :=
  Some (1200%float, 1600%float).

End Samples.

(** * Properties *)

(** ** The matcher decides the language *)

Section RegexFacts.

Import Regex.

Lemma matches_cat_inv r1 r2 s :
  matches (Cat r1 r2) s ->
  exists s1 s2, s = s1 ++ s2 /\ matches r1 s1 /\ matches r2 s2.
Proof.
  intros H. inversion H; subst. eauto.
Qed.

Lemma matches_alt_inv r1 r2 s :
  matches (Alt r1 r2) s -> matches r1 s \/ matches r2 s.
Proof.
  intros H. inversion H; subst; auto.
Qed.

Lemma matches_class_inv p s :
  matches (Class p) s -> exists c, s = [c] /\ p c = true.
Proof.
  intros H. inversion H; subst. eauto.
Qed.

Lemma matches_eps_inv s : matches Eps s -> s = [].
Proof.
  intros H. inversion H; reflexivity.
Qed.

Lemma matches_void_inv s : ~ matches Void s.
Proof.
  intros H. inversion H.
Qed.

(** A non-empty word of [r*] starts with a non-empty word of [r]. *)
Lemma matches_star_cons r c s :
  matches (Star r) (c :: s) ->
  exists s1 s2, s = s1 ++ s2 /\ matches r (c :: s1) /\ matches (Star r) s2.
Proof.
  intros H.
  remember (Star r) as r' eqn:Er. remember (c :: s) as w eqn:Ew.
  induction H as [ | | | | | | r0 s1 s2 H1 _ H2 IH2 ]; try discriminate.
  injection Er as ->.
  destruct s1 as [|c1 s1]; simpl in Ew.
  - apply IH2; auto.
  - injection Ew as -> <-. exists s1, s2. auto.
Qed.

Lemma nullable_spec r : nullable r = true <-> matches r [].
Proof.
  induction r as [ | | p | r1 IH1 r2 IH2 | r1 IH1 r2 IH2 | r IH ]; simpl.
  - split; [discriminate | intros H; inversion H].
  - split; [intros _; constructor | reflexivity].
  - split; [discriminate | intros H; inversion H].
  - rewrite andb_true_iff, IH1, IH2. split.
    + intros [H1 H2]. apply (MCat H1 H2).
    + intros H. apply matches_cat_inv in H as (s1 & s2 & E & H1 & H2).
      symmetry in E. apply app_eq_nil in E as [-> ->]. auto.
  - rewrite orb_true_iff, IH1, IH2. split.
    + intros [H | H]; [apply MAltL | apply MAltR]; exact H.
    + apply matches_alt_inv.
  - split; [intros _; constructor | reflexivity].
Qed.

Lemma deriv_spec c r : forall s, matches (deriv c r) s <-> matches r (c :: s).
Proof.
  induction r as [ | | p | r1 IH1 r2 IH2 | r1 IH1 r2 IH2 | r IH ];
    intros s; simpl.
  - split; intros H; inversion H.
  - split; intros H; inversion H.
  - destruct (p c) eqn:Ep; split; intros H.
    + apply matches_eps_inv in H as ->. constructor; exact Ep.
    + inversion H; subst. constructor.
    + inversion H.
    + inversion H; subst. congruence.
  - assert (Hcat : matches (Cat (deriv c r1) r2) s ->
                   matches (Cat r1 r2) (c :: s)).
    { intros H. apply matches_cat_inv in H as (s1 & s2 & -> & H1 & H2).
      apply IH1 in H1. apply (MCat H1 H2). }
    assert (Hinv : matches (Cat r1 r2) (c :: s) ->
                   matches (Cat (deriv c r1) r2) s \/
                   (matches r1 [] /\ matches (deriv c r2) s)).
    { intros H. apply matches_cat_inv in H as (s1 & s2 & E & H1 & H2).
      destruct s1 as [|c1 s1]; simpl in E.
      - subst s2. right. split; [exact H1 | apply IH2; exact H2].
      - injection E as <- ->. left. apply MCat; [apply IH1; exact H1 | exact H2]. }
    destruct (nullable r1) eqn:En.
    + split.
      * intros H. apply matches_alt_inv in H as [H | H]; [auto |].
        apply nullable_spec in En. apply IH2 in H.
        apply (MCat (s1 := []) En H).
      * intros H. apply Hinv in H as [H | [_ H]];
          [apply MAltL | apply MAltR]; exact H.
    + split; [exact Hcat |].
      intros H. apply Hinv in H as [H | [H _]]; [exact H |].
      apply nullable_spec in H. congruence.
  - split; intros H.
    + apply matches_alt_inv in H as [H | H];
        [apply MAltL, IH1 | apply MAltR, IH2]; exact H.
    + apply matches_alt_inv in H as [H | H];
        [apply MAltL, IH1 | apply MAltR, IH2]; exact H.
  - split; intros H.
    + apply matches_cat_inv in H as (s1 & s2 & -> & H1 & H2).
      apply IH in H1. apply (MStarS H1 H2).
    + apply matches_star_cons in H as (s1 & s2 & -> & H1 & H2).
      apply MCat; [apply IH; exact H1 | exact H2].
Qed.

Lemma matchb_spec : forall s r, matchb r s = true <-> matches r s.
Proof.
  induction s as [|c s IH]; intros r; simpl.
  - apply nullable_spec.
  - rewrite IH. apply deriv_spec.
Qed.

Lemma test_spec r s : test r s = true <-> matches r (list_ascii_of_string s).
Proof.
  apply matchb_spec.
Qed.

(** Words of [p{n}]: exactly [n] characters of the class. *)
Lemma matches_repeat_class p n s :
  matches (Repeat n (Class p)) s <-> length s = n /\ forallb p s = true.
Proof.
  revert s. induction n as [|n IH]; intros s; simpl.
  - split.
    + intros H. apply matches_eps_inv in H as ->. auto.
    + intros [H _]. apply length_zero_iff_nil in H as ->. constructor.
  - split.
    + intros H. apply matches_cat_inv in H as (s1 & s2 & -> & H1 & H2).
      apply matches_class_inv in H1 as (c & -> & Hc).
      apply IH in H2 as [Hl Hp]. simpl. rewrite Hc, Hp, Hl. auto.
    + intros [Hl Hp]. destruct s as [|c s]; [discriminate |].
      simpl in *. apply andb_true_iff in Hp as [Hc Hp].
      apply (MCat (s1 := [c])); [constructor; exact Hc |].
      apply IH. split; [lia | exact Hp].
Qed.

(** Words of [p*]: any number of characters of the class. *)
Lemma matches_star_class p s :
  matches (Star (Class p)) s <-> forallb p s = true.
Proof.
  split.
  - intros H. remember (Star (Class p)) as r eqn:Er.
    induction H as [ | | | | | | r0 s1 s2 H1 _ _ IH2 ]; try discriminate.
    + reflexivity.
    + injection Er as ->. apply matches_class_inv in H1 as (c & -> & Hc).
      simpl. rewrite Hc. apply IH2. reflexivity.
  - induction s as [|c s IH]; simpl; intros H.
    + constructor.
    + apply andb_true_iff in H as [Hc Hs].
      apply (MStarS (s1 := [c])); [constructor; exact Hc | apply IH; exact Hs].
Qed.

(** Words of [p+]. *)
Lemma matches_plus_class p s :
  matches (Plus (Class p)) s <-> s <> [] /\ forallb p s = true.
Proof.
  unfold Plus. split.
  - intros H. apply matches_cat_inv in H as (s1 & s2 & -> & H1 & H2).
    apply matches_class_inv in H1 as (c & -> & Hc).
    apply matches_star_class in H2. simpl. rewrite Hc, H2.
    split; [discriminate | reflexivity].
  - intros [Hn Hp]. destruct s as [|c s]; [congruence |].
    simpl in Hp. apply andb_true_iff in Hp as [Hc Hs].
    apply (MCat (s1 := [c])); [constructor; exact Hc |].
    apply matches_star_class. exact Hs.
Qed.

(** Words of [p{n,}]. *)
Lemma matches_atleast_class p n s :
  matches (AtLeast n (Class p)) s <-> n <= length s /\ forallb p s = true.
Proof.
  unfold AtLeast. split.
  - intros H. apply matches_cat_inv in H as (s1 & s2 & -> & H1 & H2).
    apply matches_repeat_class in H1 as [Hl Hp].
    apply matches_star_class in H2.
    rewrite length_app, forallb_app, Hp, H2. split; [lia | reflexivity].
  - intros [Hl Hp].
    rewrite <- (firstn_skipn n s) in Hp |- *.
    rewrite forallb_app in Hp. apply andb_true_iff in Hp as [Hp1 Hp2].
    apply MCat.
    + apply matches_repeat_class. split; [| exact Hp1].
      apply firstn_length_le. exact Hl.
    + apply matches_star_class. exact Hp2.
Qed.

Lemma matches_chr_inv c s : matches (Chr c) s <-> s = [c].
Proof.
  unfold Chr. split.
  - intros H. apply matches_class_inv in H as (d & -> & Hd).
    apply Ascii.eqb_eq in Hd. congruence.
  - intros ->. constructor. apply Ascii.eqb_refl.
Qed.

End RegexFacts.

(** ** Strings *)

Section StringFacts.

Import JsString.
Open Scope string_scope.

Lemma chars_app (a b : string) :
  list_ascii_of_string (a ++ b) =
  (list_ascii_of_string a ++ list_ascii_of_string b)%list.
Proof.
  induction a as [|c a IH]; simpl; [reflexivity | rewrite IH; reflexivity].
Qed.

Lemma of_chars_app (a b : list ascii) :
  string_of_list_ascii (a ++ b) =
  string_of_list_ascii a ++ string_of_list_ascii b.
Proof.
  induction a as [|c a IH]; simpl; [reflexivity | rewrite IH; reflexivity].
Qed.

Lemma chars_length (s : string) :
  length (list_ascii_of_string s) = String.length s.
Proof.
  induction s as [|c s IH]; simpl; [reflexivity | rewrite IH; reflexivity].
Qed.

Lemma all_chars_forallb p (s : string) :
  all_chars p s = forallb p (list_ascii_of_string s).
Proof.
  induction s as [|c s IH]; simpl; [reflexivity | rewrite IH; reflexivity].
Qed.

Lemma all_chars_app p (a b : string) :
  all_chars p (a ++ b) = all_chars p a && all_chars p b.
Proof.
  induction a as [|c a IH]; simpl; [reflexivity |].
  rewrite IH. apply andb_assoc.
Qed.

Lemma length_app_string (a b : string) :
  String.length (a ++ b) = String.length a + String.length b.
Proof.
  induction a as [|c a IH]; simpl; [reflexivity | rewrite IH; reflexivity].
Qed.

Lemma replace_non_digits_digits s :
  all_chars is_digit (replace_non_digits s) = true.
Proof.
  induction s as [|c s IH]; simpl; [reflexivity |].
  destruct (is_digit c) eqn:Ec; simpl; [rewrite Ec |]; exact IH.
Qed.

Lemma replace_non_digits_fixed s :
  all_chars is_digit s = true -> replace_non_digits s = s.
Proof.
  induction s as [|c s IH]; simpl; [reflexivity |].
  intros H. apply andb_true_iff in H as [Hc Hs].
  rewrite Hc, (IH Hs). reflexivity.
Qed.

Lemma prefix_length_0 n : forall s,
  String.length s <= n -> substring 0 n s = s.
Proof.
  induction n as [|n IH]; intros [|c s]; simpl; intros H;
    try reflexivity; try lia.
  rewrite IH; [reflexivity | lia].
Qed.

Lemma substring_0_length n : forall s,
  String.length (substring 0 n s) = Nat.min n (String.length s).
Proof.
  induction n as [|n IH]; intros [|c s]; simpl; try reflexivity.
  rewrite IH. reflexivity.
Qed.

Lemma substring_0_idem n s :
  substring 0 n (substring 0 n s) = substring 0 n s.
Proof.
  apply prefix_length_0. rewrite substring_0_length. lia.
Qed.

Lemma all_chars_substring_0 p n : forall s,
  all_chars p s = true -> all_chars p (substring 0 n s) = true.
Proof.
  induction n as [|n IH]; intros [|c s]; simpl; intros H; try reflexivity.
  apply andb_true_iff in H as [Hc Hs]. rewrite Hc. apply IH, Hs.
Qed.

Lemma prefix_app (a b : string) : prefix a (a ++ b) = true.
Proof.
  induction a as [|c a IH]; simpl.
  - destruct b; reflexivity.
  - destruct (ascii_dec c c) as [_ | N]; [exact IH | congruence].
Qed.

Lemma truthy_false s : truthy s = false <-> s = "".
Proof.
  destruct s; simpl; split; intros H; congruence.
Qed.

End StringFacts.

(** ** The EIN field *)

Section EinFacts.

Import JsString Regex UserForm.
Open Scope string_scope.

(** The two shapes [formatEIN] produces, by the number of digits typed. *)
Lemma formatEIN_cases value :
  let digits := replace_non_digits value in
  (String.length digits <= 2 /\ formatEIN value = digits) \/
  (exists a b c rest,
      digits = String a (String b (String c rest)) /\
      formatEIN value =
      String a (String b (String "-" (String c (substring 0 6 rest))))).
Proof.
  unfold formatEIN. simpl.
  destruct (replace_non_digits value) as [|a [|b [|c rest]]]; simpl.
  - left. split; [lia | reflexivity].
  - left. split; [lia | reflexivity].
  - left. split; [lia | reflexivity].
  - right. exists a, b, c, rest. split; reflexivity.
Qed.

Lemma hyphen_not_digit : is_digit "-" = false.
Proof. reflexivity. Qed.

(** The digits kept by [formatEIN] are the first nine digits typed. *)
Lemma formatEIN_digits value :
  replace_non_digits (formatEIN value) = slice 0 9 (replace_non_digits value).
Proof.
  pose proof (replace_non_digits_digits value) as Hd.
  destruct (formatEIN_cases value) as [[Hl ->] | (a & b & c & rest & E & ->)].
  - rewrite (replace_non_digits_fixed _ Hd). unfold slice. simpl.
    symmetry. apply prefix_length_0. lia.
  - rewrite E in Hd |- *. simpl in Hd.
    apply andb_true_iff in Hd as [Ha Hd].
    apply andb_true_iff in Hd as [Hb Hd].
    apply andb_true_iff in Hd as [Hc Hd].
    unfold slice. simpl. rewrite Ha, Hb, Hc.
    rewrite replace_non_digits_fixed;
      [reflexivity | apply all_chars_substring_0, Hd].
Qed.

Lemma formatEIN_fixed value : formatEIN (formatEIN value) = formatEIN value.
Proof.
  pose proof (replace_non_digits_digits value) as Hd.
  destruct (formatEIN_cases value) as [[Hl E] | (a & b & c & rest & E & E')].
  - rewrite E. unfold formatEIN.
    rewrite (replace_non_digits_fixed _ Hd).
    apply Nat.leb_le in Hl. rewrite Hl. reflexivity.
  - rewrite E in Hd. simpl in Hd.
    apply andb_true_iff in Hd as [Ha Hd].
    apply andb_true_iff in Hd as [Hb Hd].
    apply andb_true_iff in Hd as [Hc Hd].
    rewrite E'. unfold formatEIN. simpl. rewrite Ha, Hb, Hc.
    rewrite replace_non_digits_fixed by (apply all_chars_substring_0, Hd).
    unfold slice. simpl. rewrite substring_0_idem. reflexivity.
Qed.

Lemma formatEIN_length value : String.length (formatEIN value) <= 10.
Proof.
  destruct (formatEIN_cases value) as [[Hl ->] | (a & b & c & rest & _ & ->)].
  - lia.
  - simpl. rewrite substring_0_length. lia.
Qed.

(** The strings accepted by [einRegex]. *)
Lemma einRegex_spec s :
  test einRegex s = true <->
  exists a b rest,
    s = String a (String b (String "-" rest)) /\
    is_digit a = true /\ is_digit b = true /\
    String.length rest = 7 /\ all_chars is_digit rest = true.
Proof.
  rewrite test_spec. unfold einRegex. split.
  - intros H.
    apply matches_cat_inv in H as (s1 & s2 & E & H1 & H).
    apply matches_cat_inv in H as (s3 & s4 & -> & H3 & H4).
    apply matches_repeat_class in H1 as [Hl1 Hp1].
    apply matches_chr_inv in H3 as ->.
    apply matches_repeat_class in H4 as [Hl4 Hp4].
    destruct s1 as [|a [|b [|? ?]]]; try discriminate.
    simpl in Hp1. apply andb_true_iff in Hp1 as [Ha Hb].
    apply andb_true_iff in Hb as [Hb _].
    exists a, b, (string_of_list_ascii s4).
    rewrite <- (string_of_list_ascii_of_string s), E. simpl.
    rewrite all_chars_forallb, <- chars_length.
    rewrite list_ascii_of_string_of_list_ascii. auto.
  - intros (a & b & rest & -> & Ha & Hb & Hl & Hp).
    cbn [list_ascii_of_string].
    apply (MCat (s1 := [a; b]) (s2 := "-"%char :: list_ascii_of_string rest)).
    + apply (matches_repeat_class is_digit 2). simpl. rewrite Ha, Hb. auto.
    + apply (MCat (s1 := ["-"%char])); [apply matches_chr_inv; reflexivity |].
      apply (matches_repeat_class is_digit 7).
      rewrite chars_length, <- all_chars_forallb. auto.
Qed.

Lemma einRegex_length s : test einRegex s = true -> String.length s = 10.
Proof.
  intros H. apply einRegex_spec in H as (a & b & rest & -> & _ & _ & Hl & _).
  simpl. rewrite Hl. reflexivity.
Qed.

End EinFacts.

Section EinClaims.

Import JsString Regex UserForm.
Open Scope string_scope.

Lemma replicate_length c n : String.length (replicate c n) = n.
Proof.
  induction n as [|n IH]; simpl; [reflexivity | rewrite IH; reflexivity].
Qed.

Lemma replicate_all p c n : p c = true -> all_chars p (replicate c n) = true.
Proof.
  intros Hc. induction n as [|n IH]; simpl; [reflexivity |].
  rewrite Hc. exact IH.
Qed.

Lemma append_nonempty_neq (s t : string) : t <> "" -> s <> s ++ t.
Proof.
  intros Ht E. apply (f_equal String.length) in E.
  rewrite length_app_string in E. destruct t; [congruence | simpl in E; lia].
Qed.

(** Every partial entry can be completed to a well-formed EIN. *)
Lemma formatEIN_completion value :
  let typed := String.length (replace_non_digits value) in
  0 < typed < 9 ->
  exists missing,
    missing <> "" /\ test einRegex (formatEIN value ++ missing) = true.
Proof.
  intros typed Ht. subst typed.
  pose proof (replace_non_digits_digits value) as Hd.
  destruct (formatEIN_cases value) as [[Hl E] | (a & b & c & rest & E & E')].
  - rewrite E. destruct (replace_non_digits value) as [|a [|b [|? ?]]];
      simpl in Ht, Hl, Hd; try lia.
    + apply andb_true_iff in Hd as [Ha _].
      exists "0-0000000". split; [discriminate |].
      apply einRegex_spec. exists a, "0"%char, "0000000". auto.
    + apply andb_true_iff in Hd as [Ha Hd]. apply andb_true_iff in Hd as [Hb _].
      exists "-0000000". split; [discriminate |].
      apply einRegex_spec. exists a, b, "0000000". auto.
  - rewrite E in Hd, Ht. simpl in Hd, Ht.
    apply andb_true_iff in Hd as [Ha Hd].
    apply andb_true_iff in Hd as [Hb Hd].
    apply andb_true_iff in Hd as [Hc Hd].
    rewrite E'. rewrite prefix_length_0 by lia.
    assert (Hk : String.length rest + (6 - String.length rest) = 6) by lia.
    remember (6 - String.length rest) as k eqn:Ek.
    exists (replicate "0" k). split.
    + destruct k; [lia | discriminate].
    + apply einRegex_spec.
      exists a, b, (String c (rest ++ replicate "0" k)).
      simpl. rewrite length_app_string, replicate_length, all_chars_app.
      rewrite Hc, Hd, replicate_all by reflexivity.
      repeat split; auto.
Qed.

Lemma formatEIN_empty_iff value :
  formatEIN value = "" <-> String.length (replace_non_digits value) = 0.
Proof.
  destruct (formatEIN_cases value) as [[Hl ->] | (a & b & c & rest & -> & ->)].
  - destruct (replace_non_digits value); simpl; split; intros H; congruence.
  - simpl. split; intros H; discriminate.
Qed.

Lemma formatEIN_full_iff value :
  test einRegex (formatEIN value) = true <->
  9 <= String.length (replace_non_digits value).
Proof.
  pose proof (replace_non_digits_digits value) as Hd.
  split.
  - intros H. apply einRegex_length in H.
    destruct (formatEIN_cases value) as [[Hl E] | (a & b & c & rest & E & E')].
    + rewrite E in H. lia.
    + rewrite E' in H. rewrite E. simpl in H |- *.
      rewrite substring_0_length in H. lia.
  - intros H.
    destruct (formatEIN_cases value) as [[Hl E] | (a & b & c & rest & E & E')].
    + lia.
    + rewrite E in Hd, H. simpl in Hd, H.
      apply andb_true_iff in Hd as [Ha Hd].
      apply andb_true_iff in Hd as [Hb Hd].
      apply andb_true_iff in Hd as [Hc Hd].
      rewrite E'. apply einRegex_spec.
      exists a, b, (String c (substring 0 6 rest)). simpl.
      rewrite substring_0_length, Hc, all_chars_substring_0 by exact Hd.
      repeat split; auto. f_equal. lia.
Qed.

Lemma handleChange_ein value st :
  handleChange "ein" value st =
  snd (validateEIN (formatEIN value)
         (setFormData (set_field "ein" (formatEIN value)) st)).
Proof. reflexivity. Qed.

Lemma validateEIN_formData e st : formData (snd (validateEIN e st)) = formData st.
Proof.
  unfold validateEIN.
  destruct (negb (truthy e)); [reflexivity |].
  destruct (negb (test einRegex e)); reflexivity.
Qed.

Lemma validateEIN_einError e st :
  einError (snd (validateEIN e st)) =
  if truthy e && negb (test einRegex e)
  then "EIN must be in format: XX-XXXXXXX" else "".
Proof.
  unfold validateEIN.
  destruct (truthy e); simpl; [| reflexivity].
  destruct (test einRegex e); reflexivity.
Qed.

(** C10: [formatEIN] is idempotent; its result holds the first nine digits
    of the input and nothing beyond them, so it has at most nine digits and
    at most ten characters. *)
Theorem formatEIN_idempotent_bounded : forall value,
  formatEIN (formatEIN value) = formatEIN value /\
  replace_non_digits (formatEIN value) = slice 0 9 (replace_non_digits value) /\
  String.length (replace_non_digits (formatEIN value)) <= 9 /\
  String.length (formatEIN value) <= 10.
Proof.
  intros value. split; [apply formatEIN_fixed |].
  split; [apply formatEIN_digits |].
  split; [| apply formatEIN_length].
  rewrite formatEIN_digits. unfold slice. simpl.
  rewrite substring_0_length. lia.
Qed.

(** C2 fails as stated: after typing the single digit [1] into the EIN
    field, form state holds ["1"], which is neither empty nor of the shape
    NN-NNNNNNN. *)
Lemma handleChange_ein_partial_stored :
  let stored := ein (formData (handleChange "ein" "1" initial)) in
  stored = "1" /\ stored <> "" /\ test einRegex stored = false.
Proof.
  repeat split. discriminate.
Qed.

(** The exact shape of [formatEIN value] by the number of digits typed: up
    to two digits it is those digits; from three digits on it is the first
    two digits, a hyphen, and the digits that follow up to the ninth. *)
Lemma formatEIN_shape value :
  let digits := replace_non_digits value in
  let typed := String.length digits in
  (typed <= 2 ->
   formatEIN value = digits /\
   all_chars is_digit (formatEIN value) = true /\
   String.length (formatEIN value) = typed) /\
  (2 < typed ->
   exists a b rest,
     formatEIN value = String a (String b (String "-" rest)) /\
     is_digit a = true /\ is_digit b = true /\
     all_chars is_digit rest = true /\
     String.length rest = Nat.min (typed - 2) 7 /\
     String a (String b rest) = slice 0 9 digits).
Proof.
  intros digits typed. subst typed digits.
  pose proof (replace_non_digits_digits value) as Hd.
  destruct (formatEIN_cases value) as [[Hl E] | (a & b & c & rest & E & E')].
  - split; [| intros H; lia]. intros _. rewrite E. auto.
  - rewrite E in Hd |- *. simpl in Hd.
    apply andb_true_iff in Hd as [Ha Hd].
    apply andb_true_iff in Hd as [Hb Hd].
    apply andb_true_iff in Hd as [Hc Hd].
    split; [simpl; intros H; lia |]. intros _.
    exists a, b, (String c (substring 0 6 rest)).
    split; [exact E' |]. split; [exact Ha |]. split; [exact Hb |].
    split; [simpl; rewrite Hc; apply all_chars_substring_0, Hd |].
    split; [| reflexivity].
    simpl. rewrite substring_0_length. lia.
Qed.

(** C2, amended: the change handler stores [formatEIN value]. With no digit
    typed it is empty; with one or two digits typed it is exactly those
    digits; with three to eight digits typed it is two digits, a hyphen and
    one to six digits; with nine or more digits typed it matches
    NN-NNNNNNN. In the two partial cases the stored string is a proper
    prefix of a string matching NN-NNNNNNN and the handler sets the EIN
    format error; otherwise the error is cleared. *)
Theorem handleChange_ein_stored : forall value st,
  let st' := handleChange "ein" value st in
  let stored := ein (formData st') in
  let digits := replace_non_digits value in
  let typed := String.length digits in
  stored = formatEIN value /\
  (stored = "" <-> typed = 0) /\
  (test einRegex stored = true <-> 9 <= typed) /\
  (typed <= 2 ->
   stored = digits /\ all_chars is_digit stored = true /\
   String.length stored = typed) /\
  (2 < typed ->
   exists a b rest,
     stored = String a (String b (String "-" rest)) /\
     is_digit a = true /\ is_digit b = true /\
     all_chars is_digit rest = true /\
     String.length rest = Nat.min (typed - 2) 7 /\
     String a (String b rest) = slice 0 9 digits) /\
  (0 < typed < 9 ->
   test einRegex stored = false /\
   einError st' = "EIN must be in format: XX-XXXXXXX" /\
   exists full,
     test einRegex full = true /\ prefix stored full = true /\
     stored <> full) /\
  (typed = 0 \/ 9 <= typed -> einError st' = "") /\
  (stored = "" \/
   test einRegex stored = true \/
   (einError st' = "EIN must be in format: XX-XXXXXXX" /\
    exists full,
      test einRegex full = true /\ prefix stored full = true /\
      stored <> full)).
Proof.
  intros value st st' stored digits typed.
  assert (Es : stored = formatEIN value).
  { subst stored st'. rewrite handleChange_ein, validateEIN_formData.
    reflexivity. }
  assert (Ee : einError st' =
               if truthy (formatEIN value) && negb (test einRegex (formatEIN value))
               then "EIN must be in format: XX-XXXXXXX" else "").
  { subst st'. rewrite handleChange_ein. apply validateEIN_einError. }
  assert (Hpartial : 0 < typed < 9 ->
            test einRegex (formatEIN value) = false /\
            einError st' = "EIN must be in format: XX-XXXXXXX" /\
            exists full,
              test einRegex full = true /\
              prefix (formatEIN value) full = true /\
              formatEIN value <> full).
  { intros Ht.
    assert (Hnot : test einRegex (formatEIN value) = false).
    { destruct (test einRegex (formatEIN value)) eqn:Et; [| reflexivity].
      apply formatEIN_full_iff in Et. fold digits typed in Et. lia. }
    assert (Hne : truthy (formatEIN value) = true).
    { destruct (truthy (formatEIN value)) eqn:Et; [reflexivity |].
      apply truthy_false, formatEIN_empty_iff in Et.
      fold digits typed in Et. lia. }
    split; [exact Hnot |]. split.
    - rewrite Ee, Hne, Hnot. reflexivity.
    - destruct (formatEIN_completion value) as (missing & Hm & Hfull);
        [exact Ht |].
      exists (formatEIN value ++ missing).
      split; [exact Hfull |]. split; [apply prefix_app |].
      apply append_nonempty_neq, Hm. }
  destruct (formatEIN_shape value) as [Hshort Hlong].
  fold digits typed in Hshort, Hlong.
  split; [exact Es |]. rewrite Es.
  split; [apply formatEIN_empty_iff |].
  split; [apply formatEIN_full_iff |].
  split; [exact Hshort |].
  split; [exact Hlong |].
  split; [exact Hpartial |].
  split.
  - intros [E0 | H9]; rewrite Ee.
    + apply formatEIN_empty_iff in E0. rewrite E0. reflexivity.
    + apply formatEIN_full_iff in H9. rewrite H9.
      rewrite andb_false_r. reflexivity.
  - destruct (Nat.eq_dec typed 0) as [E0 | N0].
    { left. apply formatEIN_empty_iff. exact E0. }
    destruct (le_lt_dec 9 typed) as [H9 | H9].
    { right; left. apply formatEIN_full_iff. exact H9. }
    right; right.
    destruct Hpartial as (_ & He & Hfull); [lia |].
    split; assumption.
Qed.

End EinClaims.

(** ** The email field and submission *)

Section EmailClaims.

Import JsString Regex UserForm Shapes.
Open Scope string_scope.

Lemma of_chars_nonempty (l : list ascii) :
  l <> [] -> string_of_list_ascii l <> "".
Proof.
  destruct l; [congruence | discriminate].
Qed.

Lemma chars_nonempty (s : string) : s <> "" -> list_ascii_of_string s <> [].
Proof.
  destruct s; [congruence | discriminate].
Qed.

Lemma all_chars_of_chars p (l : list ascii) :
  all_chars p (string_of_list_ascii l) = forallb p l.
Proof.
  rewrite all_chars_forallb, list_ascii_of_string_of_list_ascii. reflexivity.
Qed.

Lemma length_of_chars (l : list ascii) :
  String.length (string_of_list_ascii l) = length l.
Proof.
  rewrite <- chars_length, list_ascii_of_string_of_list_ascii. reflexivity.
Qed.

(** [emailRegex] accepts exactly the addresses of the shape
    [local@domain.tld]. *)
Lemma emailRegex_spec s : test emailRegex s = true <-> email_shape s.
Proof.
  rewrite test_spec. unfold emailRegex, email_shape. split.
  - intros H.
    apply matches_cat_inv in H as (l & s1 & E & Hl & H).
    apply matches_cat_inv in H as (at_ & s2 & -> & Hat & H).
    apply matches_cat_inv in H as (d & s3 & -> & Hd & H).
    apply matches_cat_inv in H as (dot & t & -> & Hdot & Ht).
    apply matches_plus_class in Hl as [Hl1 Hl2].
    apply matches_chr_inv in Hat as ->.
    apply matches_plus_class in Hd as [Hd1 Hd2].
    apply matches_chr_inv in Hdot as ->.
    apply matches_atleast_class in Ht as [Ht1 Ht2].
    exists (string_of_list_ascii l), (string_of_list_ascii d),
      (string_of_list_ascii t).
    rewrite !all_chars_of_chars, length_of_chars.
    repeat split; auto using of_chars_nonempty.
    rewrite <- (string_of_list_ascii_of_string s), E.
    rewrite of_chars_app. simpl. rewrite of_chars_app. reflexivity.
  - intros (l & d & t & -> & Hl1 & Hl2 & Hd1 & Hd2 & Ht1 & Ht2).
    rewrite chars_app. cbn [append list_ascii_of_string].
    rewrite chars_app. cbn [append list_ascii_of_string].
    rewrite all_chars_forallb in Hl2, Hd2, Ht2. rewrite <- chars_length in Ht1.
    apply MCat; [apply matches_plus_class; auto using chars_nonempty |].
    apply (MCat (s1 := ["@"%char])); [apply matches_chr_inv; reflexivity |].
    apply MCat; [apply matches_plus_class; auto using chars_nonempty |].
    apply (MCat (s1 := ["."%char])); [apply matches_chr_inv; reflexivity |].
    apply matches_atleast_class. auto.
Qed.

Lemma validateEmail_rejects e st :
  test emailRegex e = false ->
  fst (validateEmail e st) = false /\
  truthy (emailError (snd (validateEmail e st))) = true.
Proof.
  intros H. unfold validateEmail. rewrite H.
  destruct (truthy e); simpl; auto.
Qed.

(** C6: when the email in the form does not have the shape
    [local@domain.tld], [handleSubmit] returns without calling [onSubmit]
    (the only way the form reaches the network), and leaves the email error
    set, which keeps the submit button disabled. *)
Theorem handleSubmit_blocks_invalid_email : forall st,
  ~ email_shape (email (formData st)) ->
  snd (handleSubmit st) = None /\
  truthy (emailError (fst (handleSubmit st))) = true /\
  submit_disabled false (fst (handleSubmit st)) = true.
Proof.
  intros st Hshape.
  assert (Ht : test emailRegex (email (formData st)) = false).
  { destruct (test emailRegex (email (formData st))) eqn:Et; [| reflexivity].
    apply emailRegex_spec in Et. contradiction. }
  destruct (validateEmail_rejects (email (formData st)) st Ht) as [Hf He].
  unfold handleSubmit, submit_disabled.
  destruct (validateEmail (email (formData st)) st) as [okEmail st1].
  simpl in Hf, He. subst okEmail. simpl. rewrite He. auto.
Qed.

Lemma handleSubmit_blocks_invalid_email_witness :
  let st := handleChange "email" "director.example.org" initial in
  ~ email_shape (email (formData st)) /\
  snd (handleSubmit st) = None /\
  truthy (emailError (fst (handleSubmit st))) = true /\
  submit_disabled false (fst (handleSubmit st)) = true.
Proof.
  assert (H : ~ email_shape
                (email (formData (handleChange "email" "director.example.org"
                                    initial)))).
  { intros H. apply emailRegex_spec in H. vm_compute in H. discriminate. }
  split; [exact H |].
  apply (handleSubmit_blocks_invalid_email
           (handleChange "email" "director.example.org" initial) H).
Defined.

(** A well-formed submission does reach [onSubmit]. *)
Example handleSubmit_forwards_valid :
  let st := handleChange "ein" "12-3456789"
              (handleChange "email" "ana@helping.org"
                 (handleChange "name" "Ana" initial)) in
  snd (handleSubmit st) =
  Some (mkSubmitData "Ana" "ana@helping.org" "" (Some "12-3456789")).
Proof. vm_compute. reflexivity. Qed.

End EmailClaims.

(** ** Visit tracking *)

Section VisitClaims.

Import JsString Supabase Store.
Open Scope string_scope.

Lemma never_throws_run {W : Type} {B : Backend W} {A : Type} (p : Prog A) :
  never_throws p -> forall w, exists a, outcome (run p w) = Returned a.
Proof.
  induction p as [a | e | l m k IH | k IH | q k IH | q k IH];
    simpl; intros H w.
  - exists a. reflexivity.
  - contradiction.
  - apply (IH H w).
  - destruct (clock w) as [t w1]. apply (IH t (H t) w1).
  - destruct (users_call q w) as [o w1]. apply (IH o (H o) w1).
  - destruct (visits_call q w) as [o w1]. apply (IH o (H o) w1).
Qed.

(** A handler that cannot throw makes the whole [try] unable to throw. *)
Lemma try_catch_never_throws {A : Type} (p : Prog A) h :
  (forall e, never_throws (h e)) -> never_throws (try_catch p h).
Proof.
  intros Hh.
  induction p as [a | e | l m k IH | k IH | q k IH | q k IH]; simpl; auto.
Qed.

Lemma updateVisit_total userId appId : never_throws (updateVisit userId appId).
Proof.
  unfold updateVisit.
  destruct (negb (truthy userId) || negb (truthy appId)); simpl; [exact I |].
  intros t o. destruct o as [r | e]; simpl; [| exact I].
  unfold throw_if. destruct (error r); simpl; exact I.
Qed.

(** C5: [updateVisit] never throws, for every store and every answer of
    the store.  With a missing parameter it returns [null] without calling
    the store; when the upsert is rejected or answered with an error it
    returns [null]. *)
Theorem updateVisit_never_raises :
  forall (W : Type) (B : Backend W) (userId appId : string) (w : W),
    never_throws (updateVisit userId appId) /\
    (exists v, outcome (run (updateVisit userId appId) w) = Returned v) /\
    (truthy userId = false \/ truthy appId = false ->
     outcome (run (updateVisit userId appId) w) = Returned None /\
     existsb is_upsert (events (run (updateVisit userId appId) w)) = false) /\
    (forall t w1,
        clock w = (t, w1) ->
        call_failed (fst (visits_call (Upsert userId appId 1 t) w1)) ->
        outcome (run (updateVisit userId appId) w) = Returned None).
Proof.
  intros W B userId appId w.
  split; [apply updateVisit_total |].
  split; [apply never_throws_run, updateVisit_total |].
  split.
  - intros H. unfold updateVisit.
    replace (negb (truthy userId) || negb (truthy appId)) with true
      by (destruct H as [-> | ->]; simpl; [| rewrite orb_true_r]; reflexivity).
    simpl. auto.
  - intros t w1 Hc Hf. unfold updateVisit.
    destruct (negb (truthy userId) || negb (truthy appId)); [reflexivity |].
    simpl. rewrite Hc.
    destruct (visits_call (Upsert userId appId 1 t) w1) as [o w2].
    simpl in Hf. destruct o as [r | e]; simpl; [| reflexivity].
    unfold call_failed in Hf. unfold throw_if.
    destruct (error r); simpl; [reflexivity | congruence].
Qed.

Lemma updateVisit_never_raises_witness :
  let db := mkDb [] [] "2026-01-01T00:00:00.000Z"
              [Some (Reject (StoreError "network down"))] in
  outcome (run (updateVisit "u0" QR_CODE_GENERATOR) db) = Returned None /\
  outcome (run (updateVisit "" QR_CODE_GENERATOR) db) = Returned None.
Proof.
  split.
  - apply (updateVisit_never_raises db_backend "u0" QR_CODE_GENERATOR
             (mkDb [] [] "2026-01-01T00:00:00.000Z"
                [Some (Reject (StoreError "network down"))]))
      with (t := "2026-01-01T00:00:00.000Z")
           (w1 := mkDb [] [] "2026-01-01T00:00:00.000Z"
                    [Some (Reject (StoreError "network down"))]).
    + reflexivity.
    + simpl. exact I.
  - apply (updateVisit_never_raises db_backend "" QR_CODE_GENERATOR
             (mkDb [] [] "2026-01-01T00:00:00.000Z"
                [Some (Reject (StoreError "network down"))])).
    left. reflexivity.
Defined.

End VisitClaims.

(** ** Saving a user: what the helper asks of any store *)

Section SaveUserFacts.

Import JsString Supabase.
Open Scope string_scope.

Context {W : Type} {B : Backend W}.

(** The lookup failed: the error is logged and thrown again. *)
Lemma saveUser_fetch_failed userData w o w1 :
  users_call (select_of userData) w = (o, w1) ->
  call_failed o ->
  exists e,
    run (saveUser userData) w =
    mkRun (Thrown e) w1 [UsersCall (select_of userData); saveUser_log].
Proof.
  unfold select_of. intros Hs Hf.
  unfold saveUser. simpl. rewrite Hs.
  destruct o as [r | e]; simpl.
  - unfold call_failed in Hf. unfold throw_if.
    destruct (error r) as [e |]; [| congruence].
    exists e. reflexivity.
  - exists e. reflexivity.
Qed.

(** The lookup found a row that already lists the application. *)
Lemma saveUser_existing_listed userData w u w1 :
  users_call (select_of userData) w = (Fulfilled (mkReply (Some u) None), w1) ->
  includes (app_ids_or_empty u) QR_CODE_GENERATOR = true ->
  run (saveUser userData) w =
  mkRun (Returned (Some u)) w1 [UsersCall (select_of userData)].
Proof.
  unfold select_of. intros Hs Hi.
  unfold saveUser. simpl. rewrite Hs. simpl. rewrite Hi. reflexivity.
Qed.

(** The lookup found a row that does not list the application: one update
    is sent, and its reply decides the result. *)
Lemma saveUser_existing_unlisted userData w u w1 o w2 :
  users_call (select_of userData) w = (Fulfilled (mkReply (Some u) None), w1) ->
  includes (app_ids_or_empty u) QR_CODE_GENERATOR = false ->
  users_call (update_of userData u) w1 = (o, w2) ->
  run (saveUser userData) w =
  match o with
  | Fulfilled (mkReply d None) =>
      mkRun (Returned d) w2
            [UsersCall (select_of userData); UsersCall (update_of userData u)]
  | Fulfilled (mkReply _ (Some e)) | Rejected e =>
      mkRun (Thrown e) w2
            [UsersCall (select_of userData); UsersCall (update_of userData u);
             saveUser_log]
  end.
Proof.
  unfold select_of, update_of. intros Hs Hi Hu.
  unfold saveUser. simpl. rewrite Hs. simpl. rewrite Hi. simpl.
  rewrite Hu. destruct o as [[d [e |]] | e]; reflexivity.
Qed.

(** Whenever the lookup finds a row, the call sends at most the lookup and
    one update: no insert, no visit upsert. *)
Lemma saveUser_existing_calls userData w u w1 :
  users_call (select_of userData) w = (Fulfilled (mkReply (Some u) None), w1) ->
  existsb is_insert (events (run (saveUser userData) w)) = false /\
  existsb is_upsert (events (run (saveUser userData) w)) = false.
Proof.
  intros Hs.
  destruct (includes (app_ids_or_empty u) QR_CODE_GENERATOR) eqn:Hi.
  - rewrite (saveUser_existing_listed _ _ Hs Hi). split; reflexivity.
  - destruct (users_call (update_of userData u) w1) as [o w2] eqn:Hu.
    rewrite (saveUser_existing_unlisted _ _ Hs Hi Hu).
    destruct o as [[d [e |]] | e]; split; reflexivity.
Qed.

(** A first save: once the row is inserted and has an identifier, the
    visit upsert is sent, and whatever becomes of it the new row is
    returned. *)
Lemma saveUser_new_user_upserts userData w w1 u w2 i t w3 :
  users_call (select_of userData) w = (Fulfilled (mkReply None None), w1) ->
  users_call (Insert (insert_row (clean userData))) w1 =
    (Fulfilled (mkReply (Some u) None), w2) ->
  id u = Some i -> truthy i = true ->
  clock w2 = (t, w3) ->
  outcome (run (saveUser userData) w) = Returned (Some u) /\
  In (VisitsCall (Upsert i QR_CODE_GENERATOR 1 t))
     (events (run (saveUser userData) w)).
Proof.
  unfold select_of. intros Hs Hins Hid Hi Hc.
  unfold saveUser. simpl. rewrite Hs. simpl. rewrite Hins. simpl.
  rewrite Hid, Hi. unfold updateVisit. rewrite Hi. simpl. rewrite Hc.
  destruct (visits_call (Upsert i QR_CODE_GENERATOR 1 t) w3) as [o w4].
  destruct o as [[d [e |]] | e]; simpl; auto.
Qed.

End SaveUserFacts.

(** ** The reference store *)

Section StoreFacts.

Import JsString Supabase Store.
Open Scope string_scope.

Lemma opt_eqb_true a b : opt_eqb a b = true <-> exists x, a = Some x /\ b = Some x.
Proof.
  destruct a as [x |], b as [y |]; simpl; split;
    try discriminate; try (intros (z & H1 & H2); discriminate).
  - intros H. apply String.eqb_eq in H as ->. eauto.
  - intros (z & H1 & H2). injection H1 as ->. injection H2 as ->.
    apply String.eqb_refl.
Qed.

Lemma filter_none {T : Type} (f : T -> bool) l :
  existsb f l = false -> filter f l = [].
Proof.
  induction l as [|a l IH]; simpl; [reflexivity |].
  intros H. apply orb_false_iff in H as [Ha Hl]. rewrite Ha. auto.
Qed.

(** In a table with distinct identifiers, the identifier of a row selects
    that row only. *)
Lemma unique_row us : forall u,
  distinct_ids us = true -> In u us ->
  filter (same_id (id u)) us = [u] /\ same_id (id u) u = true.
Proof.
  induction us as [|v rest IH]; simpl; intros u Hd Hin; [contradiction |].
  destruct (id v) as [i |] eqn:Ev; [| discriminate].
  apply andb_true_iff in Hd as [Hfresh Hd].
  apply negb_true_iff in Hfresh.
  destruct Hin as [<- | Hin].
  - assert (Hv : same_id (id v) v = true).
    { unfold same_id. rewrite Ev. simpl. apply String.eqb_refl. }
    rewrite Hv, Ev. rewrite (filter_none _ _ Hfresh). auto.
  - destruct (IH u Hd Hin) as [Hf Hu]. split; [| exact Hu].
    destruct (same_id (id u) v) eqn:Euv; [| exact Hf].
    exfalso.
    unfold same_id in Euv, Hu. apply opt_eqb_true in Euv as (x & Hx1 & Hx2).
    assert (Hex : existsb (same_id (Some i)) rest = true).
    { apply existsb_exists. exists u. split; [exact Hin |].
      unfold same_id. apply opt_eqb_true. exists x. split; congruence. }
    congruence.
Qed.

Lemma patch_where_keys i patch us :
  map id (map (patch_where i patch) us) = map id us /\
  map email (map (patch_where i patch) us) = map email us.
Proof.
  rewrite !map_map. split; apply map_ext; intros v; unfold patch_where;
    destruct (same_id i v); reflexivity.
Qed.

(** A call either reaches the tables, or it fails and leaves them alone. *)
Lemma users_call_cases q db :
  (exists db0,
      users db0 = users db /\ users_call q db = users_query q db0) \/
  (call_failed (fst (users_call q db)) /\
   users (snd (users_call q db)) = users db).
Proof.
  simpl. unfold with_faults.
  destruct (faults db) as [|[[e | e] |] rest]; simpl.
  - left. exists db. auto.
  - right. split; [discriminate | reflexivity].
  - right. auto.
  - left. exists (set_faults rest db). auto.
Qed.

Lemma users_call_unfaulted q db :
  faults db = [] -> users_call q db = users_query q db.
Proof.
  intros H. simpl. unfold with_faults. rewrite H. reflexivity.
Qed.

(** Lookups and updates keep the identifiers and the emails of the table. *)
Lemma users_query_keys q db :
  (forall row, q <> Insert row) ->
  map id (users (snd (users_query q db))) = map id (users db) /\
  map email (users (snd (users_query q db))) = map email (users db).
Proof.
  intros Hq. destruct q as [e | i patch | row]; simpl.
  - destruct (filter (same_email e) (users db)) as [|u [|? ?]]; auto.
  - destruct (filter (same_id i) (users db)) as [|u [|? ?]]; simpl; auto.
    apply patch_where_keys.
  - exfalso. apply (Hq row). reflexivity.
Qed.

Lemma users_call_keys q db :
  (forall row, q <> Insert row) ->
  map id (users (snd (users_call q db))) = map id (users db) /\
  map email (users (snd (users_call q db))) = map email (users db).
Proof.
  intros Hq.
  destruct (users_call_cases q db) as [(db0 & Hu & ->) | [_ ->]]; [| auto].
  rewrite <- Hu. apply users_query_keys, Hq.
Qed.

Lemma users_query_select e db u :
  filter (same_email e) (users db) = [u] ->
  users_query (SelectByEmail e) db = (ok (Some u), db).
Proof.
  intros H. simpl. rewrite H. reflexivity.
Qed.

Lemma users_query_update patch db u :
  distinct_ids (users db) = true -> In u (users db) ->
  users_query (UpdateById (id u) patch) db =
  (ok (Some (apply_patch patch u)),
   set_users (map (patch_where (id u) patch) (users db)) db).
Proof.
  intros Hd Hin. simpl.
  destruct (unique_row _ _ Hd Hin) as [-> _]. reflexivity.
Qed.

Lemma matching_row e us u : filter (same_email e) us = [u] -> In u us.
Proof.
  intros H. apply (proj1 (filter_In (same_email e) u us)).
  rewrite H. left. reflexivity.
Qed.

(** On an unfaulted store holding one row [u] for the email, [saveUser]
    runs as follows. *)
Lemma saveUser_on_store db userData u :
  distinct_ids (users db) = true ->
  filter (same_email (ud_email userData)) (users db) = [u] ->
  faults db = [] ->
  run (saveUser userData) db =
  if includes (app_ids_or_empty u) QR_CODE_GENERATOR
  then mkRun (Returned (Some u)) db [UsersCall (select_of userData)]
  else
    let patch := update_patch (app_ids_or_empty u ++ [QR_CODE_GENERATOR])
                              (clean userData) in
    mkRun (Returned (Some (apply_patch patch u)))
          (set_users (map (patch_where (id u) patch) (users db)) db)
          [UsersCall (select_of userData); UsersCall (update_of userData u)].
Proof.
  intros Hd Hf H0.
  assert (Hs : users_call (select_of userData) db =
               (Fulfilled (mkReply (Some u) None), db)).
  { rewrite (users_call_unfaulted _ _ H0). apply users_query_select, Hf. }
  destruct (includes (app_ids_or_empty u) QR_CODE_GENERATOR) eqn:Hi.
  - apply (saveUser_existing_listed _ _ Hs Hi).
  - assert (Hu : users_call (update_of userData u) db =
                 (ok (Some (apply_patch
                              (update_patch
                                 (app_ids_or_empty u ++ [QR_CODE_GENERATOR])
                                 (clean userData)) u)),
                  set_users
                    (map (patch_where (id u)
                            (update_patch
                               (app_ids_or_empty u ++ [QR_CODE_GENERATOR])
                               (clean userData))) (users db)) db)).
    { rewrite (users_call_unfaulted _ _ H0).
      apply users_query_update; [exact Hd | apply (matching_row _ _ Hf)]. }
    rewrite (saveUser_existing_unlisted _ _ Hs Hi Hu). reflexivity.
Qed.

(** Whatever the failures injected, a call for an email held by some row
    sends no insert and keeps the identifiers and emails of the table. *)
Lemma saveUser_on_store_keeps_rows db userData :
  filter (same_email (ud_email userData)) (users db) <> [] ->
  let r := run (saveUser userData) db in
  existsb is_insert (events r) = false /\
  map id (users (final r)) = map id (users db) /\
  map email (users (final r)) = map email (users db).
Proof.
  intros Hf r. subst r.
  assert (Hsel : forall row, select_of userData <> Insert row)
    by (intros row; discriminate).
  pose proof (users_call_keys db Hsel) as Hk1.
  destruct (users_call (select_of userData) db) as [o w1] eqn:Hs.
  simpl in Hk1.
  assert (Ho : call_failed o \/
               exists u, o = Fulfilled (mkReply (Some u) None)).
  { destruct (users_call_cases (select_of userData) db)
      as [(db0 & Hu & E) | [Hfail _]].
    - rewrite Hs in E. unfold select_of in E. simpl in E. rewrite Hu in E.
      destruct (filter (same_email (ud_email userData)) (users db))
        as [|u [|? ?]]; [congruence | |]; injection E as -> _.
      + right. exists u. reflexivity.
      + left. discriminate.
    - left. rewrite Hs in Hfail. exact Hfail. }
  destruct Ho as [Hfail | [u ->]].
  - destruct (saveUser_fetch_failed _ _ Hs Hfail) as [e ->]. simpl. auto.
  - destruct (includes (app_ids_or_empty u) QR_CODE_GENERATOR) eqn:Hi.
    + rewrite (saveUser_existing_listed _ _ Hs Hi). simpl. auto.
    + assert (Hupd : forall row, update_of userData u <> Insert row)
        by (intros row; discriminate).
      pose proof (users_call_keys w1 Hupd) as Hk2.
      destruct (users_call (update_of userData u) w1) as [o2 w2] eqn:Hu.
      rewrite (saveUser_existing_unlisted _ _ Hs Hi Hu). simpl in Hk2.
      destruct Hk1 as [Hk1 Hk1'], Hk2 as [Hk2 Hk2'].
      destruct o2 as [[d [e |]] | e]; simpl;
        (split; [reflexivity | split; congruence]).
Qed.

End StoreFacts.

(** ** Saving a user whose email is already known *)

Section SaveUserClaims.

Import JsString Supabase Store Samples.
Open Scope string_scope.

(** C1: when the email of the submission is held by a row of the users
    table, [saveUser] sends no insert and the table keeps its size, its
    identifiers and its emails, whatever failures occur.  When [u] is the
    row holding the email and the store answers, the call returns [u]
    itself without sending an update if [u] already lists the generator,
    and otherwise returns the row of the same identity with the generator's
    id appended to its list. *)
Theorem saveUser_existing_email : forall (db : Db) (userData : UserData),
  let r := run (saveUser userData) db in
  (filter (same_email (ud_email userData)) (users db) <> [] ->
   existsb is_insert (events r) = false /\
   length (users (final r)) = length (users db) /\
   map id (users (final r)) = map id (users db) /\
   map email (users (final r)) = map email (users db)) /\
  (forall u : User,
      distinct_ids (users db) = true ->
      filter (same_email (ud_email userData)) (users db) = [u] ->
      faults db = [] ->
      if includes (app_ids_or_empty u) QR_CODE_GENERATOR
      then outcome r = Returned (Some u) /\
           final r = db /\
           existsb is_update (events r) = false
      else exists u',
          outcome r = Returned (Some u') /\
          In u' (users (final r)) /\
          id u' = id u /\
          email u' = email u /\
          app_ids u' = Some (app_ids_or_empty u ++ [QR_CODE_GENERATOR])%list).
Proof.
  intros db userData r. split.
  - intros Hf.
    destruct (saveUser_on_store_keeps_rows db userData Hf) as (Hi & Hid & Hem).
    fold r in Hi, Hid, Hem. repeat split; auto.
    rewrite <- (length_map id), Hid. apply length_map.
  - intros u Hd Hf H0. subst r. rewrite (saveUser_on_store _ _ Hd Hf H0).
    destruct (includes (app_ids_or_empty u) QR_CODE_GENERATOR); simpl.
    + auto.
    + eexists. split; [reflexivity |]. split; [| auto].
      destruct (unique_row _ _ Hd (matching_row _ _ Hf)) as [_ Hu].
      apply in_map_iff. exists u. split; [| apply (matching_row _ _ Hf)].
      unfold patch_where. rewrite Hu. reflexivity.
Qed.

Lemma saveUser_existing_email_witness :
  (exists u',
      outcome (run (saveUser resubmission) db_unlisted) = Returned (Some u') /\
      id u' = Some "u2" /\
      app_ids u' = Some ["donor-portal-v1"; QR_CODE_GENERATOR]) /\
  length (users (final (run (saveUser resubmission) db_unlisted))) = 2.
Proof.
  destruct (@saveUser_existing_email db_unlisted resubmission) as [Hrows Hret].
  split.
  - destruct (Hret ana eq_refl eq_refl eq_refl) as (u' & Ho & _ & Hi & _ & Ha).
    exists u'. repeat split; assumption.
  - refine (proj1 (proj2 (Hrows _))). discriminate.
Defined.

(** C3 does not hold for a known email: Ana's submission is saved (her row
    is updated and returned), yet no visit upsert is sent and the visits
    table stays empty; the same happens when her row already lists the
    generator.  Only the first save of a new email sends the upsert. *)
Theorem saveUser_existing_skips_visit :
  (let r := run (saveUser resubmission) db_unlisted in
   (exists u', outcome r = Returned (Some u')) /\
   events r = [UsersCall (select_of resubmission);
               UsersCall (update_of resubmission ana)] /\
   existsb is_upsert (events r) = false /\
   visits (final r) = []) /\
  (let r := run (saveUser resubmission) db_listed in
   outcome r = Returned (Some ana_listed) /\
   existsb is_upsert (events r) = false /\
   visits (final r) = []) /\
  (let r := run (saveUser newcomer) db_listed in
   (exists u', outcome r = Returned (Some u')) /\
   existsb is_upsert (events r) = true /\
   length (visits (final r)) = 1).
Proof.
  repeat split; try reflexivity; eexists; reflexivity.
Qed.

(** C4 fails as stated: Ana's row already lists the generator, she submits
    a new name and an EIN, and the row keeps the old name and no EIN. *)
Lemma saveUser_listed_ignores_fields :
  let r := run (saveUser resubmission) db_listed in
  truthy (ud_name resubmission) = true /\
  truthy_opt (ud_ein resubmission) = true /\
  outcome r = Returned (Some ana_listed) /\
  users (final r) = [ben; ana_listed] /\
  name ana_listed <> ud_name resubmission /\
  ein ana_listed <> ud_ein resubmission.
Proof.
  repeat split; discriminate.
Qed.

(** C4, amended: when the email is held by a row [u] that does not list the
    generator yet, the update writes each non-empty incoming field (name,
    organization, EIN) over the field of [u] and leaves the fields of a
    blank submission, and every other row, as they were; when [u] already
    lists the generator, nothing is written. *)
Theorem saveUser_merges_when_unlisted : forall (db : Db) (userData : UserData) (u : User),
  distinct_ids (users db) = true ->
  filter (same_email (ud_email userData)) (users db) = [u] ->
  faults db = [] ->
  let r := run (saveUser userData) db in
  if includes (app_ids_or_empty u) QR_CODE_GENERATOR
  then final r = db /\ outcome r = Returned (Some u)
  else exists u',
      outcome r = Returned (Some u') /\
      In u' (users (final r)) /\
      name u' = (if truthy (ud_name userData)
                 then ud_name userData else name u) /\
      organization u' = (if truthy_opt (ud_organization userData)
                         then ud_organization userData else organization u) /\
      ein u' = (if truthy_opt (ud_ein userData)
                then ud_ein userData else ein u) /\
      (forall v, In v (users db) -> id v <> id u -> In v (users (final r))).
Proof.
  intros db userData u Hd Hf H0 r. subst r.
  rewrite (saveUser_on_store _ _ Hd Hf H0).
  destruct (includes (app_ids_or_empty u) QR_CODE_GENERATOR); simpl; [auto |].
  eexists. split; [reflexivity |].
  destruct (unique_row _ _ Hd (matching_row _ _ Hf)) as [_ Hu].
  split; [| split; [| split; [| split]]].
  - apply in_map_iff. exists u. split; [| apply (matching_row _ _ Hf)].
    unfold patch_where. rewrite Hu. reflexivity.
  - destruct userData as [e [|? ?] o i]; reflexivity.
  - destruct userData as [e n [[|? ?] |] i]; reflexivity.
  - destruct userData as [e n o [[|? ?] |]]; reflexivity.
  - intros v Hv Hne. apply in_map_iff. exists v. split; [| exact Hv].
    unfold patch_where. destruct (same_id (id u) v) eqn:Ev; [| reflexivity].
    exfalso. unfold same_id in Ev.
    apply opt_eqb_true in Ev as (x & Hx1 & Hx2). congruence.
Qed.

Lemma saveUser_merges_when_unlisted_witness :
  exists u',
    outcome (run (saveUser resubmission) db_unlisted) = Returned (Some u') /\
    name u' = "Ana Maria" /\
    organization u' = Some "Helping Hands" /\
    ein u' = Some "12-3456789".
Proof.
  destruct (@saveUser_merges_when_unlisted db_unlisted resubmission ana
              eq_refl eq_refl eq_refl)
    as (u' & Ho & _ & Hn & Horg & He & _).
  exists u'. repeat split; assumption.
Defined.

End SaveUserClaims.

(** ** Logo intake *)

Section LogoClaims.

Import JsString LogoUpload.
Open Scope string_scope.
Open Scope Z_scope.

Variable imageCompression : File -> Options -> option File.
Variable readAsDataURL : File -> option string.

Lemma validateImage_rejects file st w h :
  natural file = Some (w, h) ->
  w < 100 \/ h < 100 \/ w > 2000 \/ h > 2000 ->
  fst (validateImage file st) = false /\
  truthy (error (snd (validateImage file st))) = true /\
  preview (snd (validateImage file st)) = preview st.
Proof.
  intros Hn Hdim. unfold validateImage. rewrite Hn.
  destruct ((w <? 100) || (h <? 100)) eqn:Esmall; [simpl; auto |].
  destruct ((w >? 2000) || (h >? 2000)) eqn:Elarge; [simpl; auto |].
  exfalso.
  apply orb_false_iff in Esmall as [E1 E2].
  apply orb_false_iff in Elarge as [E3 E4].
  apply Z.ltb_ge in E1, E2. rewrite Z.gtb_ltb in E3, E4.
  apply Z.ltb_ge in E3, E4. lia.
Qed.

Lemma validateImage_accepts file st w h :
  natural file = Some (w, h) ->
  100 <= w <= 2000 -> 100 <= h <= 2000 ->
  validateImage file st = (true, setError "" st).
Proof.
  intros Hn Hw Hh. unfold validateImage. rewrite Hn.
  replace (w <? 100) with false by (symmetry; apply Z.ltb_ge; lia).
  replace (h <? 100) with false by (symmetry; apply Z.ltb_ge; lia).
  rewrite !Z.gtb_ltb.
  replace (2000 <? w) with false by (symmetry; apply Z.ltb_ge; lia).
  replace (2000 <? h) with false by (symmetry; apply Z.ltb_ge; lia).
  reflexivity.
Qed.

(** A file that passes the three checks is compressed and read; what the
    reader produced is shown and handed to [onLogoChange]. *)
Lemma processImage_accepts file st w h compressed :
  prefix "image/" (type file) = true ->
  size file <= 5 * 1024 * 1024 ->
  natural file = Some (w, h) ->
  100 <= w <= 2000 -> 100 <= h <= 2000 ->
  imageCompression file options = Some compressed ->
  processImage imageCompression readAsDataURL file st =
  (setPreview (readAsDataURL compressed) (setError "" st),
   [readAsDataURL compressed]).
Proof.
  intros Ht Hs Hn Hw Hh Hc. unfold processImage.
  rewrite Ht. cbn [negb].
  replace (size file >? 5 * 1024 * 1024) with false
    by (symmetry; rewrite Z.gtb_ltb; apply Z.ltb_ge; exact Hs).
  rewrite (validateImage_accepts _ _ Hn Hw Hh). simpl. rewrite Hc.
  reflexivity.
Qed.

(** C7: a file whose MIME type does not start with [image/], or that is
    larger than 5 MB, or whose natural width or height is below 100 or above
    2000, leaves a non-empty error message and [onLogoChange] is not
    called; a 500x500 [image/png] file of 1 MB passes the checks and, once
    compressed and read, its data URL is handed to [onLogoChange]. *)
Theorem processImage_intake : forall (file : File) (st : State),
  (prefix "image/" (type file) = false \/
   size file > 5 * 1024 * 1024 \/
   (exists w h, natural file = Some (w, h) /\
                (w < 100 \/ h < 100 \/ w > 2000 \/ h > 2000)) ->
   truthy (error (fst (processImage imageCompression readAsDataURL file st))) = true /\
   snd (processImage imageCompression readAsDataURL file st) = [] /\
   preview (fst (processImage imageCompression readAsDataURL file st)) = preview st) /\
  (type file = "image/png" ->
   size file = 1024 * 1024 ->
   natural file = Some (500, 500) ->
   forall compressed dataUrl,
     imageCompression file options = Some compressed ->
     readAsDataURL compressed = Some dataUrl ->
     snd (processImage imageCompression readAsDataURL file st) = [Some dataUrl] /\
     error (fst (processImage imageCompression readAsDataURL file st)) = "" /\
     preview (fst (processImage imageCompression readAsDataURL file st)) = Some dataUrl).
Proof.
  intros file st. split.
  - intros Hbad. unfold processImage.
    destruct (prefix "image/" (type file)) eqn:Et; cbn [negb];
      [| simpl; auto].
    destruct (size file >? 5 * 1024 * 1024) eqn:Es; [simpl; auto |].
    destruct Hbad as [Hbad | [Hbad | (w & h & Hn & Hdim)]].
    + discriminate.
    + rewrite Z.gtb_ltb in Es. apply Z.ltb_ge in Es. lia.
    + destruct (validateImage_rejects file st Hn Hdim) as (Hv & He & Hp).
      destruct (validateImage file st) as [isValid st1].
      simpl in Hv, He, Hp. subst isValid. simpl. auto.
  - intros Ht Hs Hn compressed dataUrl Hc Hr.
    rewrite (@processImage_accepts file st 500 500 compressed);
      try lia; try assumption.
    + rewrite Hr. simpl. auto.
    + rewrite Ht. reflexivity.
Qed.

End LogoClaims.

(** The messages shown for a logo that is too small, too large, not an
    image, or too heavy. *)
Example processImage_messages :
  let compress := fun (f : LogoUpload.File) (_ : LogoUpload.Options) => Some f in
  let read := fun _ : LogoUpload.File => Some "data:,"%string in
  let shown := fun f =>
    LogoUpload.error
      (fst (LogoUpload.processImage compress read f LogoUpload.initial)) in
  shown (LogoUpload.mkFile "image/png" 4096 (Some (50, 50)%Z))
  = "Image must be at least 100x100 pixels"%string /\
  shown (LogoUpload.mkFile "image/png" 4096 (Some (3000, 3000)%Z))
  = "Image must be no larger than 2000x2000 pixels"%string /\
  shown (LogoUpload.mkFile "application/pdf" 4096 None)
  = "Please upload an image file"%string /\
  shown (LogoUpload.mkFile "image/jpeg" (6 * 1024 * 1024) (Some (800, 800)%Z))
  = "File size must be less than 5MB"%string.
Proof. repeat split; reflexivity. Qed.

Lemma processImage_intake_witness :
  let compress := fun (f : LogoUpload.File) (_ : LogoUpload.Options) =>
    Some (LogoUpload.mkFile "image/png" 204800 (Some (500, 500)%Z)) in
  let read := fun _ : LogoUpload.File =>
    Some "data:image/png;base64,iVBORw0KGgo="%string in
  snd (LogoUpload.processImage compress read
         (LogoUpload.mkFile "image/png" (1024 * 1024) (Some (500, 500)%Z))
         LogoUpload.initial)
  = [Some "data:image/png;base64,iVBORw0KGgo="%string] /\
  snd (LogoUpload.processImage compress read
         (LogoUpload.mkFile "image/png" 4096 (Some (50, 50)%Z))
         LogoUpload.initial) = [] /\
  snd (LogoUpload.processImage compress read
         (LogoUpload.mkFile "image/png" 4096 (Some (3000, 3000)%Z))
         LogoUpload.initial) = [].
Proof.
  intros compress read. split; [| split].
  - apply (proj2 (processImage_intake compress read
                    (LogoUpload.mkFile "image/png" (1024 * 1024)
                                       (Some (500, 500)%Z))
                    LogoUpload.initial)
             eq_refl eq_refl eq_refl
             (LogoUpload.mkFile "image/png" 204800 (Some (500, 500)%Z))
             "data:image/png;base64,iVBORw0KGgo="%string eq_refl eq_refl).
  - apply (proj1 (processImage_intake compress read
                    (LogoUpload.mkFile "image/png" 4096 (Some (50, 50)%Z))
                    LogoUpload.initial)).
    right; right. exists 50%Z, 50%Z. split; [reflexivity | lia].
  - apply (proj1 (processImage_intake compress read
                    (LogoUpload.mkFile "image/png" 4096 (Some (3000, 3000)%Z))
                    LogoUpload.initial)).
    right; right. exists 3000%Z, 3000%Z. split; [reflexivity | lia].
Defined.

(** ** One AI request at a time *)

Section GenerateClaims.

Import JsString QRCodeGenerator.
Open Scope string_scope.

Variable openai : bool.
Variable trim : string -> string.


(** A handler invoked from a render of the current state does what
    [generateAIText] does on that state. *)
Lemma act_generate_rendered type s :
  rendered s = view s ->
  view (act openai trim (Generate type) s)
  = fst (generateAIText openai type (view s)) /\
  pending (act openai trim (Generate type) s)
  = (pending s ++
     match snd (generateAIText openai type (view s)) with
     | Some request => [(type, request)]
     | None => []
     end)%list.
Proof.
  intros E. destruct s as [v r p]. simpl in E. subst r.
  unfold generateAIText. simpl.
  destruct (isGenerating v); simpl; [rewrite app_nil_r; auto |].
  destruct openai; simpl; [auto | rewrite app_nil_r; auto].
Qed.




End GenerateClaims.


(** ** Placement of the image on the PDF page *)

Section DoubleFacts.

Import Binary64.
Local Open Scope Z_scope.

Lemma digits2_pos_bounds : forall p,
  2 ^ (Zpos (digits2_pos p) - 1) <= Zpos p < 2 ^ Zpos (digits2_pos p).
Proof.
  induction p as [p IH | p IH |]; cbn [digits2_pos].
  - rewrite Pos2Z.inj_succ.
    replace (Z.succ (Zpos (digits2_pos p)) - 1) with (Z.succ (Zpos (digits2_pos p) - 1)) by lia.
    rewrite !Z.pow_succ_r by lia. lia.
  - rewrite Pos2Z.inj_succ.
    replace (Z.succ (Zpos (digits2_pos p)) - 1) with (Z.succ (Zpos (digits2_pos p) - 1)) by lia.
    rewrite !Z.pow_succ_r by lia. lia.
  - cbn. lia.
Qed.

Lemma Zdigits2_bounds : forall m, 0 < m ->
  0 < Zdigits2 m /\ 2 ^ (Zdigits2 m - 1) <= m < 2 ^ Zdigits2 m.
Proof.
  intros [| p | p] Hm; try lia. cbn [Zdigits2]. split; [lia | apply digits2_pos_bounds].
Qed.

Lemma pow2_split : forall a b, 0 <= a -> 0 <= b -> 2 ^ (a + b) = 2 ^ a * 2 ^ b.
Proof. intros. apply Z.pow_add_r; assumption. Qed.

Lemma pow2_pos : forall a, 0 <= a -> 0 < 2 ^ a.
Proof. intros. apply Z.pow_pos_nonneg; lia. Qed.

Lemma pow2_le : forall a b, a <= b -> 2 ^ a <= 2 ^ b.
Proof. intros. apply Z.pow_le_mono_r; lia. Qed.

Lemma pow2_lt_inv : forall a b, 0 <= b -> 2 ^ a < 2 ^ b -> a < b.
Proof.
  intros a b Hb H. destruct (Z_lt_le_dec a b) as [|Hle]; [assumption|].
  apply pow2_le in Hle. lia.
Qed.

Lemma shr_m_of_loc : forall m l, shr_m (shr_record_of_loc m l) = m.
Proof. intros m [|[| |]]; reflexivity. Qed.

Lemma shr_1_m : forall mrs, 0 <= shr_m mrs -> shr_m (shr_1 mrs) = shr_m mrs / 2.
Proof.
  intros [m r s] H. rewrite <- Z.div2_div.
  destruct m as [|[p|p|]|p]; cbn [shr_m] in H; try lia; reflexivity.
Qed.

Lemma iter_pos_shr_m : forall p mrs, 0 <= shr_m mrs ->
  shr_m (iter_pos shr_1 p mrs) = shr_m mrs / 2 ^ Zpos p.
Proof.
  induction p as [p IH | p IH |]; intros mrs H; cbn [iter_pos].
  - assert (H1 : 0 <= shr_m (shr_1 mrs)) by (rewrite shr_1_m by assumption; apply Z.div_pos; lia).
    assert (H2 : 0 <= shr_m (iter_pos shr_1 p (shr_1 mrs)))
      by (rewrite IH by assumption; apply Z.div_pos; [assumption | apply pow2_pos; lia]).
    rewrite IH by assumption. rewrite IH by assumption. rewrite shr_1_m by assumption.
    rewrite !Z.div_div by (try apply pow2_pos; lia).
    f_equal. replace (Zpos p~1) with (1 + Zpos p + Zpos p) by lia.
    rewrite (@pow2_split (1 + Zpos p) (Zpos p)) by lia.
    rewrite (@pow2_split 1 (Zpos p)) by lia. change (2 ^ 1) with 2. ring.
  - assert (H2 : 0 <= shr_m (iter_pos shr_1 p mrs))
      by (rewrite IH by assumption; apply Z.div_pos; [assumption | apply pow2_pos; lia]).
    rewrite IH by assumption. rewrite IH by assumption.
    rewrite !Z.div_div by (try apply pow2_pos; lia).
    f_equal. replace (Zpos p~0) with (Zpos p + Zpos p) by lia.
    rewrite pow2_split by lia. ring.
  - rewrite shr_1_m by assumption. reflexivity.
Qed.

Lemma fexp_double : forall z, fexp prec emax z = Z.max (z - 53) (-1074).
Proof. reflexivity. Qed.

Lemma shr_fexp_spec : forall m e l mrs e1, 0 <= m ->
  shr_fexp prec emax m e l = (mrs, e1) ->
  let n := fexp prec emax (Zdigits2 m + e) - e in
  (n <= 0 /\ shr_m mrs = m /\ e1 = e) \/
  (0 < n /\ shr_m mrs = m / 2 ^ n /\ e1 = e + n).
Proof.
  intros m e l mrs e1 Hm H n. unfold shr_fexp, shr in H. fold n in H.
  destruct n as [| p | p] eqn:En; inversion H; subst.
  - left. rewrite shr_m_of_loc. lia.
  - right. rewrite iter_pos_shr_m by (rewrite shr_m_of_loc; assumption).
    rewrite shr_m_of_loc. lia.
  - left. rewrite shr_m_of_loc. lia.
Qed.

Lemma round_nearest_even_bounds : forall m l,
  m <= round_nearest_even m l <= m + 1.
Proof.
  intros m [|[| |]]; cbn [round_nearest_even]; try lia.
  destruct (Z.even m); lia.
Qed.

Lemma at_least_digits : forall k m e, at_least k m e -> k < Zdigits2 m + e.
Proof.
  intros k m e [Hm H]. destruct (Zdigits2_bounds Hm) as [Hd [_ Hu]].
  destruct (Z_lt_le_dec e k) as [Hlt | Hle]; [| lia].
  specialize (H Hlt).
  assert (k - e < Zdigits2 m) by (apply pow2_lt_inv; lia). lia.
Qed.

Lemma shr_fexp_at_least : forall k m e l mrs e1, -1074 <= k - 1 ->
  at_least k m e -> shr_fexp prec emax m e l = (mrs, e1) ->
  at_least k (shr_m mrs) e1.
Proof.
  intros k m e l mrs e1 Hk Hal H.
  pose proof (at_least_digits Hal) as Hmag.
  destruct Hal as [Hm Hlow].
  destruct (Zdigits2_bounds Hm) as [Hd [Hdl Hdu]].
  apply shr_fexp_spec in H; [| lia]. rewrite fexp_double in H.
  destruct H as [[Hn [-> ->]] | [Hn [-> ->]]]; [split; assumption |].
  set (d := Zdigits2 m) in *.
  set (n := Z.max (d + e - 53) (-1074) - e) in *.
  assert (Hnd : n <= d - 1) by lia.
  split.
  - apply Z.div_str_pos. split; [apply pow2_pos; lia |].
    apply Z.le_trans with (2 ^ (d - 1)); [apply pow2_le; lia | assumption].
  - intros He1. apply Z.div_le_lower_bound; [apply pow2_pos; lia |].
    rewrite <- pow2_split by lia.
    replace (n + (k - (e + n))) with (k - e) by lia. apply Hlow. lia.
Qed.

Lemma at_least_mono : forall k m m' e, at_least k m e -> m <= m' -> at_least k m' e.
Proof. intros k m m' e [Hm H] Hle. split; [lia |]. intros He. specialize (H He). lia. Qed.

Lemma binary_round_aux_at_least : forall k m e l, -1074 <= k - 1 ->
  at_least k m e ->
  binary_round_aux prec emax false m e l = S754_infinity false \/
  exists m' e', binary_round_aux prec emax false m e l = S754_finite false m' e' /\
                at_least k (Zpos m') e'.
Proof.
  intros k m e l Hk Hal. unfold binary_round_aux.
  destruct (shr_fexp prec emax m e l) as [mrs1 e1] eqn:E1.
  pose proof (shr_fexp_at_least l Hk Hal E1) as H1.
  pose proof (round_nearest_even_bounds (shr_m mrs1) (loc_of_shr_record mrs1)) as Hr.
  set (m2 := round_nearest_even (shr_m mrs1) (loc_of_shr_record mrs1)) in *.
  assert (H2 : at_least k m2 e1) by (eapply at_least_mono; [exact H1 | lia]).
  destruct (shr_fexp prec emax m2 e1 loc_Exact) as [mrs3 e3] eqn:E3.
  pose proof (shr_fexp_at_least loc_Exact Hk H2 E3) as H3.
  destruct (shr_m mrs3) as [| m3 | m3] eqn:Em3.
  - destruct H3; lia.
  - destruct (e3 <=? emax - prec); [right; exists m3, e3; split; [reflexivity | assumption] | left; reflexivity].
  - destruct H3; lia.
Qed.

Lemma shr_fexp_under : forall k m e l mrs e1, -1074 <= k -> 0 <= m ->
  under k m e -> shr_fexp prec emax m e l = (mrs, e1) ->
  0 <= shr_m mrs /\ under k (shr_m mrs) e1.
Proof.
  intros k m e l mrs e1 Hk Hm [Hek Hu] H.
  apply shr_fexp_spec in H; [| assumption]. rewrite fexp_double in H.
  destruct H as [[Hn [-> ->]] | [Hn [-> ->]]]; [split; [assumption | split; assumption] |].
  set (n := Z.max (Zdigits2 m + e - 53) (-1074) - e) in *.
  assert (He1 : e + n <= k).
  { destruct (Z.eq_dec m 0) as [-> | Hne].
    - cbn [Zdigits2] in n. lia.
    - destruct (@Zdigits2_bounds m) as [Hd [Hdl Hdu]]; [lia |].
      assert (Zdigits2 m - 1 < k - e) by (apply pow2_lt_inv; lia). lia. }
  split; [apply Z.div_pos; [assumption | apply pow2_pos; lia] |].
  split; [assumption |].
  apply Z.div_lt_upper_bound; [apply pow2_pos; lia |].
  rewrite <- pow2_split by lia.
  replace (n + (k - (e + n))) with (k - e) by lia. assumption.
Qed.

Lemma shr_fexp_at_most : forall k m e l mrs e1, -1074 <= k -> 0 <= m ->
  at_most k m e -> shr_fexp prec emax m e l = (mrs, e1) ->
  at_most k (shr_m mrs) e1.
Proof.
  intros k m e l mrs e1 Hk Hm [Hek Hu] H.
  apply shr_fexp_spec in H; [| assumption]. rewrite fexp_double in H.
  destruct H as [[Hn [-> ->]] | [Hn [-> ->]]]; [split; assumption |].
  set (n := Z.max (Zdigits2 m + e - 53) (-1074) - e) in *.
  assert (He1 : e + n <= k).
  { destruct (Z.eq_dec m 0) as [-> | Hne].
    - cbn [Zdigits2] in n. lia.
    - destruct (@Zdigits2_bounds m) as [Hd [Hdl Hdu]]; [lia |].
      assert (Zdigits2 m - 1 < k - e + 1).
      { apply pow2_lt_inv; [lia |].
        apply Z.le_lt_trans with (2 ^ (k - e)); [lia |].
        apply Z.pow_lt_mono_r; lia. }
      lia. }
  split; [assumption |].
  apply Z.div_le_upper_bound; [apply pow2_pos; lia |].
  rewrite <- pow2_split by lia.
  replace (n + (k - (e + n))) with (k - e) by lia. assumption.
Qed.

Lemma binary_round_aux_at_most : forall k m e l, -1074 <= k <= 971 ->
  0 <= m -> under k m e ->
  binary_round_aux prec emax false m e l = S754_zero false \/
  exists m' e', binary_round_aux prec emax false m e l = S754_finite false m' e' /\
                at_most k (Zpos m') e'.
Proof.
  intros k m e l [Hk Hk'] Hm Hu. unfold binary_round_aux.
  destruct (shr_fexp prec emax m e l) as [mrs1 e1] eqn:E1.
  destruct (shr_fexp_under l Hk Hm Hu E1) as [Hm1 [He1 H1]].
  pose proof (round_nearest_even_bounds (shr_m mrs1) (loc_of_shr_record mrs1)) as Hr.
  set (m2 := round_nearest_even (shr_m mrs1) (loc_of_shr_record mrs1)) in *.
  assert (H2 : at_most k m2 e1) by (split; lia).
  destruct (shr_fexp prec emax m2 e1 loc_Exact) as [mrs3 e3] eqn:E3.
  assert (Hm2 : 0 <= m2) by lia.
  pose proof (@shr_fexp_at_most k m2 e1 loc_Exact mrs3 e3 Hk Hm2 H2 E3) as H3.
  pose proof (@shr_fexp_spec m2 e1 loc_Exact mrs3 e3 Hm2 E3) as Hs.
  destruct (shr_m mrs3) as [| m3 | m3] eqn:Em3.
  - left; reflexivity.
  - right. exists m3, e3. change (emax - prec) with 971.
    destruct (Z.leb_spec e3 971) as [_ | Hgt]; [split; [reflexivity | assumption] |].
    destruct H3; lia.
  - exfalso. cbv zeta in Hs.
    assert (0 <= m2 / 2 ^ (fexp prec emax (Zdigits2 m2 + e1) - e1))
      by (apply Z.div_pos; [assumption | apply Z.pow_pos_nonneg; lia]).
    destruct Hs as [[_ [Hs _]] | [Hp [Hs _]]]; lia.
Qed.

Lemma valid_binary_finite : forall s m e,
  valid_binary (S754_finite s m e) = true ->
  e = Z.max (Zpos (digits2_pos m) + e - 53) (-1074) /\ e <= 971.
Proof.
  intros s m e H. unfold SpecFloat.valid_binary, bounded, canonical_mantissa in H.
  apply andb_true_iff in H. destruct H as [Hc Hb].
  apply Z.eqb_eq in Hc. apply Z.leb_le in Hb. rewrite fexp_double in Hc.
  change (emax - prec) with 971 in Hb. split; [symmetry; exact Hc | exact Hb].
Qed.

Lemma SFdiv_core_binary_spec : forall mx ex my ey q e' l,
  SFdiv_core_binary prec emax (Zpos mx) ex (Zpos my) ey = (q, e', l) ->
  e' = Z.min (Z.max (Zpos (digits2_pos mx) + ex - (Zpos (digits2_pos my) + ey) - 53) (-1074))
             (ex - ey) /\
  q = Zpos mx * 2 ^ (ex - ey - e') / Zpos my.
Proof.
  intros mx ex my ey q e' l H. unfold SFdiv_core_binary in H.
  cbn [Zdigits2] in H. rewrite fexp_double in H.
  set (e0 := Z.min (Z.max (Zpos (digits2_pos mx) + ex - (Zpos (digits2_pos my) + ey) - 53) (-1074))
                   (ex - ey)) in *.
  assert (Hs : 0 <= ex - ey - e0) by (unfold e0; lia).
  set (m' := match ex - ey - e0 with
             | 0 => Zpos mx
             | Zpos _ => Z.shiftl (Zpos mx) (ex - ey - e0)
             | Zneg _ => 0
             end) in *.
  assert (Hm' : m' = Zpos mx * 2 ^ (ex - ey - e0)).
  { unfold m'. destruct (ex - ey - e0) as [| p | p] eqn:Es.
    - rewrite Z.pow_0_r. lia.
    - apply Z.shiftl_mul_pow2. lia.
    - lia. }
  destruct (Z.div_eucl m' (Zpos my)) as [q0 r0] eqn:Ed.
  inversion H; subst q e'. split; [reflexivity |].
  rewrite <- Hm'. unfold Z.div. rewrite Ed. reflexivity.
Qed.

Lemma SFltb_finite : forall mx ex my ey,
  SFltb (S754_finite false my ey) (S754_finite false mx ex) = true ->
  ey < ex \/ (ey = ex /\ Zpos my < Zpos mx).
Proof.
  intros mx ex my ey H. unfold SFltb, SFcompare in H.
  destruct (Z.compare_spec ey ex) as [He | He | He]; [| left; assumption | discriminate H].
  right. split; [assumption |].
  destruct (Pos.compare_cont Eq my mx) eqn:Ec; try discriminate H.
  exact Ec.
Qed.

(** The quotient of two positive doubles x >= y is at least 1. *)
Lemma SFdiv_at_least : forall mx ex my ey,
  valid_binary (S754_finite false mx ex) = true ->
  valid_binary (S754_finite false my ey) = true ->
  ey < ex \/ (ey = ex /\ Zpos my <= Zpos mx) ->
  SFdiv prec emax (S754_finite false mx ex) (S754_finite false my ey) = S754_infinity false \/
  exists m e,
    SFdiv prec emax (S754_finite false mx ex) (S754_finite false my ey) = S754_finite false m e /\
    at_least 0 (Zpos m) e.
Proof.
  intros mx ex my ey Vx Vy Hlt. cbn [SFdiv xorb].
  destruct (SFdiv_core_binary prec emax (Zpos mx) ex (Zpos my) ey) as [[q e'] l] eqn:Ec.
  apply SFdiv_core_binary_spec in Ec. destruct Ec as [He' Hq].
  apply valid_binary_finite in Vx. apply valid_binary_finite in Vy.
  pose proof (digits2_pos_bounds mx) as Bx. pose proof (digits2_pos_bounds my) as By.
  set (dx := Zpos (digits2_pos mx)) in *. set (dy := Zpos (digits2_pos my)) in *.
  assert (Hdx : 0 < dx) by (unfold dx; lia). assert (Hdy : 0 < dy) by (unfold dy; lia).
  set (s := ex - ey - e') in *.
  assert (Hs : 0 <= s) by (unfold s; lia).
  apply binary_round_aux_at_least; [lia |].
  assert (Hpos : Zpos my <= Zpos mx * 2 ^ s).
  { destruct Hlt as [Hlt | [Heq Hlt]].
    - (* ex > ey: x has a full mantissa *)
      assert (Hfull : dx = 53) by lia.
      assert (Hy53 : dy <= 53) by lia.
      assert (2 ^ dy <= 2 ^ 53) by (apply pow2_le; lia).
      rewrite Hfull in Bx. change (2 ^ (53 - 1)) with 4503599627370496 in Bx.
      change (2 ^ 53) with 9007199254740992 in *.
      destruct (Z.eq_dec s 0) as [Hs0 | Hs0].
      + (* then e' = ex - ey >= 1 and e' <= dx + ex - dy - ey - 53 *)
        assert (dy + 1 <= dx) by lia.
        assert (2 ^ dy <= 2 ^ (dx - 1)) by (apply pow2_le; lia).
        rewrite Hs0, Z.pow_0_r. rewrite Hfull in *. change (2 ^ (53 - 1)) with 4503599627370496 in *. lia.
      + assert (2 ^ 1 <= 2 ^ s) by (apply pow2_le; lia). change (2 ^ 1) with 2 in *. nia.
    - assert (1 <= 2 ^ s) by (pose proof (pow2_pos Hs); lia). nia. }
  split.
  - subst q. apply Z.div_str_pos. lia.
  - intros Hneg. subst q. apply Z.div_le_lower_bound; [lia |].
    rewrite Z.sub_0_l.
    assert (Hsplit : s = (ex - ey) + (- e')) by (unfold s; lia).
    destruct Hlt as [Hlt | [Heq Hlt]].
    + assert (Hfull : dx = 53) by lia.
      assert (Hy53 : dy <= 53) by lia.
      assert (2 ^ dy <= 2 ^ 53) by (apply pow2_le; lia).
      rewrite Hfull in Bx. change (2 ^ (53 - 1)) with 4503599627370496 in Bx.
      change (2 ^ 53) with 9007199254740992 in *.
      rewrite Hsplit, pow2_split by lia.
      assert (2 ^ 1 <= 2 ^ (ex - ey)) by (apply pow2_le; lia). change (2 ^ 1) with 2 in *.
      assert (0 < 2 ^ (- e')) by (apply pow2_pos; lia).
      rewrite Z.mul_assoc. apply Z.mul_le_mono_nonneg_r; [lia | nia].
    + rewrite Hsplit. replace (ex - ey) with 0 by lia. rewrite Z.add_0_l.
      assert (0 < 2 ^ (- e')) by (apply pow2_pos; lia). nia.
Qed.

(** Dividing a double below 2^k by a double that is at least 1 gives a
    double that is at most 2^k. *)
Lemma SFdiv_at_most : forall k mx ex my ey, -1074 <= k <= 971 ->
  under k (Zpos mx) ex -> at_least 0 (Zpos my) ey ->
  SFdiv prec emax (S754_finite false mx ex) (S754_finite false my ey) = S754_zero false \/
  exists m e,
    SFdiv prec emax (S754_finite false mx ex) (S754_finite false my ey) = S754_finite false m e /\
    at_most k (Zpos m) e.
Proof.
  intros k mx ex my ey Hk [Hex Hx] Hy. cbn [SFdiv xorb].
  destruct (SFdiv_core_binary prec emax (Zpos mx) ex (Zpos my) ey) as [[q e'] l] eqn:Ec.
  apply SFdiv_core_binary_spec in Ec. destruct Ec as [He' Hq].
  pose proof (at_least_digits Hy) as Hmag. cbn [Zdigits2] in Hmag.
  destruct Hy as [_ Hy].
  pose proof (digits2_pos_bounds mx) as Bx.
  set (dx := Zpos (digits2_pos mx)) in *. set (dy := Zpos (digits2_pos my)) in *.
  assert (Hdx : dx + ex <= k).
  { assert (dx - 1 < k - ex) by (apply pow2_lt_inv; lia). lia. }
  set (s := ex - ey - e') in *.
  assert (Hs : 0 <= s) by (unfold s; lia).
  assert (He'k : e' <= k) by lia.
  apply binary_round_aux_at_most; [assumption | subst q; apply Z.div_pos; [| lia] |].
  - pose proof (pow2_pos Hs). lia.
  - split; [assumption |]. subst q.
    apply Z.div_lt_upper_bound; [lia |].
    assert (Hp1 : 0 < 2 ^ s) by (apply pow2_pos; lia).
    assert (Hp2 : 0 < 2 ^ (k - e')) by (apply pow2_pos; lia).
    assert (Hlt : Zpos mx * 2 ^ s < 2 ^ (k - ex) * 2 ^ s) by nia.
    rewrite <- pow2_split in Hlt by lia.
    destruct (Z_lt_le_dec ey 0) as [Hneg | Hnn].
    + specialize (Hy Hneg). rewrite Z.sub_0_l in Hy.
      assert (Heq : k - ex + s = (- ey) + (k - e')) by (unfold s; lia).
      rewrite Heq, pow2_split in Hlt by lia. nia.
    + assert (Hle : 2 ^ (k - ex + s) <= 2 ^ (k - e')) by (apply pow2_le; unfold s; lia).
      nia.
Qed.

(** A valid double that is at most 8 has an exponent below that of 10, or
    the same exponent and the mantissa of 8 at most. *)
Lemma at_most_8_canonical : forall m e,
  valid_binary (S754_finite false m e) = true -> at_most 3 (Zpos m) e ->
  e < -49 \/ (e = -49 /\ Zpos m <= 4503599627370496).
Proof.
  intros m e V [He Hm]. apply valid_binary_finite in V. destruct V as [Hc _].
  pose proof (digits2_pos_bounds m) as B.
  destruct (Z.compare_spec (-49) e) as [Heq | Hlt | Hgt]; [| | left; lia].
  - subst e. right. split; [reflexivity |].
    change (2 ^ (3 - -49)) with 4503599627370496 in Hm. exact Hm.
  - exfalso. assert (Hd : Zpos (digits2_pos m) = 53) by lia.
    rewrite Hd in B. change (2 ^ (53 - 1)) with 4503599627370496 in B.
    assert (2 ^ (3 - e) <= 2 ^ 51) by (apply pow2_le; lia).
    change (2 ^ 51) with 2251799813685248 in *. lia.
Qed.

Lemma SFcompare_Lt : forall m1 e1 m2 e2,
  e1 < e2 \/ (e1 = e2 /\ Zpos m1 < Zpos m2) ->
  SFcompare (S754_finite false m1 e1) (S754_finite false m2 e2) = Some Lt.
Proof.
  intros m1 e1 m2 e2 H. cbn [SFcompare].
  destruct H as [H | [-> H]].
  - apply Z.compare_lt_iff in H. rewrite H. reflexivity.
  - rewrite Z.compare_refl. f_equal. exact H.
Qed.

Lemma SFcompare_Gt : forall m1 e1 m2 e2,
  e2 < e1 \/ (e1 = e2 /\ Zpos m2 < Zpos m1) ->
  SFcompare (S754_finite false m1 e1) (S754_finite false m2 e2) = Some Gt.
Proof.
  intros m1 e1 m2 e2 H. cbn [SFcompare].
  destruct H as [H | [-> H]].
  - apply Z.compare_gt_iff in H. rewrite H. reflexivity.
  - rewrite Z.compare_refl. f_equal. apply Z.lt_gt in H. exact H.
Qed.

(** The doubles 7.5 ([maxWidth]), 10 ([maxHeight]), 11, 0.5 and 2. *)
Lemma maxWidth_double :
  Prim2SF QRCodeGenerator.maxWidth = S754_finite false 8444249301319680 (-50).
Proof. vm_compute. reflexivity. Qed.

Lemma maxHeight_double :
  Prim2SF QRCodeGenerator.maxHeight = S754_finite false 5629499534213120 (-49).
Proof. vm_compute. reflexivity. Qed.

Lemma pageHeight_double :
  Prim2SF QRCodeGenerator.pageHeight = S754_finite false 6192449487634432 (-49).
Proof. vm_compute. reflexivity. Qed.

Lemma margin_double :
  Prim2SF QRCodeGenerator.margin = S754_finite false 4503599627370496 (-53).
Proof. vm_compute. reflexivity. Qed.

Lemma two_double : Prim2SF 2%float = S754_finite false 4503599627370496 (-51).
Proof. vm_compute. reflexivity. Qed.

(** For doubles w > h > 0, 7.5 / (w / h) is zero (when w is infinite) or a
    positive double that is at most 8. *)
Lemma SF_landscape_height : forall sw sh,
  valid_binary sw = true -> valid_binary sh = true ->
  SFltb (S754_zero false) sh = true -> SFltb sh sw = true ->
  let t := SFdiv prec emax (S754_finite false 8444249301319680 (-50))
                 (SFdiv prec emax sw sh) in
  t = S754_zero false \/
  exists m e, t = S754_finite false m e /\ at_most 3 (Zpos m) e.
Proof.
  intros sw sh Vw Vh Hpos Hlt.
  destruct sh as [sh | sh | | sh mh eh]; try discriminate Hpos.
  - (* h infinite: nothing is above it *)
    destruct sh; [discriminate Hpos |].
    destruct sw as [? | [|] | | [|] ? ?]; discriminate Hlt.
  - destruct sh; [discriminate Hpos |].
    destruct sw as [sw | sw | | sw mw ew]; try discriminate Hlt.
    + destruct sw; [discriminate Hlt | left; reflexivity].
    + destruct sw; [discriminate Hlt |].
      apply SFltb_finite in Hlt.
      assert (Hle : eh < ew \/ (eh = ew /\ Zpos mh <= Zpos mw)) by lia.
      destruct (@SFdiv_at_least mw ew mh eh Vw Vh Hle) as [Hr | [mr [er [Hr Hone]]]];
        rewrite Hr; [left; reflexivity |].
      assert (Hk : -1074 <= 3 <= 971) by lia.
      assert (H75 : under 3 (Zpos 8444249301319680) (-50))
        by (split; [lia | change (2 ^ (3 - -50)) with 9007199254740992; lia]).
      exact (@SFdiv_at_most 3 _ _ _ _ Hk H75 Hone).
Qed.

Lemma iter_xO_pow2 : forall d m, Zpos (Pos.iter xO m d) = Zpos m * 2 ^ Zpos d.
Proof.
  induction d as [| d IH] using Pos.peano_ind; intros m.
  - cbn [Pos.iter]. change (2 ^ 1) with 2. lia.
  - rewrite Pos.iter_succ.
    change (Zpos (Pos.iter xO m d)~0) with (2 * Zpos (Pos.iter xO m d)).
    rewrite IH, Pos2Z.inj_succ, Z.pow_succ_r by lia. ring.
Qed.

Lemma shl_align_spec : forall mx ex ex',
  snd (shl_align mx ex ex') = Z.min ex ex' /\
  Zpos (fst (shl_align mx ex ex')) = Zpos mx * 2 ^ (ex - Z.min ex ex').
Proof.
  intros mx ex ex'. unfold shl_align.
  destruct (ex' - ex) as [| d | d] eqn:Ed; cbn [fst snd].
  - replace (Z.min ex ex') with ex by lia. rewrite Z.sub_diag. cbn. lia.
  - replace (Z.min ex ex') with ex by lia. rewrite Z.sub_diag. cbn. lia.
  - replace (Z.min ex ex') with ex' by lia. split; [reflexivity |].
    rewrite iter_xO_pow2. f_equal. f_equal. lia.
Qed.

(** 11 less a double that is at most 8 is at least 2. *)
Lemma SFsub_pageHeight_at_least : forall mt et,
  at_most 3 (Zpos mt) et ->
  let d := SFsub prec emax (S754_finite false 6192449487634432 (-49))
                 (S754_finite false mt et) in
  d = S754_infinity false \/
  exists m e, d = S754_finite false m e /\ at_least 1 (Zpos m) e.
Proof.
  intros mt et [Het Hmt]. cbn [SFsub cond_Zopp].
  set (ez := Z.min (-49) et).
  destruct (shl_align_spec 6192449487634432 (-49) ez) as [_ E11].
  destruct (shl_align_spec mt et ez) as [_ Et].
  replace (Z.min (-49) ez) with ez in E11 by (unfold ez; lia).
  replace (Z.min et ez) with ez in Et by (unfold ez; lia).
  rewrite E11, Et.
  assert (Hez : ez <= -49) by (unfold ez; lia).
  set (a := -49 - ez) in *.
  assert (Ha : 0 <= a) by (unfold a; lia).
  assert (Hpa : 0 < 2 ^ a) by (apply pow2_pos; assumption).
  assert (Ht8 : Zpos mt * 2 ^ (et - ez) <= 4503599627370496 * 2 ^ a).
  { apply Z.le_trans with (2 ^ (3 - et) * 2 ^ (et - ez)).
    - apply Z.mul_le_mono_nonneg_r; [apply Z.lt_le_incl, pow2_pos; unfold ez; lia | assumption].
    - rewrite <- pow2_split by (unfold ez; lia).
      replace (3 - et + (et - ez)) with (52 + a) by (unfold a; lia).
      rewrite pow2_split by lia. reflexivity. }
  set (D := 6192449487634432 * 2 ^ a - Zpos mt * 2 ^ (et - ez)) in *.
  assert (HD : 1688849860263936 * 2 ^ a <= D) by (unfold D; lia).
  assert (HD1 : 2 ^ (1 - ez) <= D).
  { replace (1 - ez) with (50 + a) by (unfold a; lia).
    rewrite pow2_split by lia. change (2 ^ 50) with 1125899906842624. lia. }
  destruct D as [| dp | dp] eqn:ED; try lia.
  cbn [binary_normalize]. unfold binary_round.
  destruct (shl_align_spec dp ez (fexp prec emax (Zpos (digits2_pos dp) + ez))) as [Es Em].
  destruct (shl_align dp ez (fexp prec emax (Zpos (digits2_pos dp) + ez))) as [mz ez'].
  cbn [fst snd] in Es, Em.
  apply binary_round_aux_at_least; [lia |].
  split; [lia |]. intros Hlow. rewrite Em, <- Es.
  apply Z.le_trans with (2 ^ (1 - ez) * 2 ^ (ez - ez')).
  - rewrite <- pow2_split by lia. apply pow2_le. lia.
  - apply Z.mul_le_mono_nonneg_r; [apply Z.lt_le_incl, pow2_pos; lia | assumption].
Qed.

(** Half of 11 less a double between 0 and 8 is at least 0.5. *)
Lemma SF_landscape_offset : forall t,
  (t = S754_zero false \/
   exists m e, t = S754_finite false m e /\ at_most 3 (Zpos m) e) ->
  let d := SFsub prec emax (S754_finite false 6192449487634432 (-49)) t in
  let y := SFdiv prec emax d (S754_finite false 4503599627370496 (-51)) in
  valid_binary d = true -> valid_binary y = true ->
  SFleb (S754_finite false 4503599627370496 (-53)) y = true.
Proof.
  intros t [-> | (mt & et & -> & Hmost)] d y Vd Vy; [vm_compute; reflexivity |].
  subst y.
  destruct (@SFsub_pageHeight_at_least mt et Hmost) as [Hd | (m0 & e0 & Hd & H0)];
    fold d in Hd; rewrite Hd in *; [reflexivity |].
  pose proof (at_least_digits H0) as Hmag0. cbn [Zdigits2] in Hmag0.
  pose proof (valid_binary_finite _ _ _ Vd) as [Hc0 _].
  assert (Hge : -51 < e0 \/ (-51 = e0 /\ 4503599627370496 <= Zpos m0)).
  { destruct (Z_lt_le_dec (-51) e0) as [Hlt | Hle]; [left; assumption | right].
    assert (e0 = -51) by lia. subst e0. split; [reflexivity |].
    destruct H0 as [_ H0]. apply H0. lia. }
  destruct (@SFdiv_at_least m0 e0 4503599627370496 (-51) Vd eq_refl Hge)
    as [Hy | (my & ey & Hy & H1)]; rewrite Hy in *; [reflexivity |].
  pose proof (at_least_digits H1) as Hmag1. cbn [Zdigits2] in Hmag1.
  pose proof (valid_binary_finite _ _ _ Vy) as [Hc1 _].
  unfold SFleb. rewrite SFcompare_Lt; [reflexivity | left; lia].
Qed.

End DoubleFacts.

Section PlacementClaims.

Import QRCodeGenerator Binary64.
Open Scope float_scope.

(** An image wider than tall, scaled to the width between the margins, has
    a height between 0 and the height between the margins: the branch
    [height > maxHeight] is not taken. *)
Lemma landscape_height (w h : float) :
  (0 <? h) = true -> (h <? w) = true ->
  let height0 := maxWidth / (w / h) in
  (maxHeight <? height0) = false /\
  (height0 <=? maxHeight) = true /\
  (0 <=? height0) = true.
Proof.
  intros Hpos Hlt height0. subst height0.
  rewrite ltb_spec in Hpos, Hlt.
  pose proof (Prim2SF_valid (maxWidth / (w / h))) as Vt.
  rewrite ltb_spec, !leb_spec. rewrite !div_spec in Vt |- *.
  rewrite maxWidth_double, maxHeight_double in *.
  change (Prim2SF 0) with (S754_zero false) in *.
  destruct (@SF_landscape_height (Prim2SF w) (Prim2SF h)
              (Prim2SF_valid w) (Prim2SF_valid h) Hpos Hlt)
    as [Ht | (m & e & Ht & Hmost)];
    unfold SF64div in *; rewrite Ht in *; [repeat split; reflexivity |].
  unfold SFltb, SFleb.
  rewrite (@SFcompare_Gt 5629499534213120 (-49) m e),
          (@SFcompare_Lt m e 5629499534213120 (-49)).
  - repeat split; reflexivity.
  - destruct (@at_most_8_canonical m e Vt Hmost) as [He | [He Hm]];
      [left; exact He | right; split; [exact He | clear - Hm; lia]].
  - destruct (@at_most_8_canonical m e Vt Hmost) as [He | [He Hm]];
      [left; exact He | right; split; [symmetry; exact He | clear - Hm; lia]].
Qed.

(** Half of what the page has left above and below such an image is at
    least the margin. *)
Lemma landscape_offset (w h : float) :
  (0 <? h) = true -> (h <? w) = true ->
  (margin <=? (pageHeight - maxWidth / (w / h)) / 2) = true.
Proof.
  intros Hpos Hlt. rewrite ltb_spec in Hpos, Hlt.
  pose proof (Prim2SF_valid (pageHeight - maxWidth / (w / h))) as Vd.
  pose proof (Prim2SF_valid ((pageHeight - maxWidth / (w / h)) / 2)) as Vy.
  rewrite leb_spec.
  rewrite div_spec, sub_spec, !div_spec in Vy |- *.
  rewrite sub_spec, !div_spec in Vd.
  rewrite maxWidth_double, pageHeight_double, two_double in *.
  rewrite margin_double.
  change (Prim2SF 0) with (S754_zero false) in *.
  apply SF_landscape_offset; [| exact Vd | exact Vy].
  apply SF_landscape_height; try assumption; apply Prim2SF_valid.
Qed.

(** C8: for an image wider than tall the placement has width 7.5, that is
    the page width less the two margins; its height is that width divided
    by the aspect ratio of the image, as the doubles of the code compute
    it, and lies between 0 and the 10 inches between the margins; the
    offsets are half of what the page has left: exactly the margin left
    and right, and at least the margin above and below. *)
Theorem placement_landscape : forall imgWidth imgHeight : float,
  (0 <? imgHeight) = true -> (imgHeight <? imgWidth) = true ->
  let p := placement imgWidth imgHeight in
  width p = 7.5 /\
  width p = pageWidth - 2 * margin /\
  height p = width p / (imgWidth / imgHeight) /\
  (0 <=? height p) = true /\
  (height p <=? maxHeight) = true /\
  x p = (pageWidth - width p) / 2 /\
  y p = (pageHeight - height p) / 2 /\
  x p = margin /\
  x p + width p + x p = pageWidth /\
  (margin <=? y p) = true.
Proof.
  intros w h Hpos Hlt p. subst p. unfold placement.
  destruct (@landscape_height w h Hpos Hlt) as (Hcap & Hfit & Hnn).
  pose proof (@landscape_offset w h Hpos Hlt) as Hy.
  rewrite Hcap. cbn [x y width height].
  repeat split; try reflexivity; assumption.
Qed.

Lemma placement_landscape_witness :
  let p := placement 1200 800 in
  width p = 7.5 /\ height p = 5 /\ x p = 0.5 /\ y p = 3.
Proof.
  destruct (@placement_landscape 1200 800 eq_refl eq_refl)
    as (Hw & _).
  split; [exact Hw |]. repeat split; reflexivity.
Defined.

Local Set Warnings "-inexact-float".

(** The height is the double the division rounds to: for a 900 x 700
    image it is 5.833333333333333. *)
Example placement_rounded :
  placement 900 700 = mkPlacement 0.5 2.5833333333333335 7.5 5.833333333333333.
Proof. reflexivity. Qed.

(** A taller image is capped by the height between the margins instead. *)
Example placement_portrait :
  placement 800 1600 = mkPlacement 1.75 0.5 5 10.
Proof. reflexivity. Qed.

End PlacementClaims.

(** * Further properties of the code *)

(** ** The EIN field while typing *)

Section EinTyping.

Import JsString Regex UserForm FormEvents.
Open Scope string_scope.

Lemma replace_non_digits_app (a b : string) :
  replace_non_digits (a ++ b) = replace_non_digits a ++ replace_non_digits b.
Proof.
  induction a as [|c a IH]; simpl; [reflexivity |].
  destruct (is_digit c); simpl; rewrite IH; reflexivity.
Qed.

Lemma substring_0_app n : forall x y : string,
  substring 0 n (substring 0 n x ++ y) = substring 0 n (x ++ y).
Proof.
  induction n as [|n IH]; intros x y.
  - destruct (substring 0 0 x ++ y), (x ++ y); reflexivity.
  - destruct x as [|c x]; simpl; [reflexivity |].
    rewrite IH. reflexivity.
Qed.

(** Only the first nine digits matter to the layout. *)
Lemma layout_first_nine digits : layout (substring 0 9 digits) = layout digits.
Proof.
  unfold layout, slice.
  destruct digits as [|c1 [|c2 [|c3 [|c4 [|c5 [|c6 [|c7 [|c8 [|c9 r]]]]]]]]];
    try reflexivity.
  destruct r; reflexivity.
Qed.

(** X1: formatting what is on screen followed by new keystrokes gives the
    same as formatting everything typed at once. *)
Theorem formatEIN_incremental : forall shown typed : string,
  formatEIN (formatEIN shown ++ typed) = formatEIN (shown ++ typed).
Proof.
  intros shown typed.
  change (layout (replace_non_digits (formatEIN shown ++ typed)) =
          layout (replace_non_digits (shown ++ typed))).
  rewrite !replace_non_digits_app, formatEIN_digits. unfold slice. simpl.
  rewrite <- layout_first_nine.
  rewrite <- (layout_first_nine (replace_non_digits shown ++ _)).
  rewrite substring_0_app. reflexivity.
Qed.

(** X2: a well-formed EIN goes through [formatEIN] unchanged, and the
    change handler stores it without raising the EIN error. *)
Theorem formatEIN_keeps_valid : forall (value : string) (st : State),
  test einRegex value = true ->
  formatEIN value = value /\
  ein (formData (handleChange "ein" value st)) = value /\
  einError (handleChange "ein" value st) = "".
Proof.
  intros value st Hv.
  assert (Hf : formatEIN value = value).
  { apply einRegex_spec in Hv as (a & b & rest & -> & Ha & Hb & Hl & Hr).
    unfold formatEIN. simpl. rewrite Ha, Hb.
    rewrite (replace_non_digits_fixed _ Hr).
    destruct rest as [|c rest]; [discriminate |].
    unfold slice. simpl. rewrite prefix_length_0; [reflexivity |].
    simpl in Hl. lia. }
  split; [exact Hf |].
  rewrite handleChange_ein, validateEIN_formData, validateEIN_einError, Hf.
  rewrite Hv. split; [reflexivity |]. rewrite andb_false_r. reflexivity.
Qed.

Lemma formatEIN_keeps_valid_witness :
  formatEIN "12-3456789" = "12-3456789" /\
  einError (handleChange "ein" "12-3456789" initial) = "".
Proof.
  destruct (@formatEIN_keeps_valid "12-3456789" initial eq_refl)
    as (H1 & _ & H3).
  split; assumption.
Defined.

End EinTyping.

(** ** What the form submits, and what its errors show *)

Section FormFacts.

Import JsString Regex UserForm FormEvents Shapes.
Open Scope string_scope.

Lemma validateEmail_result e st :
  validateEmail e st =
  (test emailRegex e,
   setEmailError
     (if test emailRegex e then ""
      else if truthy e then "Please enter a valid email address"
           else "Email is required") st).
Proof.
  unfold validateEmail.
  destruct e as [|c e].
  - reflexivity.
  - simpl truthy. cbn [negb]. destruct (test emailRegex (String c e)); reflexivity.
Qed.

Lemma validateEIN_result e st :
  validateEIN e st =
  (negb (truthy e) || test einRegex e,
   setEinError
     (if truthy e && negb (test einRegex e)
      then "EIN must be in format: XX-XXXXXXX" else "") st).
Proof.
  unfold validateEIN.
  destruct (truthy e); simpl; [| reflexivity].
  destruct (test einRegex e); reflexivity.
Qed.

(** X3: the form calls [onSubmit] exactly when the email has the shape
    [local@domain.tld] and the EIN is blank or of the form NN-NNNNNNN; the
    payload then carries the fields as typed, with a blank EIN left out. *)
Theorem handleSubmit_payload : forall st : State,
  let fd := formData st in
  (email_shape (email fd) /\
   (ein fd = "" \/ test einRegex (ein fd) = true) ->
   snd (handleSubmit st) =
   Some (mkSubmitData (name fd) (email fd) (organization fd)
                      (if truthy (ein fd) then Some (ein fd) else None))) /\
  (forall d,
      snd (handleSubmit st) = Some d ->
      email_shape (sd_email d) /\
      sd_name d = name fd /\ sd_email d = email fd /\
      sd_organization d = organization fd /\
      sd_ein d <> Some "" /\
      (forall e, sd_ein d = Some e -> e = ein fd /\ test einRegex e = true) /\
      (sd_ein d = None -> ein fd = "")).
Proof.
  intros st fd. subst fd. unfold handleSubmit.
  rewrite validateEmail_result, validateEIN_result.
  destruct (formData st) as [n e o i]. simpl.
  split.
  - intros [He Hi]. apply emailRegex_spec in He. rewrite He. simpl.
    destruct Hi as [-> | Hi]; [reflexivity |].
    rewrite Hi, orb_true_r. reflexivity.
  - intros d.
    destruct (test emailRegex e) eqn:He; simpl; [| discriminate].
    apply emailRegex_spec in He.
    destruct i as [|c i]; simpl.
    + intros H. injection H as <-. simpl.
      split; [exact He |]. do 4 (split; [auto; discriminate |]).
      split; [intros x Hx; discriminate | reflexivity].
    + destruct (test einRegex (String c i)) eqn:Hi; simpl; [| discriminate].
      intros H. injection H as <-. simpl.
      split; [exact He |]. do 4 (split; [auto; discriminate |]).
      split; [| discriminate].
      intros x Hx. injection Hx as <-. auto.
Qed.

Lemma handleSubmit_payload_witness :
  let st := handleChange "email" "ana@helping.org"
              (handleChange "name" "Ana" initial) in
  snd (handleSubmit st) = Some (mkSubmitData "Ana" "ana@helping.org" "" None).
Proof.
  intros st.
  apply (proj1 (handleSubmit_payload st)). split.
  - apply emailRegex_spec. vm_compute. reflexivity.
  - left. reflexivity.
Defined.

Lemma einError_iff e :
  (if truthy e && negb (test einRegex e)
   then "EIN must be in format: XX-XXXXXXX" else "") = "" <->
  e = "" \/ test einRegex e = true.
Proof.
  destruct e as [|c e]; simpl.
  - split; auto.
  - destruct (test einRegex (String c e)); simpl; split; auto;
      try discriminate.
    intros [H | H]; discriminate.
Qed.

Lemma set_field_other field value fd :
  (field =? "ein") = false ->
  ein (set_field field value fd) = ein fd /\
  ((field =? "email") = false -> email (set_field field value fd) = email fd).
Proof.
  intros Hn. unfold set_field. rewrite Hn.
  destruct (field =? "name"); [simpl; auto |].
  destruct (field =? "email"); [simpl; split; [reflexivity | discriminate] |].
  destruct (field =? "organization"); simpl; auto.
Qed.

(** The state [handleSubmit] leaves: the email is validated, and the EIN
    only once the email passed. *)
Lemma handleSubmit_state st :
  fst (handleSubmit st) =
  let fd := formData st in
  if test emailRegex (email fd)
  then setEinError
         (if truthy (ein fd) && negb (test einRegex (ein fd))
          then "EIN must be in format: XX-XXXXXXX" else "")
         (setEmailError "" st)
  else setEmailError
         (if truthy (email fd) then "Please enter a valid email address"
          else "Email is required") st.
Proof.
  unfold handleSubmit. rewrite validateEmail_result, validateEIN_result.
  destruct (test emailRegex (email (formData st))); simpl; [| reflexivity].
  destruct (negb (truthy (ein (formData st))) ||
            test einRegex (ein (formData st))); reflexivity.
Qed.

Lemma handle_settled e st : settled st -> settled (handle e st).
Proof.
  unfold settled. cbv zeta. intros (Hfix & Hein & Hem1 & Hem2).
  destruct e as [field value |]; simpl.
  - unfold handleChange.
    destruct (field =? "ein") eqn:Efield.
    + apply String.eqb_eq in Efield as ->.
      rewrite validateEIN_result. simpl.
      rewrite formatEIN_fixed. split; [reflexivity |].
      split; [apply einError_iff |]. auto.
    + destruct (set_field_other field value (formData st) Efield)
        as [Hkeep Hmail].
      destruct (field =? "email") eqn:Email.
      * apply String.eqb_eq in Email as ->.
        rewrite validateEmail_result. simpl.
        split; [exact Hfix |]. split; [exact Hein |].
        destruct value as [|c value]; simpl.
        -- split; [discriminate | discriminate].
        -- destruct (test emailRegex (String c value)); split; auto;
             discriminate.
      * simpl. rewrite Hkeep, (Hmail eq_refl). auto.
  - rewrite handleSubmit_state. cbv zeta.
    destruct (test emailRegex (email (formData st))) eqn:He;
      unfold setEinError, setEmailError; cbn [formData emailError einError].
    + rewrite He. split; [exact Hfix |]. split; [apply einError_iff |]. auto.
    + rewrite He. split; [exact Hfix |]. split; [exact Hein |].
      split; [intros H; discriminate H |].
      destruct (truthy (email (formData st))); simpl; intros H;
        discriminate H.
Qed.

(** X4: after any sequence of edits and submissions, the stored EIN is in
    the layout [formatEIN] gives, the EIN error is shown exactly when the
    stored EIN is neither blank nor of the form NN-NNNNNNN, no email error
    is shown for a well-formed email, and a malformed non-empty email is
    never without its error. *)
Theorem form_errors_track_fields : forall events : list Event,
  let st := handle_all events initial in
  let fd := formData st in
  formatEIN (ein fd) = ein fd /\
  (einError st = "" <-> ein fd = "" \/ test einRegex (ein fd) = true) /\
  (email_shape (email fd) -> emailError st = "") /\
  (emailError st = "" -> email fd = "" \/ email_shape (email fd)).
Proof.
  intros events st fd.
  assert (H : settled st).
  { subst st. unfold handle_all.
    assert (G : forall l s, settled s ->
                settled (fold_left (fun st e => handle e st) l s)).
    { induction l as [|e l IH]; simpl; intros s Hs; [exact Hs |].
      apply IH, handle_settled, Hs. }
    apply G. unfold settled. simpl.
    repeat split; auto; discriminate. }
  destruct H as (H1 & H2 & H3 & H4). fold fd in H1, H2, H3, H4.
  split; [exact H1 |]. split; [exact H2 |]. split.
  - intros Hs. apply H3, emailRegex_spec, Hs.
  - intros He. destruct (H4 He) as [E | E]; [left; exact E |].
    right. apply emailRegex_spec, E.
Qed.

End FormFacts.

(** ** The logo widget and its parent *)

Section LogoFacts.

Import JsString LogoUpload LogoEvents.
Open Scope string_scope.

Variable imageCompression : File -> Options -> option File.
Variable readAsDataURL : File -> option string.

Lemma passes_checks_true file :
  passes_checks file = true ->
  prefix "image/" (type file) = true /\
  (size file <= 5 * 1024 * 1024)%Z /\
  exists w h, natural file = Some (w, h) /\
              (100 <= w <= 2000)%Z /\ (100 <= h <= 2000)%Z.
Proof.
  unfold passes_checks. intros H.
  apply andb_true_iff in H as [H Hn]. apply andb_true_iff in H as [Ht Hs].
  apply Z.leb_le in Hs.
  destruct (natural file) as [[w h] |]; [| discriminate].
  apply andb_true_iff in Hn as [Hn H4]. apply andb_true_iff in Hn as [Hn H3].
  apply andb_true_iff in Hn as [H1 H2].
  apply Z.leb_le in H1, H2, H3, H4.
  repeat split; auto. exists w, h. repeat split; auto.
Qed.

Lemma passes_checks_false file st :
  passes_checks file = false ->
  snd (processImage imageCompression readAsDataURL file st) = [] /\
  truthy (error (fst (processImage imageCompression readAsDataURL file st)))
  = true /\
  preview (fst (processImage imageCompression readAsDataURL file st))
  = preview st /\
  isDragging (fst (processImage imageCompression readAsDataURL file st))
  = isDragging st.
Proof.
  unfold passes_checks, processImage. intros H.
  destruct (prefix "image/" (type file)); cbn [negb andb] in *;
    [| simpl; auto].
  rewrite Z.gtb_ltb.
  destruct (Z.leb_spec (size file) (5 * 1024 * 1024)) as [Hs | Hs];
    cbn [andb] in H.
  - replace (5 * 1024 * 1024 <? size file)%Z with false
      by (symmetry; apply Z.ltb_ge; exact Hs).
    unfold validateImage.
    destruct (natural file) as [[w h] |]; [| simpl; auto].
    rewrite !Z.gtb_ltb.
    destruct (Z.leb_spec 100 w), (Z.leb_spec w 2000),
      (Z.leb_spec 100 h), (Z.leb_spec h 2000); try discriminate;
      repeat match goal with
             | |- context [(?a <? ?b)%Z] =>
                 destruct (Z.ltb_spec a b); try lia
             end; simpl; auto.
  - replace (5 * 1024 * 1024 <? size file)%Z with true
      by (symmetry; apply Z.ltb_lt; exact Hs).
    simpl. auto.
Qed.

(** A file that passes the checks: what happens depends on the
    compression only. *)
Lemma processImage_passing file st :
  passes_checks file = true ->
  processImage imageCompression readAsDataURL file st =
  match imageCompression file options with
  | Some compressed =>
      (setPreview (readAsDataURL compressed) (setError "" st),
       [readAsDataURL compressed])
  | None => (setError "Error processing image" (setError "" st), [])
  end.
Proof.
  intros H.
  destruct (passes_checks_true _ H) as (Ht & Hs & w & h & Hn & Hw & Hh).
  destruct (imageCompression file options) as [compressed |] eqn:Hc.
  - apply (processImage_accepts imageCompression readAsDataURL file st
             Ht Hs Hn Hw Hh Hc).
  - unfold processImage. rewrite Ht. cbn [negb].
    replace (size file >? 5 * 1024 * 1024)%Z with false
      by (symmetry; rewrite Z.gtb_ltb; apply Z.ltb_ge; exact Hs).
    rewrite (validateImage_accepts _ _ Hn Hw Hh). simpl. rewrite Hc.
    reflexivity.
Qed.

(** X5: [onLogoChange] is called at most once per file, and exactly when
    the file has an image MIME type, is no larger than 5 MB, decodes to a
    width and height between 100 and 2000 (bounds included), and the
    compression succeeds; it then receives what the reader produced, which
    also becomes the preview.  When the compression fails the error
    [Error processing image] is shown and the earlier preview stays. *)
Theorem processImage_callback : forall (file : File) (st : State),
  let r := processImage imageCompression readAsDataURL file st in
  length (snd r) <= 1 /\
  (passes_checks file = true ->
   match imageCompression file options with
   | Some compressed =>
       snd r = [readAsDataURL compressed] /\
       preview (fst r) = readAsDataURL compressed /\
       error (fst r) = ""
   | None =>
       snd r = [] /\ preview (fst r) = preview st /\
       error (fst r) = "Error processing image"
   end) /\
  (passes_checks file = false ->
   snd r = [] /\ preview (fst r) = preview st /\
   truthy (error (fst r)) = true).
Proof.
  intros file st r. subst r.
  destruct (passes_checks file) eqn:Hp.
  - rewrite (processImage_passing file st Hp).
    destruct (imageCompression file options); simpl;
      (split; [lia |]); (split; [auto | discriminate]).
  - destruct (passes_checks_false file st Hp) as (Hc & He & Hv & _).
    rewrite Hc. simpl.
    split; [lia |]. split; [discriminate | auto].
Qed.

(** One intake step: either nothing is reported and the preview stays, or
    one value is reported and it is the new preview. *)
Lemma processImage_reports file st :
  let r := processImage imageCompression readAsDataURL file st in
  isDragging (fst r) = isDragging st /\
  ((snd r = [] /\ preview (fst r) = preview st) \/
   (exists v, snd r = [v] /\ preview (fst r) = v)).
Proof.
  intros r. subst r.
  destruct (passes_checks file) eqn:Hp.
  - rewrite (processImage_passing file st Hp).
    destruct (imageCompression file options) as [compressed |]; simpl.
    + split; [reflexivity |]. right. eauto.
    + split; [reflexivity |]. left. auto.
  - destruct (passes_checks_false file st Hp) as (Hc & _ & Hv & Hd).
    split; [exact Hd |]. left. auto.
Qed.

Lemma handle_in_sync e m :
  logo m = preview (widget m) ->
  logo (handle imageCompression readAsDataURL e m) =
  preview (widget (handle imageCompression readAsDataURL e m)).
Proof.
  intros Hm. destruct e as [type | files | file |]; simpl.
  - unfold handleDrag.
    destruct ((type =? "dragenter") || (type =? "dragover"));
      [exact Hm |].
    destruct (type =? "dragleave"); exact Hm.
  - unfold handleDrop. destruct files as [|file rest]; [exact Hm |].
    destruct (processImage_reports file (setIsDragging false (widget m)))
      as [_ [[Hc Hp] | (v & Hc & Hp)]];
      destruct (processImage imageCompression readAsDataURL file
                  (setIsDragging false (widget m))) as [st calls];
      simpl in *; subst calls; simpl; congruence.
  - unfold handleFileInput. destruct file as [file |]; [| exact Hm].
    destruct (processImage_reports file (widget m))
      as [_ [[Hc Hp] | (v & Hc & Hp)]];
      destruct (processImage imageCompression readAsDataURL file (widget m))
        as [st calls];
      simpl in *; subst calls; simpl; congruence.
  - reflexivity.
Qed.

(** X6: after any sequence of drags, drops, file selections and removals,
    the logo held by the parent is the preview shown by the widget; a drop
    always ends the dragging highlight, and a removal clears the logo, the
    preview and the error. *)
Theorem logo_follows_preview : forall (events : list Event),
  let m := handle_all imageCompression readAsDataURL events mounted in
  logo m = preview (widget m) /\
  (forall files,
      isDragging
        (widget (handle imageCompression readAsDataURL (Drop files) m))
      = false) /\
  handle imageCompression readAsDataURL Remove m
  = mkMounted (mkState (isDragging (widget m)) "" None) None.
Proof.
  intros events m. split; [| split].
  - subst m. unfold handle_all.
    assert (G : forall l s, logo s = preview (widget s) ->
                logo (fold_left
                        (fun m e => handle imageCompression readAsDataURL e m)
                        l s) =
                preview (widget
                           (fold_left
                              (fun m e =>
                                 handle imageCompression readAsDataURL e m)
                              l s))).
    { induction l as [|e l IH]; simpl; intros s Hs; [exact Hs |].
      apply IH, handle_in_sync, Hs. }
    apply G. reflexivity.
  - intros files. simpl. unfold handleDrop.
    destruct files as [|file rest]; [reflexivity |].
    destruct (processImage_reports file (setIsDragging false (widget m)))
      as [Hd _].
    destruct (processImage imageCompression readAsDataURL file
                (setIsDragging false (widget m))) as [st calls].
    simpl in *. exact Hd.
  - reflexivity.
Qed.

End LogoFacts.

Lemma processImage_callback_witness :
  let compress := fun (f : LogoUpload.File) (_ : LogoUpload.Options) =>
    if (LogoUpload.size f <? 1024)%Z then None else Some f in
  let read := fun _ : LogoUpload.File => Some "data:,"%string in
  snd (LogoUpload.processImage compress read
         (LogoUpload.mkFile "image/png" (5 * 1024 * 1024)
                            (Some (100, 2000)%Z))
         LogoUpload.initial) = [Some "data:,"%string] /\
  LogoUpload.error
    (fst (LogoUpload.processImage compress read
            (LogoUpload.mkFile "image/png" 512 (Some (100, 2000)%Z))
            LogoUpload.initial)) = "Error processing image"%string /\
  snd (LogoUpload.processImage compress read
         (LogoUpload.mkFile "image/png" 4096 (Some (99, 2000)%Z))
         LogoUpload.initial) = [].
Proof.
  intros compress read. split; [| split].
  - apply (proj1 (proj2 (processImage_callback compress read
             (LogoUpload.mkFile "image/png" (5 * 1024 * 1024)
                                (Some (100, 2000)%Z))
             LogoUpload.initial)) eq_refl).
  - apply (proj1 (proj2 (processImage_callback compress read
             (LogoUpload.mkFile "image/png" 512 (Some (100, 2000)%Z))
             LogoUpload.initial)) eq_refl).
  - apply (proj2 (proj2 (processImage_callback compress read
             (LogoUpload.mkFile "image/png" 4096 (Some (99, 2000)%Z))
             LogoUpload.initial)) eq_refl).
Defined.


(** ** The calls [saveUser] and [updateVisit] send *)

Section SaveUserTraces.

Import JsString Supabase Traces.
Open Scope string_scope.

Context {W : Type} {B : Backend W}.

(** The run of [saveUser] when the lookup finds no row. *)
Lemma saveUser_run_new userData w w1 o w2 :
  users_call (select_of userData) w = (Fulfilled (mkReply None None), w1) ->
  users_call (insert_of userData) w1 = (o, w2) ->
  run (saveUser userData) w =
  match o with
  | Fulfilled (mkReply d None) =>
      match id_of d with
      | Some i =>
          if truthy i then
            let (t, w3) := clock w2 in
            let (v, w4) := visits_call (Upsert i QR_CODE_GENERATOR 1 t) w3 in
            mkRun (Returned d) w4
                  ([UsersCall (select_of userData);
                    UsersCall (insert_of userData);
                    upsert_of i QR_CODE_GENERATOR t] ++
                   match failure_of v with
                   | Some _ => [Logged warn "Visit tracking failed:"]
                   | None => []
                   end)
          else mkRun (Returned d) w2
                     [UsersCall (select_of userData);
                      UsersCall (insert_of userData)]
      | None => mkRun (Returned d) w2
                      [UsersCall (select_of userData);
                       UsersCall (insert_of userData)]
      end
  | Fulfilled (mkReply _ (Some e)) | Rejected e =>
      mkRun (Thrown e) w2
            [UsersCall (select_of userData); UsersCall (insert_of userData);
             saveUser_log]
  end.
Proof.
  unfold select_of, insert_of. intros Hs Hins.
  unfold saveUser. simpl. rewrite Hs. simpl. rewrite Hins.
  destruct o as [[d [e |]] | e]; try reflexivity.
  simpl. destruct (id_of d) as [i |]; [| reflexivity].
  destruct (truthy i) eqn:Hi; [| reflexivity].
  unfold updateVisit. rewrite Hi. simpl.
  destruct (clock w2) as [t w3].
  destruct (visits_call (Upsert i QR_CODE_GENERATOR 1 t) w3) as [v w4].
  destruct v as [[dv [ev |]] | ev]; reflexivity.
Qed.

(** X7: whatever the store answers, [saveUser] starts with the lookup by
    email and then sends nothing more, or one update of the row found, or
    one insert, or one insert followed by one visit upsert for the inserted
    row; it never sends both an update and an insert. *)
Theorem saveUser_calls : forall (userData : UserData) (w : W),
  let calls := store_calls (events (run (saveUser userData) w)) in
  calls = [UsersCall (select_of userData)] \/
  (exists u,
      calls = [UsersCall (select_of userData);
               UsersCall (update_of userData u)]) \/
  calls = [UsersCall (select_of userData); UsersCall (insert_of userData)] \/
  (exists i t,
      calls = [UsersCall (select_of userData); UsersCall (insert_of userData);
               upsert_of i QR_CODE_GENERATOR t]).
Proof.
  intros userData w calls. subst calls.
  destruct (users_call (select_of userData) w) as [o w1] eqn:Hs.
  destruct o as [[[u |] [e |]] | e];
    try (destruct (@saveUser_fetch_failed W B userData w _ w1 Hs) as [x ->];
         [simpl; try discriminate; exact I | left; reflexivity]).
  - destruct (includes (app_ids_or_empty u) QR_CODE_GENERATOR) eqn:Hi.
    + rewrite (saveUser_existing_listed _ _ Hs Hi). left. reflexivity.
    + destruct (users_call (update_of userData u) w1) as [o2 w2] eqn:Hu.
      rewrite (saveUser_existing_unlisted _ _ Hs Hi Hu).
      right; left. exists u. destruct o2 as [[d [e |]] | e]; reflexivity.
  - destruct (users_call (insert_of userData) w1) as [o2 w2] eqn:Hins.
    rewrite (saveUser_run_new _ _ Hs Hins).
    destruct o2 as [[d [e |]] | e]; try (right; right; left; reflexivity).
    destruct (id_of d) as [i |]; [| right; right; left; reflexivity].
    destruct (truthy i); [| right; right; left; reflexivity].
    destruct (clock w2) as [t w3].
    destruct (visits_call (Upsert i QR_CODE_GENERATOR 1 t) w3) as [v w4].
    right; right; right. exists i, t.
    destruct (failure_of v); reflexivity.
Qed.

(** X8: a failed lookup, update or insert makes [saveUser] throw the very
    error the store gave, after logging it once, without sending anything
    further. *)
Theorem saveUser_propagates : forall (userData : UserData) (w : W),
  let r := run (saveUser userData) w in
  (forall o w1 e,
      users_call (select_of userData) w = (o, w1) ->
      failure_of o = Some e ->
      r = mkRun (Thrown e) w1 [UsersCall (select_of userData); saveUser_log]) /\
  (forall u w1 o w2 e,
      users_call (select_of userData) w
      = (Fulfilled (mkReply (Some u) None), w1) ->
      includes (app_ids_or_empty u) QR_CODE_GENERATOR = false ->
      users_call (update_of userData u) w1 = (o, w2) ->
      failure_of o = Some e ->
      r = mkRun (Thrown e) w2
                [UsersCall (select_of userData);
                 UsersCall (update_of userData u); saveUser_log]) /\
  (forall w1 o w2 e,
      users_call (select_of userData) w = (Fulfilled (mkReply None None), w1) ->
      users_call (insert_of userData) w1 = (o, w2) ->
      failure_of o = Some e ->
      r = mkRun (Thrown e) w2
                [UsersCall (select_of userData);
                 UsersCall (insert_of userData); saveUser_log]).
Proof.
  intros userData w r. subst r. split; [| split].
  - intros o w1 e Hs Hf. unfold select_of in Hs.
    unfold saveUser. simpl. rewrite Hs.
    destruct o as [[d err0] | e0]; simpl in Hf |- *.
    + subst err0. reflexivity.
    + injection Hf as ->. reflexivity.
  - intros u w1 o w2 e Hs Hi Hu Hf.
    rewrite (saveUser_existing_unlisted _ _ Hs Hi Hu).
    destruct o as [[d err0] | e0]; simpl in Hf.
    + subst err0. reflexivity.
    + injection Hf as ->. reflexivity.
  - intros w1 o w2 e Hs Hins Hf.
    rewrite (saveUser_run_new _ _ Hs Hins).
    destruct o as [[d err0] | e0]; simpl in Hf.
    + subst err0. reflexivity.
    + injection Hf as ->. reflexivity.
Qed.

(** X9: once the new row is inserted, [saveUser] returns it whatever
    becomes of the visit upsert; the upsert is sent exactly when the
    inserted row carries a non-empty identifier. *)
Theorem saveUser_visit_best_effort : forall (userData : UserData) (w w1 w2 : W)
    (d : option User),
  users_call (select_of userData) w = (Fulfilled (mkReply None None), w1) ->
  users_call (insert_of userData) w1 = (Fulfilled (mkReply d None), w2) ->
  let r := run (saveUser userData) w in
  outcome r = Returned d /\
  existsb is_upsert (events r) = truthy_opt (id_of d) /\
  (forall i t w3,
      id_of d = Some i -> truthy i = true -> clock w2 = (t, w3) ->
      In (upsert_of i QR_CODE_GENERATOR t) (events r)).
Proof.
  intros userData w w1 w2 d Hs Hins r. subst r.
  rewrite (saveUser_run_new _ _ Hs Hins).
  destruct (id_of d) as [i |]; simpl; [| repeat split; intros; discriminate].
  destruct (truthy i) eqn:Hi.
  - destruct (clock w2) as [t w3].
    destruct (visits_call (Upsert i QR_CODE_GENERATOR 1 t) w3) as [v w4].
    simpl. repeat split.
    intros i' t' w3' Hi' _ Hc. injection Hi' as <-. injection Hc as <- _.
    right; right; left. reflexivity.
  - simpl. repeat split. intros i' t' w3' Hi' Ht. injection Hi' as <-.
    congruence.
Qed.

End SaveUserTraces.

Section SaveUserTraceWitnesses.

Import JsString Supabase Store Traces Samples.
Open Scope string_scope.

Lemma saveUser_propagates_witness :
  run (saveUser resubmission) db_timeout =
  mkRun (Thrown (StoreError "timeout"))
        (mkDb [ben; ana] [] "2025-01-15T12:00:00.000Z" [])
        [UsersCall (select_of resubmission); saveUser_log].
Proof.
  apply (proj1 (@saveUser_propagates Db db_backend resubmission db_timeout)
           (Fulfilled (mkReply None (Some (StoreError "timeout"))))
           (mkDb [ben; ana] [] "2025-01-15T12:00:00.000Z" [])
           (StoreError "timeout") eq_refl eq_refl).
Defined.

Lemma saveUser_visit_best_effort_witness :
  exists u,
    outcome (run (saveUser newcomer) db_listed) = Returned (Some u) /\
    email u = "cy@foodbank.org" /\
    existsb is_upsert (events (run (saveUser newcomer) db_listed)) = true.
Proof.
  eexists.
  destruct (@saveUser_visit_best_effort Db db_backend newcomer db_listed
              _ _ _ eq_refl eq_refl) as (Ho & Hu & _).
  split; [exact Ho |]. split; [reflexivity | exact Hu].
Defined.

End SaveUserTraceWitnesses.

(** ** What [saveUser] writes *)

Section SaveUserWrites.

Import JsString Supabase Traces.
Open Scope string_scope.

Context {W : Type} {B : Backend W}.

Lemma or_undefined_not_blank v : or_undefined v <> Some "".
Proof.
  destruct v as [[|c s] |]; simpl; discriminate.
Qed.

(** The queries on the users table a run can contain. *)
Lemma saveUser_users_queries userData w q :
  In (UsersCall q) (events (run (saveUser userData) w)) ->
  q = select_of userData \/
  (exists u, includes (app_ids_or_empty u) QR_CODE_GENERATOR = false /\
             q = update_of userData u) \/
  q = insert_of userData.
Proof.
  destruct (users_call (select_of userData) w) as [o w1] eqn:Hs.
  assert (Hfail : call_failed o ->
                  In (UsersCall q) (events (run (saveUser userData) w)) ->
                  q = select_of userData).
  { intros Hf. destruct (saveUser_fetch_failed _ _ Hs Hf) as [e ->].
    simpl. intros [H | [H | []]]; [congruence | discriminate]. }
  destruct o as [[[u |] [e |]] | e];
    try (intros H; left; apply Hfail; [simpl; try discriminate; exact I | exact H]).
  - destruct (includes (app_ids_or_empty u) QR_CODE_GENERATOR) eqn:Hi.
    + rewrite (saveUser_existing_listed _ _ Hs Hi). simpl.
      intros [H | []]. left. congruence.
    + destruct (users_call (update_of userData u) w1) as [o2 w2] eqn:Hu.
      rewrite (saveUser_existing_unlisted _ _ Hs Hi Hu).
      intros H.
      assert (H' : In (UsersCall q)
                      [UsersCall (select_of userData);
                       UsersCall (update_of userData u); saveUser_log]).
      { destruct o2 as [[d [e |]] | e]; simpl in H |- *; tauto. }
      simpl in H'. destruct H' as [H' | [H' | [H' | []]]].
      * left. congruence.
      * right; left. exists u. split; [exact Hi | congruence].
      * discriminate.
  - destruct (users_call (insert_of userData) w1) as [o2 w2] eqn:Hins.
    rewrite (saveUser_run_new _ _ Hs Hins). intros H.
    assert (H' : In (UsersCall q)
                    [UsersCall (select_of userData);
                     UsersCall (insert_of userData)]).
    { destruct o2 as [[d [e |]] | e]; simpl in H;
        try (simpl; intuition discriminate).
      destruct (id_of d) as [i |]; [| exact H].
      destruct (truthy i); [| exact H].
      destruct (clock w2) as [t w3].
      destruct (visits_call (Upsert i QR_CODE_GENERATOR 1 t) w3) as [v w4].
      simpl in H. destruct H as [H | [H | [H | H]]]; simpl; auto.
      - discriminate.
      - destruct (failure_of v); simpl in H; [| contradiction].
        destruct H as [H | []]. discriminate. }
    simpl in H'. destruct H' as [H' | [H' | []]].
    + left. congruence.
    + right; right. congruence.
Qed.

(** X10: whatever the store answers, every query [saveUser] sends looks up
    the submitted email, or inserts a row with the submitted email and
    name, the generator as only application, and no blank organization or
    EIN, or updates a row with the generator appended once to its
    applications and no blank name, organization or EIN: a blank field is
    left out, never written as an empty string. *)
Theorem saveUser_writes : forall (userData : UserData) (w : W) (q : UsersQuery),
  In (UsersCall q) (events (run (saveUser userData) w)) ->
  match q with
  | SelectByEmail e => e = ud_email userData
  | Insert row =>
      n_email row = ud_email userData /\
      n_name row = ud_name userData /\
      n_app_ids row = [QR_CODE_GENERATOR] /\
      n_organization row <> Some "" /\
      n_ein row <> Some ""
  | UpdateById i patch =>
      (exists old,
          p_app_ids patch = (old ++ [QR_CODE_GENERATOR])%list /\
          includes old QR_CODE_GENERATOR = false) /\
      p_name patch <> Some "" /\
      p_organization patch <> Some "" /\
      p_ein patch <> Some ""
  end.
Proof.
  intros userData w q H.
  destruct (saveUser_users_queries _ _ _ H)
    as [-> | [(u & Hi & ->) | ->]];
    cbn [select_of update_of insert_of update_patch insert_row clean
         spread_if p_app_ids p_name p_organization p_ein
         n_email n_name n_organization n_ein n_app_ids
         ud_email ud_name ud_organization ud_ein].
  - reflexivity.
  - split; [exists (app_ids_or_empty u); auto |].
    repeat split; apply or_undefined_not_blank.
  - repeat split; apply or_undefined_not_blank.
Qed.

(** X11: [updateVisit] with both identifiers sends exactly one call, the
    upsert of count 1 for that user and application stamped with the time
    read from the clock, and returns the row the store answers with; with a
    blank identifier it sends nothing. *)
Theorem updateVisit_call : forall (userId appId : string) (w : W),
  let r := run (updateVisit userId appId) w in
  store_calls (events r) =
  (if truthy userId && truthy appId
   then [upsert_of userId appId (fst (clock w))] else []) /\
  (forall d w2,
      truthy userId = true -> truthy appId = true ->
      visits_call (Upsert userId appId 1 (fst (clock w))) (snd (clock w))
      = (Fulfilled (mkReply d None), w2) ->
      r = mkRun (Returned d) w2 [upsert_of userId appId (fst (clock w))]).
Proof.
  intros userId appId w r. subst r. unfold updateVisit.
  destruct (truthy userId) eqn:Hu; simpl; [| split; [reflexivity | discriminate]].
  destruct (truthy appId) eqn:Ha; simpl; [| split; [reflexivity | discriminate]].
  destruct (clock w) as [t w1]. simpl.
  destruct (visits_call (Upsert userId appId 1 t) w1) as [v w2] eqn:Hv.
  split.
  - destruct v as [[d [e |]] | e]; reflexivity.
  - intros d w2' _ _ E. injection E as -> ->. reflexivity.
Qed.

End SaveUserWrites.

Section SaveUserWritesWitnesses.

Import JsString Supabase Store Traces Samples.
Open Scope string_scope.

Lemma saveUser_writes_witness :
  In (UsersCall (update_of resubmission ana))
     (events (run (saveUser resubmission) db_unlisted)) /\
  p_organization
    (update_patch (app_ids_or_empty ana ++ [QR_CODE_GENERATOR])
                  (clean resubmission)) <> Some "".
Proof.
  assert (Hin : In (UsersCall (update_of resubmission ana))
                   (events (run (saveUser resubmission) db_unlisted))).
  { right. left. reflexivity. }
  split; [exact Hin |].
  destruct (@saveUser_writes Db db_backend resubmission db_unlisted
              (update_of resubmission ana) Hin) as (_ & _ & Ho & _).
  exact Ho.
Defined.

Lemma updateVisit_call_witness :
  exists v,
    run (updateVisit "u2" QR_CODE_GENERATOR) db_listed =
    mkRun (Returned (Some v))
          (set_visits [v] db_listed)
          [upsert_of "u2" QR_CODE_GENERATOR "2025-01-15T12:00:00.000Z"] /\
    visit_count v = 1%Z.
Proof.
  eexists. split.
  - apply (proj2 (@updateVisit_call Db db_backend "u2" QR_CODE_GENERATOR
                    db_listed) _ _ eq_refl eq_refl eq_refl).
  - reflexivity.
Defined.

End SaveUserWritesWitnesses.

(** ** [saveUser] on the reference store: first and repeated submissions *)

Section StoreRoundTrips.

Import JsString Supabase Store Traces.
Open Scope string_scope.

Lemma longest_bounds taken s :
  In (Some s) taken -> String.length s <= longest taken.
Proof.
  induction taken as [|[x |] rest IH]; simpl; intros H; [contradiction | |].
  - destruct H as [H | H]; [injection H as ->; lia |].
    specialize (IH H). lia.
  - destruct H as [H | H]; [discriminate | auto].
Qed.

Lemma fresh_id_length taken :
  String.length (fresh_id taken) = S (longest taken).
Proof.
  unfold fresh_id. simpl. rewrite replicate_length. reflexivity.
Qed.

(** The identifier the store assigns is not in use. *)
Lemma fresh_id_unused taken : ~ In (Some (fresh_id taken)) taken.
Proof.
  intros H. apply longest_bounds in H. rewrite fresh_id_length in H. lia.
Qed.

Lemma same_id_none us i :
  ~ In (Some i) (map id us) -> existsb (same_id (Some i)) us = false.
Proof.
  intros H. destruct (existsb (same_id (Some i)) us) eqn:E; [| reflexivity].
  exfalso. apply H. apply existsb_exists in E as (u & Hu & Eu).
  unfold same_id in Eu. apply opt_eqb_true in Eu as (x & Hx & Hi).
  injection Hi as ->. rewrite <- Hx. apply in_map, Hu.
Qed.

Lemma opt_eqb_sym a b : opt_eqb a b = opt_eqb b a.
Proof.
  destruct a, b; simpl; auto using String.eqb_sym.
Qed.

Lemma distinct_ids_snoc us u i :
  distinct_ids us = true -> id u = Some i ->
  existsb (same_id (Some i)) us = false ->
  distinct_ids (us ++ [u]) = true.
Proof.
  intros Hd Hi. induction us as [|v rest IH]; simpl; intros Hn.
  - rewrite Hi. reflexivity.
  - simpl in Hd. destruct (id v) as [iv |] eqn:Ev; [| discriminate].
    apply andb_true_iff in Hd as [Hv Hd].
    apply orb_false_iff in Hn as [Hnv Hn].
    rewrite (IH Hd Hn), andb_true_r.
    rewrite existsb_app. simpl. rewrite orb_false_r.
    apply negb_true_iff in Hv. rewrite Hv. simpl.
    unfold same_id in Hnv |- *. rewrite Hi. rewrite Ev in Hnv.
    rewrite opt_eqb_sym, Hnv. reflexivity.
Qed.

Lemma includes_snoc old s : includes (old ++ [s]) s = true.
Proof.
  unfold includes. rewrite existsb_app. simpl.
  rewrite String.eqb_refl. simpl. apply orb_true_r.
Qed.

Lemma filter_patch_where e i patch us :
  filter (same_email e) (map (patch_where i patch) us) =
  map (patch_where i patch) (filter (same_email e) us).
Proof.
  induction us as [|v rest IH]; simpl; [reflexivity |].
  replace (same_email e (patch_where i patch v)) with (same_email e v)
    by (unfold same_email, patch_where; destruct (same_id i v); reflexivity).
  destruct (same_email e v); simpl; rewrite IH; reflexivity.
Qed.

(** The visit the store holds after an upsert. *)
Lemma visits_query_records userId appId n t db :
  exists v,
    fst (visits_query (Upsert userId appId n t) db) = ok (Some v) /\
    In v (visits (snd (visits_query (Upsert userId appId n t) db))) /\
    users (snd (visits_query (Upsert userId appId n t) db)) = users db /\
    faults (snd (visits_query (Upsert userId appId n t) db)) = faults db /\
    user_id v = userId /\ app_id v = appId /\
    visit_count v = n /\ last_visit v = t.
Proof.
  simpl.
  destruct (filter (same_visit userId appId) (visits db)) as [|old rest] eqn:Ef.
  - eexists. split; [reflexivity |]. simpl.
    split; [| repeat split; reflexivity].
    apply in_or_app. right. left. reflexivity.
  - eexists. split; [reflexivity |]. simpl.
    split; [| repeat split; reflexivity].
    assert (Hold : In old (filter (same_visit userId appId) (visits db)))
      by (rewrite Ef; left; reflexivity).
    apply filter_In in Hold as [Hin Hsame].
    apply in_map_iff. exists old. rewrite Hsame. auto.
Qed.

(** On an unfaulted store without a row for the email, [saveUser] inserts
    the row, records the visit and returns the row. *)
Lemma saveUser_on_store_new db userData :
  faults db = [] ->
  filter (same_email (ud_email userData)) (users db) = [] ->
  let u := new_row userData db in
  let i := fresh_id (map id (users db)) in
  let db1 := set_users (users db ++ [u]) db in
  run (saveUser userData) db =
  mkRun (Returned (Some u))
        (snd (visits_query (Upsert i QR_CODE_GENERATOR 1 (today db)) db1))
        [UsersCall (select_of userData); UsersCall (insert_of userData);
         upsert_of i QR_CODE_GENERATOR (today db)].
Proof.
  intros H0 Hf u i db1.
  assert (Hs : users_call (select_of userData) db =
               (Fulfilled (mkReply None None), db)).
  { rewrite (users_call_unfaulted _ _ H0). simpl. rewrite Hf. reflexivity. }
  assert (Hins : users_call (insert_of userData) db =
                 (Fulfilled (mkReply (Some u) None), db1)).
  { rewrite (users_call_unfaulted _ _ H0). reflexivity. }
  rewrite (saveUser_run_new _ _ Hs Hins).
  cbn [id_of]. change (id u) with (Some i).
  change (truthy i) with true. cbv iota.
  change (clock db1) with (today db, db1). cbv iota beta.
  change (visits_call (Upsert i QR_CODE_GENERATOR 1 (today db)) db1)
    with (with_faults (visits_query (Upsert i QR_CODE_GENERATOR 1 (today db)))
            db1).
  unfold with_faults. change (faults db1) with (faults db). rewrite H0.
  destruct (visits_query_records i QR_CODE_GENERATOR 1 (today db) db1)
    as (v & Hv & _).
  destruct (visits_query (Upsert i QR_CODE_GENERATOR 1 (today db)) db1)
    as [o db2].
  simpl in Hv. subst o. reflexivity.
Qed.

(** X12: a first submission on a store with distinct identifiers adds
    exactly one row, with an identifier that was not in use, the submitted
    email and name, the generator as its only application and blank fields
    absent; identifiers stay distinct, and one visit of count 1 is on record
    for the new row. *)
Theorem saveUser_first_submission : forall (db : Db) (userData : UserData),
  faults db = [] ->
  distinct_ids (users db) = true ->
  filter (same_email (ud_email userData)) (users db) = [] ->
  let r := run (saveUser userData) db in
  exists u i,
    outcome r = Returned (Some u) /\
    users (final r) = (users db ++ [u])%list /\
    id u = Some i /\ truthy i = true /\
    ~ In (Some i) (map id (users db)) /\
    distinct_ids (users (final r)) = true /\
    email u = ud_email userData /\ name u = ud_name userData /\
    app_ids u = Some [QR_CODE_GENERATOR] /\
    organization u <> Some "" /\ ein u <> Some "" /\
    exists v,
      In v (visits (final r)) /\ user_id v = i /\
      app_id v = QR_CODE_GENERATOR /\ visit_count v = 1%Z.
Proof.
  intros db userData H0 Hd Hf r. subst r.
  rewrite (saveUser_on_store_new _ _ H0 Hf). cbn [outcome final].
  set (i := fresh_id (map id (users db))).
  set (u := new_row userData db).
  set (db1 := set_users (users db ++ [u]) db).
  destruct (visits_query_records i QR_CODE_GENERATOR 1 (today db) db1)
    as (v & _ & Hin & Hu & _ & Hv1 & Hv2 & Hv3 & _).
  assert (Hfresh : ~ In (Some i) (map id (users db)))
    by apply fresh_id_unused.
  exists u, i. rewrite Hu.
  split; [reflexivity |]. split; [reflexivity |]. split; [reflexivity |].
  split; [reflexivity |]. split; [exact Hfresh |].
  split; [apply (@distinct_ids_snoc (users db) u i Hd eq_refl
                   (same_id_none _ _ Hfresh)) |].
  split; [reflexivity |]. split; [reflexivity |]. split; [reflexivity |].
  split; [apply or_undefined_not_blank |].
  split; [apply or_undefined_not_blank |].
  exists v. auto.
Qed.

(** X13: submitting the same data twice is the same as submitting it once:
    on a store that answers, with distinct identifiers and at most one row
    for the email, the second call returns the row the first one returned,
    sends only the lookup and leaves the store as the first call left it;
    that row holds the email and lists the generator. *)
Theorem saveUser_idempotent : forall (db : Db) (userData : UserData),
  faults db = [] ->
  distinct_ids (users db) = true ->
  length (filter (same_email (ud_email userData)) (users db)) <= 1 ->
  let r1 := run (saveUser userData) db in
  let r2 := run (saveUser userData) (final r1) in
  exists u,
    outcome r1 = Returned (Some u) /\
    outcome r2 = Returned (Some u) /\
    final r2 = final r1 /\
    events r2 = [UsersCall (select_of userData)] /\
    filter (same_email (ud_email userData)) (users (final r1)) = [u] /\
    includes (app_ids_or_empty u) QR_CODE_GENERATOR = true.
Proof.
  intros db userData H0 Hd Hl. cbv zeta.
  assert (Hagain : forall (r1 : Run Db (option User)) u,
             outcome r1 = Returned (Some u) ->
             faults (final r1) = [] ->
             filter (same_email (ud_email userData)) (users (final r1)) = [u] ->
             includes (app_ids_or_empty u) QR_CODE_GENERATOR = true ->
             exists u,
               outcome r1 = Returned (Some u) /\
               outcome (run (saveUser userData) (final r1))
               = Returned (Some u) /\
               final (run (saveUser userData) (final r1)) = final r1 /\
               events (run (saveUser userData) (final r1))
               = [UsersCall (select_of userData)] /\
               filter (same_email (ud_email userData)) (users (final r1))
               = [u] /\
               includes (app_ids_or_empty u) QR_CODE_GENERATOR = true).
  { intros r1 u Ho Hf0 Hf Hi. exists u.
    assert (Hs : users_call (select_of userData) (final r1) =
                 (Fulfilled (mkReply (Some u) None), final r1)).
    { rewrite (users_call_unfaulted _ _ Hf0). apply users_query_select, Hf. }
    rewrite (saveUser_existing_listed _ _ Hs Hi).
    repeat split; first [assumption | reflexivity]. }
  destruct (filter (same_email (ud_email userData)) (users db))
    as [|u0 [|? ?]] eqn:Hf; [| | simpl in Hl; lia].
  - (* a first submission *)
    pose proof (saveUser_on_store_new _ _ H0 Hf) as Hrun. cbv zeta in Hrun.
    rewrite Hrun.
    destruct (visits_query_records (fresh_id (map id (users db)))
                QR_CODE_GENERATOR 1 (today db)
                (set_users (users db ++ [new_row userData db]) db))
      as (v & _ & _ & Hu & Hf0 & _).
    apply (Hagain _ (new_row userData db)); cbn [outcome final].
    + reflexivity.
    + rewrite Hf0. exact H0.
    + rewrite Hu. cbn [users set_users]. rewrite filter_app, Hf. simpl.
      unfold same_email. cbn [email new_row]. rewrite String.eqb_refl.
      reflexivity.
    + reflexivity.
  - (* the email is known *)
    pose proof (saveUser_on_store _ _ Hd Hf H0) as Hrun. rewrite Hrun.
    destruct (includes (app_ids_or_empty u0) QR_CODE_GENERATOR) eqn:Hi.
    + apply (Hagain _ u0); cbn [outcome final]; auto.
    + cbv zeta.
      apply (Hagain _ (apply_patch
                         (update_patch
                            (app_ids_or_empty u0 ++ [QR_CODE_GENERATOR])
                            (clean userData)) u0));
        cbn [outcome final].
      * reflexivity.
      * exact H0.
      * cbn [users set_users]. rewrite filter_patch_where, Hf. simpl.
        destruct (unique_row _ _ Hd (matching_row _ _ Hf)) as [_ Hu].
        unfold patch_where. rewrite Hu. reflexivity.
      * apply includes_snoc.
Qed.

End StoreRoundTrips.

Section StoreRoundTripWitnesses.

Import JsString Supabase Store Traces Samples.
Open Scope string_scope.

Lemma saveUser_first_submission_witness :
  exists u,
    outcome (run (saveUser newcomer) db_listed) = Returned (Some u) /\
    users (final (run (saveUser newcomer) db_listed))
    = [ben; ana_listed; u] /\
    distinct_ids (users (final (run (saveUser newcomer) db_listed))) = true.
Proof.
  destruct (@saveUser_first_submission db_listed newcomer
              eq_refl eq_refl eq_refl)
    as (u & i & Ho & Hu & _ & _ & _ & Hd & _).
  exists u. repeat split; assumption.
Defined.

Lemma saveUser_idempotent_witness :
  exists u,
    outcome (run (saveUser resubmission) db_unlisted) = Returned (Some u) /\
    outcome (run (saveUser resubmission)
               (final (run (saveUser resubmission) db_unlisted)))
    = Returned (Some u).
Proof.
  assert (Hl : length (filter (same_email (ud_email resubmission))
                         (users db_unlisted)) <= 1) by (simpl; lia).
  destruct (@saveUser_idempotent db_unlisted resubmission eq_refl eq_refl Hl)
    as (u & H1 & H2 & _).
  exists u. split; assumption.
Defined.

End StoreRoundTripWitnesses.

(** ** Placement of any image *)

Section DoubleOrder.

Import Binary64.
Local Open Scope Z_scope.

(** [mc, ec] is the mantissa and exponent of a valid double. *)
Lemma shr_fexp_bound : forall mc ec m e l mrs e1,
  ec = Z.max (Zpos (digits2_pos mc) + ec - 53) (-1074) ->
  0 <= m -> m < Zpos mc * 2 ^ (ec - e) + 1 -> e <= ec ->
  shr_fexp prec emax m e l = (mrs, e1) ->
  e1 <= ec /\ 0 <= shr_m mrs /\ 2 ^ (e1 - e) * (Zpos mc * 2 ^ (ec - e1)) = Zpos mc * 2 ^ (ec - e) /\
  e <= e1 /\ shr_m mrs = m / 2 ^ (e1 - e).
Proof.
  intros mc ec m e l mrs e1 Hc Hm Hu He H.
  apply shr_fexp_spec in H; [| assumption]. rewrite fexp_double in H.
  destruct H as [[Hn [-> ->]] | [Hn [-> ->]]].
  - rewrite Z.sub_diag, Z.pow_0_r, Z.div_1_r. repeat split; try lia.
  - set (n := Z.max (Zdigits2 m + e - 53) (-1074) - e) in *.
    pose proof (digits2_pos_bounds mc) as Bc.
    assert (He1 : e + n <= ec).
    { destruct (Z.eq_dec m 0) as [-> | Hne].
      - cbn [Zdigits2] in n. lia.
      - destruct (@Zdigits2_bounds m) as [Hd [Hdl Hdu]]; [lia |].
        assert (Hp : 0 < 2 ^ (ec - e)) by (apply pow2_pos; lia).
        assert (Hlt : 2 ^ (Zdigits2 m - 1) < 2 ^ (Zpos (digits2_pos mc) + (ec - e))).
        { rewrite pow2_split by lia. nia. }
        apply pow2_lt_inv in Hlt; lia. }
    replace (e + n - e) with n by lia.
    split; [assumption |].
    split; [apply Z.div_pos; [assumption | apply pow2_pos; lia] |].
    split; [| split; [lia | reflexivity]].
    replace (ec - e) with (n + (ec - (e + n))) by lia.
    rewrite pow2_split by lia. ring.
Qed.

Lemma shr_fexp_lt_double : forall mc ec m e l mrs e1,
  ec = Z.max (Zpos (digits2_pos mc) + ec - 53) (-1074) ->
  0 <= m -> lt_double (Zpos mc) ec m e ->
  shr_fexp prec emax m e l = (mrs, e1) ->
  0 <= shr_m mrs /\ lt_double (Zpos mc) ec (shr_m mrs) e1.
Proof.
  intros mc ec m e l mrs e1 Hc Hm [He Hu] H.
  destruct (@shr_fexp_bound mc ec m e l mrs e1 Hc Hm ltac:(lia) He H)
    as (He1 & Hm1 & Hsplit & Hee & Hq).
  split; [assumption |]. split; [assumption |]. rewrite Hq.
  apply Z.div_lt_upper_bound; [apply pow2_pos; lia |].
  rewrite Hsplit. assumption.
Qed.

Lemma shr_fexp_le_double : forall mc ec m e l mrs e1,
  ec = Z.max (Zpos (digits2_pos mc) + ec - 53) (-1074) ->
  0 <= m -> le_double (Zpos mc) ec m e ->
  shr_fexp prec emax m e l = (mrs, e1) ->
  le_double (Zpos mc) ec (shr_m mrs) e1.
Proof.
  intros mc ec m e l mrs e1 Hc Hm [He Hu] H.
  destruct (@shr_fexp_bound mc ec m e l mrs e1 Hc Hm ltac:(lia) He H)
    as (He1 & Hm1 & Hsplit & Hee & Hq).
  split; [assumption |]. rewrite Hq.
  apply Z.div_le_upper_bound; [apply pow2_pos; lia |].
  rewrite Hsplit. assumption.
Qed.

(** Rounding does not cross a double: what lies below the valid double
    [mc * 2^ec] is rounded to a double that is at most it. *)
Lemma binary_round_aux_le_double : forall mc ec m e l,
  valid_binary (S754_finite false mc ec) = true ->
  0 <= m -> lt_double (Zpos mc) ec m e ->
  binary_round_aux prec emax false m e l = S754_zero false \/
  exists m' e', binary_round_aux prec emax false m e l = S754_finite false m' e' /\
                le_double (Zpos mc) ec (Zpos m') e'.
Proof.
  intros mc ec m e l V Hm Hu. apply valid_binary_finite in V. destruct V as [Hc Hec].
  unfold binary_round_aux.
  destruct (shr_fexp prec emax m e l) as [mrs1 e1] eqn:E1.
  destruct (@shr_fexp_lt_double mc ec m e l mrs1 e1 Hc Hm Hu E1) as [Hm1 [He1 H1]].
  pose proof (round_nearest_even_bounds (shr_m mrs1) (loc_of_shr_record mrs1)) as Hr.
  set (m2 := round_nearest_even (shr_m mrs1) (loc_of_shr_record mrs1)) in *.
  assert (H2 : le_double (Zpos mc) ec m2 e1) by (split; lia).
  destruct (shr_fexp prec emax m2 e1 loc_Exact) as [mrs3 e3] eqn:E3.
  assert (Hm2 : 0 <= m2) by lia.
  pose proof (@shr_fexp_le_double mc ec m2 e1 loc_Exact mrs3 e3 Hc Hm2 H2 E3) as H3.
  pose proof (@shr_fexp_spec m2 e1 loc_Exact mrs3 e3 Hm2 E3) as Hs.
  destruct (shr_m mrs3) as [| m3 | m3] eqn:Em3.
  - left; reflexivity.
  - right. exists m3, e3. change (emax - prec) with 971.
    destruct (Z.leb_spec e3 971) as [_ | Hgt]; [split; [reflexivity | assumption] |].
    destruct H3; lia.
  - exfalso. cbv zeta in Hs.
    assert (0 <= m2 / 2 ^ (fexp prec emax (Zdigits2 m2 + e1) - e1))
      by (apply Z.div_pos; [assumption | apply Z.pow_pos_nonneg; lia]).
    destruct Hs as [[_ [Hs _]] | [Hp [Hs _]]]; lia.
Qed.

Lemma le_double_not_above : forall mc ec m e,
  le_double (Zpos mc) ec (Zpos m) e ->
  SFltb (S754_finite false mc ec) (S754_finite false m e) = false.
Proof.
  intros mc ec m e [He Hm]. unfold SFltb.
  destruct (Z_lt_le_dec e ec) as [Hlt | Hge].
  - rewrite SFcompare_Gt; [reflexivity | left; assumption].
  - assert (e = ec) by lia. subst e.
    rewrite Z.sub_diag, Z.pow_0_r, Z.mul_1_r in Hm.
    cbn [SFcompare]. rewrite Z.compare_refl.
    destruct (Pos.compare_cont Eq mc m) eqn:Ec; try reflexivity.
    exfalso. assert (Zpos mc < Zpos m) by exact Ec. lia.
Qed.

(** 7.5 divided by a double above 0.75 is at most 10. *)
Lemma SFdiv_maxWidth_le : forall mr er,
  valid_binary (S754_finite false mr er) = true ->
  -53 < er \/ (er = -53 /\ 6755399441055744 < Zpos mr) ->
  SFltb (S754_finite false 5629499534213120 (-49))
        (SFdiv prec emax (S754_finite false 8444249301319680 (-50))
               (S754_finite false mr er)) = false.
Proof.
  intros mr er V Hlt. apply valid_binary_finite in V. destruct V as [Hc Her].
  pose proof (digits2_pos_bounds mr) as Br.
  set (dr := Zpos (digits2_pos mr)) in *.
  assert (Hdr : 0 < dr) by (unfold dr; lia).
  assert (Hmag : 0 <= dr + er).
  { destruct Hlt as [Hlt | [-> Hlt]]; [lia |].
    assert (2 ^ 52 < 2 ^ dr) by (change (2 ^ 52) with 4503599627370496; lia).
    assert (52 < dr) by (apply pow2_lt_inv; lia). lia. }
  assert (Hkey : 6755399441055744 < Zpos mr * 2 ^ (er + 53)).
  { destruct Hlt as [Hlt | [-> Hlt]].
    - assert (Hfull : dr = 53) by lia. rewrite Hfull in Br.
      change (2 ^ (53 - 1)) with 4503599627370496 in Br.
      assert (2 ^ 1 <= 2 ^ (er + 53)) by (apply pow2_le; lia).
      change (2 ^ 1) with 2 in *. nia.
    - change (2 ^ (-53 + 53)) with 1. lia. }
  cbn [SFdiv xorb].
  destruct (SFdiv_core_binary prec emax (Zpos 8444249301319680) (-50) (Zpos mr) er)
    as [[q e'] l] eqn:Ec.
  apply SFdiv_core_binary_spec in Ec. destruct Ec as [He' Hq].
  change (Zpos (digits2_pos 8444249301319680)) with 53 in He'. fold dr in He'.
  set (s := -50 - er - e') in *.
  assert (Hs : 0 <= s) by (unfold s; lia).
  assert (He49 : e' <= -50) by lia.
  assert (Hq0 : 0 <= q).
  { subst q. apply Z.div_pos; [| lia]. pose proof (pow2_pos Hs). lia. }
  assert (Hu : lt_double (Zpos 5629499534213120) (-49) q e').
  { split; [lia |]. subst q. apply Z.div_lt_upper_bound; [lia |].
    set (a := -49 - e') in *. set (u := er + 53) in *.
    assert (Ha : 0 <= a) by (unfold a; lia).
    assert (Hu0 : 0 <= u) by (unfold u; lia).
    assert (Hpu : 0 < 2 ^ u) by (apply pow2_pos; assumption).
    assert (Hpa : 0 < 2 ^ a) by (apply pow2_pos; assumption).
    assert (Hsu : 2 ^ s * 2 ^ u = 4503599627370496 * 2 ^ a).
    { rewrite <- pow2_split by assumption.
      replace (s + u) with (52 + a) by (unfold s, u, a; lia).
      rewrite pow2_split by lia. reflexivity. }
    apply (Z.mul_lt_mono_pos_r (2 ^ u)); [assumption |].
    replace (8444249301319680 * 2 ^ s * 2 ^ u)
      with (8444249301319680 * (2 ^ s * 2 ^ u)) by ring.
    rewrite Hsu.
    replace (Zpos mr * (5629499534213120 * 2 ^ a) * 2 ^ u)
      with ((Zpos mr * 2 ^ u) * (5629499534213120 * 2 ^ a)) by ring.
    replace (8444249301319680 * (4503599627370496 * 2 ^ a))
      with (6755399441055744 * (5629499534213120 * 2 ^ a)) by ring.
    apply Z.mul_lt_mono_pos_r; [lia | assumption]. }
  destruct (@binary_round_aux_le_double 5629499534213120 (-49) q e' l eq_refl Hq0 Hu)
    as [Ht | (m' & e'' & Ht & Hle)]; rewrite Ht; [reflexivity |].
  apply le_double_not_above, Hle.
Qed.

(** 10 times a double below 0.75 is at most 7.5. *)
Lemma SFmul_maxHeight_le : forall mr er,
  valid_binary (S754_finite false mr er) = true ->
  er < -53 \/ (er = -53 /\ Zpos mr < 6755399441055744) ->
  SFltb (S754_finite false 8444249301319680 (-50))
        (SFmul prec emax (S754_finite false 5629499534213120 (-49))
               (S754_finite false mr er)) = false.
Proof.
  intros mr er V Hlt. apply valid_binary_finite in V. destruct V as [Hc Her].
  pose proof (digits2_pos_bounds mr) as Br.
  set (dr := Zpos (digits2_pos mr)) in *.
  assert (Hdr : dr <= 53) by lia.
  assert (Hm53 : Zpos mr < 9007199254740992).
  { assert (2 ^ dr <= 2 ^ 53) by (apply pow2_le; lia).
    change (2 ^ 53) with 9007199254740992 in *. lia. }
  set (u := -53 - er).
  assert (Hu0 : 0 <= u) by (unfold u; lia).
  assert (Hpu : 0 < 2 ^ u) by (apply pow2_pos; assumption).
  assert (Hkey : Zpos mr < 6755399441055744 * 2 ^ u).
  { destruct Hlt as [Hlt | [Heq Hlt]].
    - assert (2 ^ 1 <= 2 ^ u) by (apply pow2_le; unfold u; lia).
      change (2 ^ 1) with 2 in *. nia.
    - unfold u. rewrite Heq. change (2 ^ (-53 - -53)) with 1. lia. }
  cbn [SFmul xorb]. rewrite Pos2Z.inj_mul.
  assert (Hlt' : lt_double (Zpos 8444249301319680) (-50)
                   (Zpos 5629499534213120 * Zpos mr) (-49 + er)).
  { split; [lia |].
    replace (-50 - (-49 + er)) with (52 + u) by (unfold u; lia).
    rewrite pow2_split by lia. change (2 ^ 52) with 4503599627370496.
    replace (8444249301319680 * (4503599627370496 * 2 ^ u))
      with (5629499534213120 * (6755399441055744 * 2 ^ u)) by ring.
    apply Z.mul_lt_mono_pos_l; [lia | assumption]. }
  assert (Hnn : 0 <= Zpos 5629499534213120 * Zpos mr) by lia.
  destruct (@binary_round_aux_le_double 8444249301319680 (-50) _ _ loc_Exact eq_refl
              Hnn Hlt')
    as [Ht | (m' & e'' & Ht & Hle)]; rewrite Ht; [reflexivity |].
  apply le_double_not_above, Hle.
Qed.

(** A negative quotient is not above a positive double. *)
Lemma binary_round_aux_negative : forall mc ec m e l,
  SFltb (S754_finite false mc ec) (binary_round_aux prec emax true m e l) = false.
Proof.
  intros mc ec m e l. unfold binary_round_aux.
  destruct (shr_fexp prec emax m e l) as [mrs1 e1].
  destruct (shr_fexp prec emax _ e1 loc_Exact) as [mrs3 e3].
  destruct (shr_m mrs3); [reflexivity | | reflexivity].
  destruct (e3 <=? emax - prec); reflexivity.
Qed.

(** When 7.5 / r is above 10, 10 * r is not above 7.5. *)
Lemma SF_capped : forall r,
  valid_binary r = true ->
  SFltb (S754_finite false 5629499534213120 (-49))
        (SFdiv prec emax (S754_finite false 8444249301319680 (-50)) r) = true ->
  SFltb (S754_finite false 8444249301319680 (-50))
        (SFmul prec emax (S754_finite false 5629499534213120 (-49)) r) = false.
Proof.
  intros r V Hcap.
  destruct r as [s | s | | s mr er].
  - destruct s; reflexivity.
  - destruct s; discriminate Hcap.
  - discriminate Hcap.
  - destruct s.
    + exfalso. cbn [SFdiv xorb] in Hcap.
      destruct (SFdiv_core_binary prec emax (Zpos 8444249301319680) (-50) (Zpos mr) er)
        as [[q e'] l].
      rewrite binary_round_aux_negative in Hcap. discriminate Hcap.
    + destruct (Z.lt_total er (-53)) as [He | [He | He]].
      * apply SFmul_maxHeight_le; [assumption | left; assumption].
      * destruct (Z.lt_total (Zpos mr) 6755399441055744) as [Hm | [Hm | Hm]].
        -- apply SFmul_maxHeight_le; [assumption | right; split; assumption].
        -- exfalso. injection Hm as ->. subst er.
           vm_compute in Hcap. discriminate Hcap.
        -- exfalso.
           rewrite SFdiv_maxWidth_le in Hcap;
             [discriminate Hcap | assumption | right; split; assumption].
      * exfalso.
        rewrite SFdiv_maxWidth_le in Hcap;
          [discriminate Hcap | assumption | left; assumption].
Qed.

End DoubleOrder.

Section PlacementFacts.

Import QRCodeGenerator.
Open Scope float_scope.

(** X14: whatever doubles the width and height of the image are, the
    placement passed to [addImage] is not wider than the 7.5 inches and not
    taller than the 10 inches between the margins, and has that width or
    that height; the offsets are half of what the page has left. *)
Theorem placement_fits : forall imgWidth imgHeight : float,
  let p := placement imgWidth imgHeight in
  (maxWidth <? width p) = false /\
  (maxHeight <? height p) = false /\
  (width p = maxWidth \/ height p = maxHeight) /\
  x p = (pageWidth - width p) / 2 /\
  y p = (pageHeight - height p) / 2.
Proof.
  intros w h p. subst p. unfold placement.
  destruct (maxHeight <? maxWidth / (w / h)) eqn:Hcap; cbn [x y width height].
  - split; [| split; [reflexivity | split; [right; reflexivity | split; reflexivity]]].
    rewrite ltb_spec, div_spec in Hcap. rewrite ltb_spec, mul_spec.
    rewrite maxWidth_double, maxHeight_double in *.
    apply SF_capped; [apply Prim2SF_valid | exact Hcap].
  - split; [reflexivity |]. split; [exact Hcap |].
    split; [left; reflexivity | split; reflexivity].
Qed.

(** Division by zero is that of doubles: an image of height 0 has an
    infinite aspect ratio and is placed with height 0, an image of width 0
    is capped in height and gets width 0, and 0 x 0 gives a height that is
    not a number. *)
Example placement_degenerate :
  placement 100 0 = mkPlacement 0.5 5.5 7.5 0 /\
  placement 0 100 = mkPlacement 4.25 0.5 0 10 /\
  width (placement 0 0) = 7.5 /\
  is_nan (height (placement 0 0)) = true.
Proof. repeat split; reflexivity. Qed.

End PlacementFacts.

(** ** Text generation: what a request and its answer change *)

Section GenerateFacts.

Import JsString QRCodeGenerator.
Open Scope string_scope.

Variable openai : bool.
Variable trim : string -> string.

(** X15: without an API key, pressing generate sends no request, leaves the
    texts and the flag alone and shows a message.  An answer replaces the
    requested text by the trimmed completion (by the empty string when the
    completion is missing or blank) and touches nothing else; a failure
    leaves both texts and shows the provider's message, or the fallback
    when there is none.  Either way the flag is cleared. *)
Theorem generateAIText_outcomes : forall (type : AiType) (st : State),
  (openai = false -> isGenerating st = false ->
   let r := generateAIText openai type st in
   snd r = None /\
   truthy (error (fst r)) = true /\
   isGenerating (fst r) = false /\
   orgDescription (fst r) = orgDescription st /\
   urlPurpose (fst r) = urlPurpose st) /\
  (forall content,
      let st' := generateAIText_resume trim type (Responded content) st in
      let text := match content with
                  | Some c => trim c
                  | None => ""
                  end in
      isGenerating st' = false /\ error st' = error st /\ url st' = url st /\
      match type with
      | description =>
          orgDescription st' = text /\ urlPurpose st' = urlPurpose st
      | purpose =>
          urlPurpose st' = text /\ orgDescription st' = orgDescription st
      end) /\
  (forall message,
      let st' := generateAIText_resume trim type (Failed message) st in
      isGenerating st' = false /\
      orgDescription st' = orgDescription st /\
      urlPurpose st' = urlPurpose st /\
      truthy (error st') = true /\
      (forall m, message = Some m -> truthy m = true -> error st' = m)).
Proof.
  intros type st. split; [| split].
  - intros Ho Hg r. subst r. unfold generateAIText. rewrite Hg, Ho. simpl.
    repeat split; auto.
  - intros content st' text. subst st' text.
    assert (E : or_else (option_map trim content) "" =
                match content with Some c => trim c | None => "" end).
    { destruct content as [c |]; simpl; [| reflexivity].
      destruct (trim c); reflexivity. }
    unfold generateAIText_resume. rewrite E.
    destruct type; simpl; repeat split; reflexivity.
  - intros message st'. subst st'. unfold generateAIText_resume. simpl.
    repeat split.
    + destruct message as [[|c m] |]; reflexivity.
    + intros m -> Hm. simpl. rewrite Hm. reflexivity.
Qed.

End GenerateFacts.

Lemma generateAIText_outcomes_witness :
  let st := QRCodeGenerator.setOrgDescription "We feed people"
              QRCodeGenerator.initial in
  snd (QRCodeGenerator.generateAIText false QRCodeGenerator.description st)
  = None /\
  QRCodeGenerator.error
    (QRCodeGenerator.generateAIText_resume (fun t => t)
       QRCodeGenerator.description
       (QRCodeGenerator.Failed (Some "Rate limit reached"%string)) st)
  = "Rate limit reached"%string.
Proof.
  intros st. split.
  - apply (proj1 (generateAIText_outcomes false (fun t => t)
                    QRCodeGenerator.description st) eq_refl eq_refl).
  - apply (proj2 (proj2 (generateAIText_outcomes false (fun t => t)
                           QRCodeGenerator.description st))
             (Some "Rate limit reached"%string)).
    + reflexivity.
    + reflexivity.
Defined.

(** ** Binding a user *)

Section SubmitFacts.

Import JsString Supabase Generator.
Open Scope string_scope.

Context {W : Type} {B : Backend W}.

(** X16: when [handleUserSubmit] is over the submission flag is cleared;
    if [saveUser] returned, its result becomes the bound user and the
    banner is cleared; if it threw, the bound user is as before and the
    banner shows the error's message, or [Error saving user data] when the
    message is blank.  Nothing else in the view changes. *)
Theorem handleUserSubmit_outcome : forall (userData : UserData) (v : View) (w : W),
  let r := run (saveUser userData) w in
  let v' := fst (fst (handleUserSubmit userData v w)) in
  snd (fst (handleUserSubmit userData v w)) = final r /\
  isSubmitting v' = false /\
  qrColor v' = qrColor v /\ bgColor v' = bgColor v /\ size v' = size v /\
  logo v' = logo v /\
  QRCodeGenerator.setError "" (fields v')
  = QRCodeGenerator.setError "" (fields v) /\
  match outcome r with
  | Returned saved =>
      user v' = saved /\ QRCodeGenerator.error (fields v') = ""
  | Thrown e =>
      user v' = user v /\
      QRCodeGenerator.error (fields v')
      = (if truthy (message e) then message e else "Error saving user data")
  end.
Proof.
  intros userData v w r v'. subst v' r. unfold handleUserSubmit.
  destruct (outcome (run (saveUser userData) w)) as [saved | e]; simpl;
    repeat split; try reflexivity.
Qed.

End SubmitFacts.

(** ** Downloading *)

Section DownloadFacts.

Import JsString Supabase QrCodes Generator Traces.
Open Scope string_scope.

Variable insert : QRData -> Settled QRCode.
Variable toPng toJpeg : RasterOptions -> option string.
Variable getImageProperties : string -> option (float * float).
Variable addImage : string -> QRCodeGenerator.Placement -> bool.
Variable save : string -> bool.

(** [saveQRCode] sends the one insert, and throws the error the store
    gave if there is one. *)
Lemma saveQRCode_result qrData :
  filter (fun e => match e with InsertQr _ => true | _ => false end)
         (snd (saveQRCode insert qrData)) = [InsertQr qrData] /\
  fst (saveQRCode insert qrData) =
  match insert qrData with
  | Fulfilled (mkReply d None) => Returned d
  | Fulfilled (mkReply _ (Some e)) | Rejected e => Thrown e
  end.
Proof.
  unfold saveQRCode.
  destruct (insert qrData) as [[d [e |]] | e]; split; reflexivity.
Qed.

(** After a successful save, [downloadImage] goes on with the rendering. *)
Lemma downloadImage_saved format v userId d :
  insert (snapshot userId v) = Fulfilled (mkReply d None) ->
  user_id_of (user v) = Some userId ->
  downloadImage insert toPng toJpeg getImageProperties addImage save
    true format v =
  rendering toPng toJpeg getImageProperties addImage save format v
    (Console "Starting QR code save..." ::
     map Store (snd (saveQRCode insert (snapshot userId v))) ++
     [Console "QR code saved successfully:"]).
Proof.
  intros Hins Hu. unfold downloadImage, rendering. rewrite Hu.
  unfold saveQRCode. rewrite Hins. reflexivity.
Qed.

(** The rendering only adds outputs, none of them a store call, and leaves
    the view or shows the banner. *)
Lemma rendering_appends format v out1 :
  exists rest,
    rendering toPng toJpeg getImageProperties addImage save format v out1
    = (fst (rendering toPng toJpeg getImageProperties addImage save
              format v out1),
       (out1 ++ rest)%list) /\
    (fst (rendering toPng toJpeg getImageProperties addImage save
            format v out1) = v \/
     fst (rendering toPng toJpeg getImageProperties addImage save
            format v out1) = setError download_banner v) /\
    existsb is_store rest = false.
Proof.
  unfold rendering, failed_download. cbv zeta.
  destruct format.
  - destruct (toPng image_options); cbn [fst]; rewrite <- ?app_assoc;
      eexists; (split; [reflexivity |]); split; auto.
  - destruct (toJpeg image_options); cbn [fst]; rewrite <- ?app_assoc;
      eexists; (split; [reflexivity |]); split; auto.
  - destruct (toPng pdf_options) as [dataUrl |].
    2:{ cbn [fst]; rewrite <- ?app_assoc.
        eexists; (split; [reflexivity |]); split; auto. }
    destruct (getImageProperties dataUrl) as [[iw ih] |].
    2:{ cbn [fst]; rewrite <- ?app_assoc.
        eexists; (split; [reflexivity |]); split; auto. }
    destruct (addImage dataUrl (QRCodeGenerator.placement iw ih)).
    2:{ cbn [fst]; rewrite <- ?app_assoc.
        eexists; (split; [reflexivity |]); split; auto. }
    destruct (save "qr-code.pdf"); cbn [fst]; rewrite <- ?app_assoc;
      eexists; (split; [reflexivity |]); split; auto.
Qed.

(** With a user bound and the copy mounted, exactly one insert is sent,
    whatever happens next. *)
Lemma downloadImage_inserts format v userId :
  user_id_of (user v) = Some userId ->
  filter is_store
    (snd (downloadImage insert toPng toJpeg getImageProperties addImage save
            true format v))
  = [Store (InsertQr (snapshot userId v))].
Proof.
  intros Huid.
  destruct (insert (snapshot userId v)) as [[d [e |]] | e] eqn:Hins.
  - unfold downloadImage, saveQRCode, failed_download.
    rewrite Huid, Hins. reflexivity.
  - rewrite (@downloadImage_saved format v userId d Hins Huid).
    destruct (rendering_appends format v
                (Console "Starting QR code save..." ::
                 map Store (snd (saveQRCode insert (snapshot userId v))) ++
                 [Console "QR code saved successfully:"]))
      as (rest & -> & _ & Hrest).
    cbn [snd]. unfold saveQRCode. rewrite Hins. simpl. f_equal.
    apply filter_none, Hrest.
  - unfold downloadImage, saveQRCode, failed_download.
    rewrite Huid, Hins. reflexivity.
Qed.

(** X17: [downloadImage] does nothing at all while no user with an
    identifier is bound or the hidden copy is not mounted.  Otherwise it
    first sends exactly one insert, of the current fields under the bound
    user's identifier, and only then rasterizes; when the insert fails
    nothing is rasterized and no file is produced.  The view is left as it
    was, or as it was with the download banner. *)
Theorem downloadImage_store_first : forall (mountedRef : bool) (format : Format) (v : View),
  let r := downloadImage insert toPng toJpeg getImageProperties addImage save
             mountedRef format v in
  (mountedRef = false \/ user_id_of (user v) = None -> r = (v, [])) /\
  (fst r = v \/ fst r = setError download_banner v) /\
  (forall userId,
      mountedRef = true -> user_id_of (user v) = Some userId ->
      (exists rest,
          snd r = (Console "Starting QR code save..." ::
                   map Store (snd (saveQRCode insert (snapshot userId v))) ++
                   rest)%list /\
          existsb is_store rest = false) /\
      filter is_store (snd r) = [Store (InsertQr (snapshot userId v))] /\
      (forall e,
          failure_of (insert (snapshot userId v)) = Some e ->
          existsb is_raster (snd r) = false /\
          existsb is_file (snd r) = false /\
          fst r = setError download_banner v)).
Proof.
  intros mountedRef format v r. subst r.
  destruct mountedRef.
  2:{ unfold downloadImage. split; [reflexivity |].
      split; [left; reflexivity |]. intros userId H. discriminate. }
  destruct (user_id_of (user v)) as [userId |] eqn:Huid.
  2:{ unfold downloadImage. rewrite Huid. split; [reflexivity |].
      split; [left; reflexivity |]. intros userId _ H. discriminate. }
  split; [intros [H | H]; discriminate |].
  destruct (insert (snapshot userId v)) as [[d [e |]] | e] eqn:Hins.
  - unfold downloadImage, saveQRCode, failed_download.
    rewrite Huid, Hins. cbn [error fst snd].
    split; [right; reflexivity |].
    intros u _ Hu. injection Hu as <-. rewrite Hins. cbn [error fst snd].
    split; [eexists; split; reflexivity |]. split; [reflexivity |].
    intros e' _. repeat split; reflexivity.
  - rewrite (@downloadImage_saved format v userId d Hins Huid).
    destruct (rendering_appends format v
                (Console "Starting QR code save..." ::
                 map Store (snd (saveQRCode insert (snapshot userId v))) ++
                 [Console "QR code saved successfully:"]))
      as (rest & -> & Hst & Hrest).
    cbn [fst snd]. split; [exact Hst |].
    intros u _ Hu. injection Hu as <-.
    split.
    + exists (Console "QR code saved successfully:" :: rest).
      split; [| exact Hrest].
      cbn [app]. rewrite <- app_assoc. reflexivity.
    + split; [| intros e' He'; rewrite Hins in He'; discriminate].
      unfold saveQRCode. rewrite Hins. simpl. f_equal.
      apply filter_none, Hrest.
  - unfold downloadImage, saveQRCode, failed_download.
    rewrite Huid, Hins. cbn [error fst snd].
    split; [right; reflexivity |].
    intros u _ Hu. injection Hu as <-. rewrite Hins. cbn [error fst snd].
    split; [eexists; split; reflexivity |]. split; [reflexivity |].
    intros e' _. repeat split; reflexivity.
Qed.

(** X18: once the row is saved, a PNG download calls [toPng] and a JPEG
    download calls [toJpeg], both with the white-background options, and
    clicks a link named [qr-code.png] or [qr-code.jpg] holding the data URL
    produced; a PDF download calls [toPng] once, adds the image at the
    computed placement and saves [qr-code.pdf].  When a step fails no later
    step runs and the banner is shown, the row staying saved. *)
Theorem downloadImage_files : forall (format : Format) (v : View)
    (userId : string) (d : option QRCode),
  user_id_of (user v) = Some userId ->
  insert (snapshot userId v) = Fulfilled (mkReply d None) ->
  let r := downloadImage insert toPng toJpeg getImageProperties addImage save
             true format v in
  match format with
  | png =>
      filter is_raster (snd r) = [ToPng image_options] /\
      match toPng image_options with
      | Some dataUrl =>
          fst r = v /\
          filter is_file (snd r) = [LinkClick "qr-code.png" dataUrl]
      | None =>
          fst r = setError download_banner v /\ filter is_file (snd r) = []
      end
  | jpg =>
      filter is_raster (snd r) = [ToJpeg image_options] /\
      match toJpeg image_options with
      | Some dataUrl =>
          fst r = v /\
          filter is_file (snd r) = [LinkClick "qr-code.jpg" dataUrl]
      | None =>
          fst r = setError download_banner v /\ filter is_file (snd r) = []
      end
  | pdf =>
      filter is_raster (snd r) = [ToPng pdf_options] /\
      match toPng pdf_options with
      | None =>
          fst r = setError download_banner v /\ filter is_file (snd r) = []
      | Some dataUrl =>
          match getImageProperties dataUrl with
          | None =>
              fst r = setError download_banner v /\
              filter is_file (snd r) = []
          | Some (imgWidth, imgHeight) =>
              let p := QRCodeGenerator.placement imgWidth imgHeight in
              In (AddImage dataUrl "PNG" p) (snd r) /\
              if addImage dataUrl p
              then filter is_file (snd r) = [SavePdf "qr-code.pdf"] /\
                   fst r = (if save "qr-code.pdf" then v
                            else setError download_banner v)
              else filter is_file (snd r) = [] /\
                   fst r = setError download_banner v
          end
      end
  end.
Proof.
  intros format v userId d Huid Hins r. subst r.
  rewrite (@downloadImage_saved format v userId d Hins Huid).
  unfold rendering, failed_download, saveQRCode. rewrite Hins.
  cbn [error snd map app]. cbv zeta.
  destruct format.
  - destruct (toPng image_options); repeat split; reflexivity.
  - destruct (toJpeg image_options); repeat split; reflexivity.
  - destruct (toPng pdf_options) as [dataUrl |];
      [| repeat split; reflexivity].
    destruct (getImageProperties dataUrl) as [[iw ih] |];
      [| repeat split; reflexivity].
    set (p := QRCodeGenerator.placement iw ih).
    destruct (addImage dataUrl p).
    + destruct (save "qr-code.pdf");
        (split; [reflexivity |]); (split; [| split; reflexivity]);
        cbn [snd app]; do 6 right; left; reflexivity.
    + split; [reflexivity |]. split; [| split; reflexivity].
      cbn [snd app]. do 6 right. left. reflexivity.
Qed.

End DownloadFacts.

Section DownloadWitnesses.

Import JsString Supabase QrCodes Generator Traces Samples.
Open Scope string_scope.

Lemma downloadImage_store_first_witness :
  downloadImage insert_refused raster_ok raster_ok props_ok
    (fun _ _ => true) (fun _ => true) true png Generator.initial
  = (Generator.initial, []) /\
  existsb is_file
    (snd (downloadImage insert_refused raster_ok raster_ok props_ok
            (fun _ _ => true) (fun _ => true) true png view_bound)) = false.
Proof.
  split.
  - apply (proj1 (downloadImage_store_first insert_refused raster_ok raster_ok
                    props_ok (fun _ _ => true) (fun _ => true)
                    true png Generator.initial)).
    right. reflexivity.
  - destruct (downloadImage_store_first insert_refused raster_ok raster_ok
                props_ok (fun _ _ => true) (fun _ => true)
                true png view_bound) as (_ & _ & H).
    destruct (H "u2" eq_refl eq_refl) as (_ & _ & Hfail).
    apply (Hfail (StoreError "row-level security") eq_refl).
Defined.

Lemma downloadImage_files_witness :
  filter is_file
    (snd (downloadImage insert_ok raster_ok raster_ok props_ok
            (fun _ _ => true) (fun _ => true) true pdf view_bound))
  = [SavePdf "qr-code.pdf"] /\
  filter is_file
    (snd (downloadImage insert_ok raster_ok raster_ok props_ok
            (fun _ _ => true) (fun _ => true) true jpg view_bound))
  = [LinkClick "qr-code.jpg" "data:image/png;base64,AAAA"].
Proof.
  split.
  - destruct (@downloadImage_files insert_ok raster_ok raster_ok props_ok
                (fun _ _ => true) (fun _ => true) pdf view_bound "u2" _
                eq_refl eq_refl) as (_ & _ & Hf & _).
    exact Hf.
  - destruct (@downloadImage_files insert_ok raster_ok raster_ok props_ok
                (fun _ _ => true) (fun _ => true) jpg view_bound "u2" _
                eq_refl eq_refl) as (_ & _ & Hf).
    exact Hf.
Defined.

End DownloadWitnesses.

(** ** From the first submission to the first download *)

Section Unlocking.

Import JsString Supabase Store QrCodes Generator Traces.
Open Scope string_scope.

Variable insert : QRData -> Settled QRCode.
Variable toPng toJpeg : RasterOptions -> option string.
Variable getImageProperties : string -> option (float * float).
Variable addImage : string -> QRCodeGenerator.Placement -> bool.
Variable save : string -> bool.

(** X19: while no user is bound a download does nothing; after a first
    submission on a store that answers, the view holds the new row, the
    banner and the submission flag are cleared, and every download sends one
    insert carrying the identifier the store gave to that row. *)
Theorem first_submission_unlocks : forall (db : Db) (userData : UserData)
    (v : View) (format : Format),
  faults db = [] ->
  filter (same_email (ud_email userData)) (users db) = [] ->
  user v = None ->
  let v' := fst (fst (handleUserSubmit userData v db)) in
  let i := fresh_id (map id (users db)) in
  downloadImage insert toPng toJpeg getImageProperties addImage save
    true format v = (v, []) /\
  user v' = Some (new_row userData db) /\
  isSubmitting v' = false /\
  QRCodeGenerator.error (fields v') = "" /\
  filter is_store
    (snd (downloadImage insert toPng toJpeg getImageProperties addImage save
            true format v'))
  = [Store (InsertQr (snapshot i v'))] /\
  qr_user_id (snapshot i v') = i.
Proof.
  intros db userData v format H0 Hf Hu v' i.
  split.
  - unfold downloadImage. rewrite Hu. reflexivity.
  - assert (Hv : v' = setIsSubmitting false
                        (setUser (Some (new_row userData db))
                           (setError "" (setIsSubmitting true v)))).
    { subst v'. unfold handleUserSubmit.
      rewrite (saveUser_on_store_new _ _ H0 Hf). reflexivity. }
    rewrite Hv. split; [reflexivity |]. split; [reflexivity |].
    split; [reflexivity |]. split; [| reflexivity].
    apply downloadImage_inserts. reflexivity.
Qed.

End Unlocking.

Section UnlockingWitness.

Import JsString Supabase Store QrCodes Generator Traces Samples.
Open Scope string_scope.

Lemma first_submission_unlocks_witness :
  let v' := fst (fst (handleUserSubmit newcomer Generator.initial db_listed)) in
  user_id_of (user v') = Some "u00" /\
  filter is_store
    (snd (downloadImage insert_ok raster_ok raster_ok props_ok
            (fun _ _ => true) (fun _ => true) true png v'))
  = [Store (InsertQr (snapshot "u00" v'))].
Proof.
  intros v'.
  destruct (first_submission_unlocks insert_ok raster_ok raster_ok props_ok
              (fun _ _ => true) (fun _ => true)
              db_listed newcomer Generator.initial png
              eq_refl eq_refl eq_refl)
    as (_ & _ & _ & _ & Hs & _).
  split; [reflexivity | exact Hs].
Defined.

End UnlockingWitness.

(** ** What the two validators accept *)

Section ValidatorFacts.

Import JsString Regex UserForm Shapes.
Open Scope string_scope.

(** X20: [validateEmail] accepts exactly the addresses of the shape
    [local@domain.tld] and then clears the email error; it asks for an
    email when the field is empty and for a valid address otherwise, and
    never touches the form data or the EIN error. *)
Theorem validateEmail_accepts : forall (e : string) (st : State),
  let r := validateEmail e st in
  (fst r = true <-> email_shape e) /\
  (email_shape e -> emailError (snd r) = "") /\
  (e = "" -> emailError (snd r) = "Email is required") /\
  (e <> "" -> ~ email_shape e ->
   emailError (snd r) = "Please enter a valid email address") /\
  formData (snd r) = formData st /\ einError (snd r) = einError st.
Proof.
  intros e st r. subst r. rewrite validateEmail_result. simpl.
  split; [apply emailRegex_spec |].
  split; [intros H; apply emailRegex_spec in H; rewrite H; reflexivity |].
  split; [intros ->; reflexivity |].
  split; [| auto].
  intros Hne Hs.
  destruct (test emailRegex e) eqn:Ht;
    [apply emailRegex_spec in Ht; contradiction |].
  destruct e; [congruence | reflexivity].
Qed.

Lemma validateEmail_accepts_witness :
  emailError (snd (validateEmail "ana@helping" initial))
  = "Please enter a valid email address" /\
  fst (validateEmail "a..b@x-.y.org" initial) = true.
Proof.
  split.
  - apply (proj1 (proj2 (proj2 (proj2 (validateEmail_accepts "ana@helping"
                                          initial))))).
    + discriminate.
    + intros H. apply emailRegex_spec in H. vm_compute in H. discriminate.
  - apply (proj1 (validateEmail_accepts "a..b@x-.y.org" initial)).
    apply emailRegex_spec. vm_compute. reflexivity.
Defined.

(** X21: [validateEIN] accepts the empty string and the strings made of two
    digits, a hyphen and seven digits, and nothing else; it shows the format
    error exactly for the strings it rejects. *)
Theorem validateEIN_accepts : forall (e : string) (st : State),
  let r := validateEIN e st in
  (fst r = true <->
   e = "" \/
   exists a b rest,
     e = String a (String b (String "-" rest)) /\
     is_digit a = true /\ is_digit b = true /\
     String.length rest = 7 /\ all_chars is_digit rest = true) /\
  (fst r = true -> einError (snd r) = "") /\
  (fst r = false -> einError (snd r) = "EIN must be in format: XX-XXXXXXX") /\
  formData (snd r) = formData st /\ emailError (snd r) = emailError st.
Proof.
  intros e st r. subst r. rewrite validateEIN_result. simpl.
  split; [| split; [| split; [| auto]]].
  - rewrite <- einRegex_spec. destruct e as [|c e]; simpl.
    + split; auto.
    + split; [auto | intros [H | H]; [discriminate | exact H]].
  - destruct (truthy e); simpl; [| reflexivity].
    intros ->. reflexivity.
  - destruct (truthy e); simpl; [| discriminate].
    intros ->. reflexivity.
Qed.

Lemma validateEIN_accepts_witness :
  einError (snd (validateEIN "12-345678" initial))
  = "EIN must be in format: XX-XXXXXXX" /\
  einError (snd (validateEIN "" initial)) = "".
Proof.
  split.
  - apply (proj1 (proj2 (proj2 (validateEIN_accepts "12-345678" initial)))).
    reflexivity.
  - apply (proj1 (proj2 (validateEIN_accepts "" initial))). reflexivity.
Defined.

End ValidatorFacts.
